(** * VNRename: folder-name parsing, candidate scoring and name synthesis

    A shallow embedding of the pure core of [main_CLI.py] and [main_GUI.py]
    (the two front-ends of the renamer) together with the pieces of the
    Python runtime they call: [str] methods, the two regular expressions,
    [datetime.strptime]/[strftime] for the format [%Y-%m-%d],
    [difflib.SequenceMatcher.ratio], [list.sort], [str.format] and binary64
    arithmetic.

    Conventions.
    - A Python [str] is a list of Unicode code points ([N]).
    - Functions that can raise return [result]; exceptions that the source
      catches are handled inside the model exactly where the source has its
      [try]/[except].
    - Where both front-ends define a function of the same name, the model
      carries the suffix [_CLI] or [_GUI]. *)

From Stdlib Require Import List ZArith NArith Bool Lia Ascii Floats.
From Stdlib Require String DecimalString.
From Stdlib Require HexadecimalString.
Import String.StringSyntax.
Delimit Scope string_scope with string.
From Stdlib Require Import Sorting.Sorted.
Import ListNotations.

(* ================================================================= *)
(** ** Python strings *)

Abbreviation char := N (only parsing).
Abbreviation str := (list N) (only parsing).

(** ASCII literals of the source are written [lit "..."]. *)
Definition lit (s : String.string) : str :=
  map N_of_ascii (String.list_ascii_of_string s).
Arguments lit s%_string.

Definition char_eqb (a b : char) : bool := N.eqb a b.

Fixpoint str_eqb (a b : str) : bool :=
  match a, b with
  | [], [] => true
  | x :: a', y :: b' => char_eqb x y && str_eqb a' b'
  | _, _ => false
  end.

(** Truthiness of a string: [if s:] / [not s]. *)
Definition nonempty (s : str) : bool :=
  match s with [] => false | _ :: _ => true end.

(** [s[i:j]] for [0 <= i <= j]. *)
Definition slice (i j : nat) (s : str) : str := firstn (j - i) (skipn i s).

Fixpoint starts_with (p s : str) : bool :=
  match p, s with
  | [], _ => true
  | x :: p', y :: s' => char_eqb x y && starts_with p' s'
  | _ :: _, [] => false
  end.

(** [needle in hay] for strings. *)
Fixpoint contains (needle hay : str) : bool :=
  starts_with needle hay ||
  match hay with
  | [] => false
  | _ :: hay' => contains needle hay'
  end.

(** [c in s] for a single character [c]. *)
Definition has_char (c : char) (s : str) : bool := existsb (char_eqb c) s.

(** [s.split(sep, 1)[0]] for a one-character separator: the text before the
    first occurrence of [sep] (all of [s] when there is none). *)
Fixpoint before_first (sep : char) (s : str) : str :=
  match s with
  | [] => []
  | c :: t => if char_eqb c sep then [] else c :: before_first sep t
  end.

(* ----------------------------------------------------------------- *)
(** *** Unicode character database (Unicode 14.0, CPython 3.11) *)

(** [Py_UNICODE_ISSPACE]: what [str.strip()], [int()] and the regex class
    [\s] treat as white space. *)
Definition whitespace_table : list char :=
  [9; 10; 11; 12; 13; 28; 29; 30; 31; 32; 133; 160; 5760;
   8192; 8193; 8194; 8195; 8196; 8197; 8198; 8199; 8200; 8201; 8202;
   8232; 8233; 8239; 8287; 12288]%N.

Definition isspace_c (c : char) : bool := existsb (N.eqb c) whitespace_table.

(** Code points of the characters whose decimal value is 0; the decimal
    digits 0..9 of every script occupy ten consecutive code points. *)
Definition decimal_zero_table : list char :=
  [48; 1632; 1776; 1984; 2406; 2534; 2662; 2790; 2918; 3046; 3174; 3302;
   3430; 3558; 3664; 3792; 3872; 4160; 4240; 6112; 6160; 6470; 6608; 6784;
   6800; 6992; 7088; 7232; 7248; 42528; 43216; 43264; 43472; 43504; 43600;
   44016; 65296; 66720; 68912; 69734; 69872; 69942; 70096; 70384; 70736;
   70864; 71248; 71360; 71472; 71904; 72016; 72784; 73040; 73120; 92768;
   92864; 93008; 120782; 120792; 120802; 120812; 120822; 123200; 123632;
   125264; 130032]%N.

(** Characters with [Numeric_Type=Digit] that are not decimal digits
    (superscripts, circled digits, ...), as inclusive ranges. *)
Definition other_digit_table : list (char * char) :=
  [(178, 179); (185, 185); (4969, 4977); (6618, 6618); (8304, 8304);
   (8308, 8313); (8320, 8329); (9312, 9320); (9332, 9340); (9352, 9360);
   (9450, 9450); (9461, 9469); (9471, 9471); (10102, 10110);
   (10112, 10120); (10122, 10130); (68160, 68163); (69216, 69224);
   (69714, 69722); (127232, 127242)]%N.

(** [Py_UNICODE_TODECIMAL]: the decimal value of [c], if it has one.  This
    is also the regex class [\d]. *)
Fixpoint decimal_in (zeros : list char) (c : char) : option Z :=
  match zeros with
  | [] => None
  | z :: rest =>
      if (N.leb z c && N.leb c (z + 9))%N then Some (Z.of_N (c - z))
      else decimal_in rest c
  end.

Definition to_decimal (c : char) : option Z := decimal_in decimal_zero_table c.

Definition isdecimal_c (c : char) : bool :=
  match to_decimal c with Some _ => true | None => false end.

(** [Py_UNICODE_ISDIGIT]. *)
Definition isdigit_c (c : char) : bool :=
  isdecimal_c c ||
  existsb (fun r => N.leb (fst r) c && N.leb c (snd r))%N other_digit_table.

(** [s.isdigit()]: every character is a digit and there is at least one. *)
Definition isdigit (s : str) : bool := nonempty s && forallb isdigit_c s.

(** [s.strip()] with no argument. *)
Fixpoint lstrip (s : str) : str :=
  match s with
  | [] => []
  | c :: t => if isspace_c c then lstrip t else s
  end.

Definition rstrip (s : str) : str := rev (lstrip (rev s)).

Definition strip (s : str) : str := rstrip (lstrip s).

(* ----------------------------------------------------------------- *)
(** *** Exceptions *)

Inductive exn : Type :=
| ValueError
| KeyError (key : str)
| IndexError
| NotModelled.
(** [NotModelled] is not a Python exception: it marks a use of [str.format]
    outside the fragment of the format mini-language that is modelled,
    where the model does not say what Python does: a field whose name is
    one of the keywords and that goes on with an attribute or an index,
    with the conversion [!r] or [!a], or with a format specification that
    is not empty. *)

Inductive result (A : Type) : Type :=
| Ok (a : A)
| Raise (e : exn).
Arguments Ok {A} a.
Arguments Raise {A} e.

Definition bind {A B} (r : result A) (k : A -> result B) : result B :=
  match r with
  | Ok a => k a
  | Raise e => Raise e
  end.

Notation "x <- r ;; k" := (bind r (fun x => k))
  (at level 61, r at next level, right associativity).

(** [for x in xs: st = body(st, x)] where the body can raise. *)
Fixpoint foldM {A S} (body : S -> A -> result S) (xs : list A) (st : S)
  : result S :=
  match xs with
  | [] => Ok st
  | x :: xs' => st' <- body st x ;; foldM body xs' st'
  end.

(** [int(s)] on the arguments the program passes: optional surrounding
    white space around a non-empty run of decimal digits.  Signs and
    underscore separators never reach [int] here (every argument has been
    matched against [str.isdigit] or a digit pattern first) and are not
    modelled. *)
Fixpoint digits_value (acc : Z) (s : str) : option Z :=
  match s with
  | [] => Some acc
  | c :: t =>
      match to_decimal c with
      | Some d => digits_value (10 * acc + d) t
      | None => None
      end
  end.

Definition py_int (s : str) : result Z :=
  match strip s with
  | [] => Raise ValueError
  | t => match digits_value 0 t with
         | Some v => Ok v
         | None => Raise ValueError
         end
  end.

(* ================================================================= *)
(** ** The regular expressions of the parser *)

Definition NEWLINE : char := 10%N.

(** The tail [.*?\]] of a pattern, tried right after the opening character:
    the shortest run of characters other than newline that is followed by
    [close].  Returns the run and the text after [close]. *)
Fixpoint lazy_until (close : char) (s : str) : option (str * str) :=
  match s with
  | [] => None
  | c :: t =>
      if char_eqb c close then Some ([], t)
      else if char_eqb c NEWLINE then None
      else match lazy_until close t with
           | Some (body, rest) => Some (c :: body, rest)
           | None => None
           end
  end.

(** [re.findall(r'\[(.*?)\]', s)] and its analogues: the scan tries a match
    at every position from left to right and resumes after each match. *)
Fixpoint findall_from (fuel : nat) (open close : char) (s : str) : list str :=
  match fuel with
  | O => []
  | S fuel' =>
      match s with
      | [] => []
      | c :: t =>
          if char_eqb c open then
            match lazy_until close t with
            | Some (body, rest) => body :: findall_from fuel' open close rest
            | None => findall_from fuel' open close t
            end
          else findall_from fuel' open close t
      end
  end.

Definition findall_span (open close : char) (s : str) : list str :=
  findall_from (length s) open close s.

(** [re.sub(r'\[.*?\]', '', s)] and its analogues. *)
Fixpoint sub_from (fuel : nat) (open close : char) (s : str) : str :=
  match fuel with
  | O => []
  | S fuel' =>
      match s with
      | [] => []
      | c :: t =>
          if char_eqb c open then
            match lazy_until close t with
            | Some (_, rest) => sub_from fuel' open close rest
            | None => c :: sub_from fuel' open close t
            end
          else c :: sub_from fuel' open close t
      end
  end.

Definition sub_span (open close : char) (s : str) : str :=
  sub_from (length s) open close s.

Definition LBRACKET : char := 91%N.
Definition RBRACKET : char := 93%N.
Definition LPAREN : char := 40%N.
Definition RPAREN : char := 41%N.
Definition LBRACE : char := 123%N.
Definition RBRACE : char := 125%N.
Definition PLUS : char := 43%N.

(* ================================================================= *)
(** ** Folder-name parser *)

(** The date test of [parse_bracket_info]:
    [1 <= mm <= 12 and 1 <= dd <= 31]. *)
Definition plausible_md (mm dd : Z) : bool :=
  ((1 <=? mm) && (mm <=? 12) && (1 <=? dd) && (dd <=? 31))%Z.

(** The first branch of the loop body, for a stripped 6-digit segment. *)
Definition date_branch (st : str * str) (segment : str) : result (str * str) :=
  mm <- py_int (slice 2 4 segment) ;;
  dd <- py_int (slice 4 6 segment) ;;
  if plausible_md mm dd then Ok (segment, snd st) else Ok st.

(** The [elif] branch. *)
Definition producer_branch (st : str * str) (segment : str) : str * str :=
  if Nat.leb 3 (length segment) then
    if negb (isdigit segment && Nat.ltb 6 (length segment)) then
      if negb (nonempty (snd st)) then (fst st, segment) else st
    else st
  else st.

(** One iteration of [for segment in matches], on the state
    [(expected_date, expected_producer)]. *)
Definition bracket_step_CLI (st : str * str) (segment : str)
  : result (str * str) :=
  let segment := strip segment in
  if isdigit segment && Nat.eqb (length segment) 6 then date_branch st segment
  else Ok (producer_branch st segment).

(** The GUI wraps the date branch in [try: ... except ValueError: pass]. *)
Definition bracket_step_GUI (st : str * str) (segment : str) : str * str :=
  let segment := strip segment in
  if isdigit segment && Nat.eqb (length segment) 6 then
    match date_branch st segment with
    | Ok st' => st'
    | Raise _ => st
    end
  else producer_branch st segment.

Definition parse_bracket_info_CLI (folder_name : str) : result (str * str) :=
  foldM bracket_step_CLI (findall_span LBRACKET RBRACKET folder_name) ([], []).

Definition parse_bracket_info_GUI (folder_name : str) : str * str :=
  fold_left bracket_step_GUI (findall_span LBRACKET RBRACKET folder_name)
    ([], []).

(** [parse_folder_name(folder_name)["title"]]. *)
Definition cleaned_name (folder_name : str) : str :=
  strip (sub_span LBRACE RBRACE
           (sub_span LPAREN RPAREN
              (sub_span LBRACKET RBRACKET folder_name))).

Definition parse_folder_name_CLI (folder_name : str) : str :=
  let cleaned := cleaned_name folder_name in
  if has_char PLUS cleaned then strip (before_first PLUS cleaned)
  else cleaned.

Definition parse_folder_name_GUI (folder_name : str) : str :=
  cleaned_name folder_name.

(* ================================================================= *)
(** ** Release dates: [format_release_date] *)

(** A backtracking matcher: every way the pattern can match a prefix of the
    input, in the order in which the regex engine tries them, each with the
    matched text and the remaining input. *)
Definition matcher := str -> list (str * str).

Definition m_class (p : char -> bool) : matcher :=
  fun s => match s with
           | c :: t => if p c then [([c], t)] else []
           | [] => []
           end.

Definition m_char (c : char) : matcher := m_class (char_eqb c).

Definition m_range (lo hi : char) : matcher :=
  m_class (fun c => N.leb lo c && N.leb c hi).

Definition m_digit : matcher := m_class isdecimal_c.

Definition m_seq (a b : matcher) : matcher :=
  fun s =>
    flat_map (fun xr => map (fun yr => (fst xr ++ fst yr, snd yr)) (b (snd xr)))
             (a s).

Definition m_alt (a b : matcher) : matcher := fun s => a s ++ b s.

Definition c0 : char := 48%N.
Definition c1 : char := 49%N.
Definition c2 : char := 50%N.
Definition c3 : char := 51%N.
Definition c9 : char := 57%N.
Definition SPACE : char := 32%N.
Definition HYPHEN : char := 45%N.

(** [%Y]: [\d\d\d\d]. *)
Definition re_Y : matcher := m_seq m_digit (m_seq m_digit (m_seq m_digit m_digit)).

(** [%m]: [1[0-2]|0[1-9]|[1-9]]. *)
Definition re_m : matcher :=
  m_alt (m_seq (m_char c1) (m_range c0 c2))
    (m_alt (m_seq (m_char c0) (m_range c1 c9))
       (m_range c1 c9)).

(** [%d]: [3[0-1]|[1-2]\d|0[1-9]|[1-9]| [1-9]]. *)
Definition re_d : matcher :=
  m_alt (m_seq (m_char c3) (m_range c0 c1))
    (m_alt (m_seq (m_range c1 c2) m_digit)
       (m_alt (m_seq (m_char c0) (m_range c1 c9))
          (m_alt (m_range c1 c9)
             (m_seq (m_char SPACE) (m_range c1 c9))))).

(** [format_regex.match(data_string)] for the format [%Y-%m-%d]: the groups
    of the first successful match and the text left after it. *)
Definition match_Ymd (s : str) : option (str * str * str * str) :=
  hd_error
    (flat_map (fun Y =>
       flat_map (fun h1 =>
         flat_map (fun m =>
           flat_map (fun h2 =>
             map (fun d => (fst Y, fst m, fst d, snd d)) (re_d (snd h2)))
             (m_char HYPHEN (snd m)))
           (re_m (snd h1)))
         (m_char HYPHEN (snd Y)))
       (re_Y s)).

Definition is_leap (y : Z) : bool :=
  ((y mod 4 =? 0) && (negb (y mod 100 =? 0) || (y mod 400 =? 0)))%Z.

Definition days_in_month (y m : Z) : Z :=
  (if m =? 2 then (if is_leap y then 29 else 28)
   else if (m =? 4) || (m =? 6) || (m =? 9) || (m =? 11) then 30
   else 31)%Z.

(** [datetime.strptime(s, "%Y-%m-%d")]: year, month and day, or [None] when
    any step raises: no match, unconverted data, or a field rejected by the
    range checks of the [datetime] constructor (year 0, month outside
    1..12, day out of range for the month). *)
Definition strptime_Ymd (s : str) : option (Z * Z * Z) :=
  match match_Ymd s with
  | Some (Y, m, d, []) =>
      match py_int Y, py_int m, py_int d with
      | Ok year, Ok month, Ok day =>
          if ((1 <=? year) && (1 <=? month) && (month <=? 12)
              && (1 <=? day) && (day <=? days_in_month year month))%Z
          then Some (year, month, day)
          else None
      | _, _, _ => None
      end
  | _ => None
  end.

(** A number in [0..99] printed with [%02d]. *)
Definition two_digits (n : Z) : str :=
  [Z.to_N (48 + n / 10); Z.to_N (48 + n mod 10)].

(** [dt.strftime("%y%m%d")]. *)
Definition strftime_ymd (ymd : Z * Z * Z) : str :=
  let '(year, month, day) := ymd in
  two_digits (year mod 100) ++ two_digits month ++ two_digits day.

Definition format_release_date (release_date_str : str) : str :=
  match strptime_Ymd release_date_str with
  | Some ymd => strftime_ymd ymd
  | None => lit "Unknown"
  end.

(* ================================================================= *)
(** ** Binary64 floating point *)

(** Every finite binary64 number is an integer multiple of [2^-1074]; the
    integer [k] stands for the float [k * 2^-1074].  All floats of the
    scorer are finite and non-negative, and far below the overflow
    threshold, so signs, infinities and NaN are not represented. *)
Abbreviation f64 := Z (only parsing).

Local Open Scope Z_scope.

Definition F_UNIT : Z := 2 ^ 1074.

(** The exponent of the spacing between the binary64 numbers around a
    quotient whose integer part is [q]: 53 significant bits, and the fixed
    spacing [2^-1074] below [2^-1021]. *)
Definition ulp_exp (q : Z) : Z := Z.max 0 (Z.log2 q - 52).

(** The binary64 number nearest to the rational [num / den] (in units of
    [2^-1074]), ties to even. *)
Definition rne (num den : Z) : f64 :=
  let ulp := 2 ^ ulp_exp (num / den) in
  let m := num / (den * ulp) in
  let r := num - m * (den * ulp) in
  let m' := match 2 * r ?= den * ulp with
            | Lt => m
            | Gt => m + 1
            | Eq => if Z.even m then m else m + 1
            end in
  m' * ulp.

Definition f64_of_int (n : Z) : f64 := rne (n * F_UNIT) 1.
Definition fadd (a b : f64) : f64 := rne (a + b) 1.
Definition fmul (a b : f64) : f64 := rne (a * b) F_UNIT.
Definition fdiv (a b : f64) : f64 := rne (a * F_UNIT) b.

(** [max(a, b)] on floats: the first argument unless the second is greater. *)
Definition fmax (a b : f64) : f64 := if a <? b then b else a.

Definition F_ZERO : f64 := 0.
Definition F_HALF : f64 := 2 ^ 1073.
Definition F_ONE : f64 := 2 ^ 1074.
Definition F_TWO : f64 := 2 ^ 1075.
Definition F_THREE : f64 := 3 * 2 ^ 1074.

Local Close Scope Z_scope.

(** The value of a non-negative finite hardware float in the same units;
    used only to compare the model with the machine's binary64. *)
Definition units_of_float (x : float) : option Z :=
  match Prim2SF x with
  | S754_zero _ => Some 0%Z
  | S754_finite false m e => Some (Z.pos m * 2 ^ (e + 1074))%Z
  | _ => None
  end.

(* ================================================================= *)
(** ** [difflib.SequenceMatcher(None, a, b).ratio()] *)

(** The positions [j], ascending, with [b[j] == x], counted from [j0]. *)
Fixpoint indices_of (x : char) (b : str) (j0 : nat) : list nat :=
  match b with
  | [] => []
  | y :: t =>
      if char_eqb y x then j0 :: indices_of x t (S j0)
      else indices_of x t (S j0)
  end.

(** [b2j.get(x, [])] after [__chain_b]: with [isjunk=None] nothing is junk,
    and with [autojunk] the elements that occur more than [n // 100 + 1]
    times in a [b] of length [n >= 200] are purged as popular. *)
Definition b2j (b : str) (x : char) : list nat :=
  let idxs := indices_of x b 0 in
  let n := length b in
  if Nat.leb 200 n && Nat.ltb (n / 100 + 1) (length idxs) then [] else idxs.

(** [j2len.get(j, 0)] on a dict kept as an association list. *)
Definition j2len_get (j2len : list (nat * nat)) (j : nat) : nat :=
  match find (fun p => Nat.eqb (fst p) j) j2len with
  | Some p => snd p
  | None => 0
  end.

Definition match3 := (nat * nat * nat)%type.

(** The loop [for j in b2j.get(a[i], nothing)] of [find_longest_match]. *)
Fixpoint flm_inner (i blo bhi : nat) (j2len : list (nat * nat))
  (js : list nat) (newj2len : list (nat * nat)) (best : match3)
  : list (nat * nat) * match3 :=
  match js with
  | [] => (newj2len, best)
  | j :: js' =>
      if Nat.ltb j blo then flm_inner i blo bhi j2len js' newj2len best
      else if Nat.leb bhi j then (newj2len, best)
      else
        let k := (match j with
                  | O => 0
                  | S j' => j2len_get j2len j'
                  end) + 1 in
        let best' := if Nat.ltb (snd best) k
                     then (i + 1 - k, j + 1 - k, k) else best in
        flm_inner i blo bhi j2len js' ((j, k) :: newj2len) best'
  end.

(** The loop [for i in range(alo, ahi)], on the state [(j2len, best)]. *)
Definition flm_outer (a b : str) (blo bhi : nat)
  (st : list (nat * nat) * match3) (i : nat) : list (nat * nat) * match3 :=
  flm_inner i blo bhi (fst st) (b2j b (nth i a 0%N)) [] (snd st).

(** [while besti > alo and bestj > blo and a[besti-1] == b[bestj-1]]. *)
Fixpoint extend_left (a b : str) (alo blo besti bestj bestsize : nat) : match3 :=
  match besti with
  | O => (besti, bestj, bestsize)
  | S i' =>
      if Nat.ltb alo besti && Nat.ltb blo bestj
         && char_eqb (nth i' a 0%N) (nth (bestj - 1) b 0%N)
      then extend_left a b alo blo i' (bestj - 1) (bestsize + 1)
      else (besti, bestj, bestsize)
  end.

(** [while besti+bestsize < ahi and bestj+bestsize < bhi and
    a[besti+bestsize] == b[bestj+bestsize]]. *)
Fixpoint extend_right (fuel : nat) (a b : str) (ahi bhi besti bestj bestsize : nat)
  : nat :=
  match fuel with
  | O => bestsize
  | S fuel' =>
      if Nat.ltb (besti + bestsize) ahi && Nat.ltb (bestj + bestsize) bhi
         && char_eqb (nth (besti + bestsize) a 0%N) (nth (bestj + bestsize) b 0%N)
      then extend_right fuel' a b ahi bhi besti bestj (bestsize + 1)
      else bestsize
  end.

(** [find_longest_match(alo, ahi, blo, bhi)].  The two further loops of the
    library extend the match over junk elements; the junk set is empty here
    and their guards are false. *)
Definition find_longest_match (a b : str) (alo ahi blo bhi : nat) : match3 :=
  let '(_, (besti, bestj, bestsize)) :=
    fold_left (flm_outer a b blo bhi) (seq alo (ahi - alo)) ([], (alo, blo, 0)) in
  let '(besti, bestj, bestsize) := extend_left a b alo blo besti bestj bestsize in
  let bestsize := extend_right ahi a b ahi bhi besti bestj bestsize in
  (besti, bestj, bestsize).

Definition range4 := (nat * nat * nat * nat)%type.

(** The work-list loop of [get_matching_blocks]; the head of [queue] is the
    element that [queue.pop()] returns. *)
Fixpoint blocks_loop (fuel : nat) (a b : str) (queue : list range4)
  (matching_blocks : list match3) : list match3 :=
  match fuel with
  | O => matching_blocks
  | S fuel' =>
      match queue with
      | [] => matching_blocks
      | (alo, ahi, blo, bhi) :: queue' =>
          let '(i, j, k) := find_longest_match a b alo ahi blo bhi in
          if Nat.eqb k 0 then blocks_loop fuel' a b queue' matching_blocks
          else
            let q1 := if Nat.ltb alo i && Nat.ltb blo j
                      then (alo, i, blo, j) :: queue' else queue' in
            let q2 := if Nat.ltb (i + k) ahi && Nat.ltb (j + k) bhi
                      then (i + k, ahi, j + k, bhi) :: q1 else q1 in
            blocks_loop fuel' a b q2 (matching_blocks ++ [(i, j, k)])
      end
  end.

(** The blocks found by [get_matching_blocks], before they are sorted and
    adjacent ones merged (which leaves the total size unchanged). *)
Definition matching_blocks (a b : str) : list match3 :=
  blocks_loop (2 * length a + 2) a b [(0, length a, 0, length b)] [].

(** [sum(triple[-1] for triple in blocks)]. *)
Definition total_size (blocks : list match3) : nat :=
  fold_right (fun x acc => snd x + acc) 0 blocks.

Definition matches (a b : str) : nat := total_size (matching_blocks a b).

(** [_calculate_ratio(matches, len(a) + len(b))]. *)
Definition ratio (a b : str) : f64 :=
  let length := length a + length b in
  if Nat.eqb length 0 then F_ONE
  else fdiv (fmul F_TWO (f64_of_int (Z.of_nat (matches a b))))
            (f64_of_int (Z.of_nat length)).

(* ================================================================= *)
(** ** Catalog records *)

(** The JSON objects returned by the catalog, with the fields the two
    programs read.  A field is [None] when the key is missing or holds no
    value; a field that is present holds a value of the expected type. *)
Record developer := { dev_name : option str }.

Record vn := {
  vn_title : option str;            (* "title" *)
  vn_titles : list (option str);    (* "titles": the "title" of each entry *)
  vn_released : option str;         (* "released" *)
  vn_developers : list developer;   (* "developers" *)
  vn_length : option Z              (* "length" *)
}.

Record producer := {
  prod_name : option str;           (* "name" *)
  prod_developer : bool             (* "developer" is true *)
}.

Record release := {
  rel_title : option str;           (* "title" *)
  rel_released : option str;        (* "released" *)
  rel_producers : list producer     (* "producers" *)
}.

(** [d.get(key, default)] on a string field. *)
Definition get_or (field : option str) (default : str) : str :=
  match field with Some v => v | None => default end.

(** The parts of the Unicode character database that the programs reach
    through [str.lower()], the regex class [\W] and [repr()].  No property
    below depends on their values outside ASCII. *)
Record unicode_db := {
  lower : str -> str;            (* str.lower() *)
  isword : char -> bool;         (* the regex class \w *)
  isprintable : char -> bool     (* Py_UNICODE_ISPRINTABLE *)
}.

Definition ascii_lower_c (c : char) : char :=
  if (N.leb 65 c && N.leb c 90)%N then (c + 32)%N else c.

Definition ascii_isword (c : char) : bool :=
  ((N.leb 48 c && N.leb c 57) || (N.leb 65 c && N.leb c 90)
   || (N.leb 97 c && N.leb c 122) || N.eqb c 95)%N.

(** The database restricted to ASCII, exact on ASCII text; used to run the
    model on concrete ASCII inputs. *)
Definition ascii_db : unicode_db := {|
  lower := map ascii_lower_c;
  isword := ascii_isword;
  isprintable := fun c => (N.leb 32 c && N.ltb c 127)%N
|}.

(* ================================================================= *)
(** ** Candidate scorer: [get_vn_candidates] *)

(** [l.sort(key=key, reverse=True)]: the sort is stable, and with
    [reverse=True] elements with equal keys still keep their original
    order; this determines the result, which stable insertion computes. *)
Fixpoint insert_desc {A} (key : A -> f64) (x : A) (l : list A) : list A :=
  match l with
  | [] => [x]
  | y :: t => if (key x <? key y)%Z then y :: insert_desc key x t else x :: l
  end.

Fixpoint sort_desc {A} (key : A -> f64) (l : list A) : list A :=
  match l with
  | [] => []
  | x :: t => insert_desc key x (sort_desc key t)
  end.

(** [l[:n]] for a Python integer [n]. *)
Definition slice_to {A} (n : Z) (l : list A) : list A :=
  if (n <? 0)%Z then firstn (length l - Z.to_nat (- n)) l
  else firstn (Z.to_nat n) l.

(** The name of the first listed developer, [""] when there is none. *)
Definition first_developer (candidate : vn) : str :=
  match vn_developers candidate with
  | [] => []
  | d :: _ => get_or (dev_name d) []
  end.

Section Scorer.
Variable U : unicode_db.

(* ----- main_CLI.py ----- *)

Definition title_conf_CLI (search_query : str) (candidate : vn) : f64 :=
  ratio (lower U search_query) (lower U (get_or (vn_title candidate) [])).

Definition candidate_date_CLI (candidate : vn) : str :=
  let candidate_release := get_or (vn_released candidate) [] in
  if nonempty candidate_release then format_release_date candidate_release
  else [].

Definition date_conf_CLI (expected_date : str) (candidate : vn) : f64 :=
  let candidate_date := candidate_date_CLI candidate in
  if nonempty expected_date && nonempty candidate_date
  then ratio expected_date candidate_date
  else F_HALF.

Definition prod_conf_CLI (expected_producer : str) (candidate : vn) : f64 :=
  let candidate_producer := first_developer candidate in
  if nonempty expected_producer && nonempty candidate_producer
  then ratio (lower U expected_producer) (lower U candidate_producer)
  else F_HALF.

Definition composite_conf_CLI (search_query expected_date expected_producer : str)
  (candidate : vn) : f64 :=
  fdiv (fadd (fadd (title_conf_CLI search_query candidate)
                   (date_conf_CLI expected_date candidate))
             (prod_conf_CLI expected_producer candidate))
       F_THREE.

(** [response] is the list under ["results"] of the decoded reply, [None]
    when the request fails, the body is not JSON or the key is missing. *)
Definition get_vn_candidates_CLI (response : option (list vn))
  (search_query expected_date expected_producer : str) : list (vn * f64) :=
  match response with
  | None => []
  | Some candidates =>
      firstn 3
        (sort_desc snd
           (map (fun candidate =>
                   (candidate,
                    composite_conf_CLI search_query expected_date
                      expected_producer candidate))
                candidates))
  end.

(* ----- main_GUI.py ----- *)

(** [re.sub(r'\W+', '', s).lower()]. *)
Definition normalize_string (s : str) : str := lower U (filter (isword U) s).

Definition title_sim_GUI (search_query : str) (cand : vn) : f64 :=
  let sim_romaji :=
    ratio (lower U search_query) (lower U (get_or (vn_title cand) [])) in
  let sim_jp :=
    fold_left (fun sim_jp t =>
                 fmax sim_jp
                   (ratio (lower U search_query) (lower U (get_or t []))))
              (vn_titles cand) F_ZERO in
  fmax sim_romaji sim_jp.

(** The expected date rewritten as [20YY-MM-DD] when it is six digits. *)
Definition norm_date_GUI (expected_date : str) : str :=
  if Nat.eqb (length expected_date) 6 && isdigit expected_date
  then lit "20" ++ slice 0 2 expected_date ++ lit "-"
       ++ slice 2 4 expected_date ++ lit "-" ++ slice 4 6 expected_date
  else expected_date.

Definition date_sim_GUI (expected_date : str) (cand : vn) : f64 :=
  let rel := get_or (vn_released cand) [] in
  if nonempty expected_date && nonempty rel
  then ratio (norm_date_GUI expected_date) rel
  else F_HALF.

Definition dev_sim_GUI (expected_producer : str) (cand : vn) : f64 :=
  let devname := first_developer cand in
  if nonempty expected_producer && nonempty devname
  then ratio (normalize_string expected_producer) (normalize_string devname)
  else F_HALF.

(** [cand["match"]]. *)
Definition match_GUI (search_query expected_date expected_producer : str)
  (cand : vn) : f64 :=
  fdiv (fadd (fadd (title_sim_GUI search_query cand)
                   (date_sim_GUI expected_date cand))
             (dev_sim_GUI expected_producer cand))
       F_THREE.

(** Each returned candidate is paired with the value stored under its
    ["match"] key. *)
Definition get_vn_candidates_GUI (response : option (list vn))
  (search_query expected_date expected_producer : str) (candidate_limit : Z)
  : list (vn * f64) :=
  match response with
  | None => []
  | Some results =>
      slice_to candidate_limit
        (sort_desc snd
           (map (fun cand =>
                   (cand,
                    match_GUI search_query expected_date expected_producer cand))
                results))
  end.
End Scorer.

(* ================================================================= *)
(** ** Content flag detector *)

(** What a detector does besides returning: the directory it lists and the
    error line it prints when the listing fails. *)
Inductive event : Type :=
| ListDir (path : str)
| PrintError.

Definition STAR_CONFIRMED : str := [9733%N].   (* U+2605 BLACK STAR *)
Definition STAR_EXPECTED : str := [9734%N].    (* U+2606 WHITE STAR *)
Definition OST_GLYPH : str := [9835%N].        (* U+266B BEAMED EIGHTH NOTES *)

(** ["ost", "soundtrack", "オリジナルサウンドトラック"]. *)
Definition ost_keywords : list str :=
  [lit "ost"; lit "soundtrack";
   [12458; 12522; 12472; 12490; 12523; 12469; 12454; 12531; 12489; 12488;
    12521; 12483; 12463]%N].

(** ["fandisc", "fan disc", "ファンディスク"]. *)
Definition fandisc_keywords : list str :=
  [lit "fandisc"; lit "fan disc";
   [12501; 12449; 12531; 12487; 12451; 12473; 12463]%N].

(** [any(kw in text for kw in keywords)]. *)
Definition any_keyword (keywords : list str) (text : str) : bool :=
  existsb (fun kw => contains kw text) keywords.

Section Detector.
Variable U : unicode_db.

(** [os.listdir]: the entries of a directory, [None] when it raises. *)
Variable listdir : str -> option (list str).

(** The [try] block that scans the file names of the folder. *)
Definition scan_folder (keywords : list str) (folder_path : str)
  : bool * list event :=
  match listdir folder_path with
  | Some filenames =>
      (existsb (fun filename => any_keyword keywords (lower U filename))
               filenames,
       [ListDir folder_path])
  | None => (false, [ListDir folder_path; PrintError])
  end.

Definition title_has_keyword (keywords : list str)
  (release_info : option release) : bool :=
  match release_info with
  | Some r =>
      match rel_title r with
      | Some title => any_keyword keywords (lower U title)
      | None => false
      end
  | None => false
  end.

Definition detect_ost (folder_path folder_name : str)
  (release_info : option release) : bool * list event :=
  if contains OST_GLYPH folder_name then (true, [])
  else if any_keyword ost_keywords (lower U folder_name) then (true, [])
  else if title_has_keyword ost_keywords release_info then (true, [])
  else scan_folder ost_keywords folder_path.

Definition detect_fandisc_api (release_info : option release)
  (folder_name : str) : bool :=
  if title_has_keyword fandisc_keywords release_info then true
  else if any_keyword fandisc_keywords (lower U folder_name) then true
  else false.

Definition detect_fandisc_physical (folder_path : str) : bool * list event :=
  scan_folder fandisc_keywords folder_path.
End Detector.

(** The flag chosen in [main] from the two pieces of evidence. *)
Definition fandisc_flag (api_has_fandisc physical_fandisc : bool) : str :=
  if api_has_fandisc then
    if physical_fandisc then STAR_CONFIRMED else STAR_EXPECTED
  else [].

(** How [main] adds a flag to the flags typed by the user. *)
Definition add_flag (optional_flags flag : str) : str :=
  if nonempty optional_flags then
    if negb (contains flag optional_flags)
    then optional_flags ++ lit ", " ++ flag
    else optional_flags
  else flag.

(** [optional_flags] as [main] has it after the fandisc step. *)
Definition flags_after_fandisc (user_flags : str)
  (api_has_fandisc physical_fandisc : bool) : str :=
  let fandisc_flag := fandisc_flag api_has_fandisc physical_fandisc in
  if nonempty fandisc_flag then add_flag user_flags fandisc_flag
  else user_flags.

(* ================================================================= *)
(** ** Name synthesizer: [suggest_new_folder_name] *)

(** [str(n)] for an integer. *)
Definition str_of_int (n : Z) : str :=
  lit (DecimalString.NilZero.string_of_int (Z.to_int n)).

(** [template.format] with keyword arguments only, as both programs call
    it: the format string is read from left to right; each replacement
    field is parsed, then looked up, before the text after it is read. *)
Fixpoint lookup (kwargs : list (str * str)) (name : str) : option str :=
  match kwargs with
  | [] => None
  | (k, v) :: rest => if str_eqb k name then Some v else lookup rest name
  end.

(** The characters that start a conversion ([!]), a format specification
    ([:]), an attribute ([.]) or an index ([[]) in a replacement field. *)
Definition is_special (c : char) : bool :=
  existsb (char_eqb c) [33; 58; 46; 91]%N.
Arguments is_special : simpl never.

(** A replacement field as the formatter reads it: the field name, the
    conversion character after [!] and the format specification after
    [:]. *)
Record replacement_field := {
  fname : str;
  fconv : option char;
  fspec : option str
}.

Definition BANG : char := 33%N.
Definition COLON : char := 58%N.
Definition DOT : char := 46%N.

(** The format specification, up to the brace that closes the field;
    [depth] counts the braces opened inside the specification. *)
Fixpoint scan_spec (depth : nat) (s : str) : result (str * str) :=
  match s with
  | [] => Raise ValueError
  | c :: t =>
      if char_eqb c RBRACE then
        match depth with
        | O => Ok ([], t)
        | S depth' => r <- scan_spec depth' t ;; Ok (c :: fst r, snd r)
        end
      else
        r <- scan_spec (if char_eqb c LBRACE then S depth else depth) t ;;
        Ok (c :: fst r, snd r)
  end.

(** What follows [!]: the conversion character, then the closing brace or
    a colon and the format specification. *)
Definition scan_conversion (s : str) : result (char * option str * str) :=
  match s with
  | conv :: c :: t =>
      if char_eqb c RBRACE then Ok (conv, None, t)
      else if char_eqb c COLON then
        r <- scan_spec 0 t ;; Ok (conv, Some (fst r), snd r)
      else Raise ValueError
  | _ => Raise ValueError
  end.

(** The replacement field after an opening brace, and the text after its
    closing brace.  The name ends at [}], [:] or [!]; an opening brace in
    it is an error; between [[] and the next []] every character belongs
    to the name ([in_index]). *)
Fixpoint scan_field (in_index : bool) (s : str)
  : result (replacement_field * str) :=
  match s with
  | [] => Raise ValueError
  | c :: t =>
      if in_index then
        r <- scan_field (negb (char_eqb c RBRACKET)) t ;;
        Ok (Build_replacement_field (c :: fname (fst r)) (fconv (fst r))
              (fspec (fst r)), snd r)
      else if char_eqb c LBRACE then Raise ValueError
      else if char_eqb c RBRACE then
        Ok (Build_replacement_field [] None None, t)
      else if char_eqb c COLON then
        r <- scan_spec 0 t ;;
        Ok (Build_replacement_field [] None (Some (fst r)), snd r)
      else if char_eqb c BANG then
        r <- scan_conversion t ;;
        Ok (Build_replacement_field [] (Some (fst (fst r))) (snd (fst r)),
            snd r)
      else
        r <- scan_field (char_eqb c LBRACKET) t ;;
        Ok (Build_replacement_field (c :: fname (fst r)) (fconv (fst r))
              (fspec (fst r)), snd r)
  end.

(** The first part of a field name, up to the first [.] or [[], and what
    follows it. *)
Fixpoint name_first (name : str) : str * str :=
  match name with
  | [] => ([], [])
  | c :: t =>
      if char_eqb c DOT || char_eqb c LBRACKET then ([], name)
      else let r := name_first t in (c :: fst r, snd r)
  end.

(** The largest index of the C implementation, on a 64-bit platform. *)
Definition PY_SSIZE_T_MAX : Z := (2 ^ 63 - 1)%Z.

(** The first part of a field name read as a number: [Some] index when
    all its characters are decimal digits ([Some 0] when it is empty: the
    field is then numbered automatically, and it is the first such field
    that fails), [None] when one is not; [ValueError] as soon as the
    digits read pass the largest index. *)
Fixpoint get_integer (accumulator : Z) (s : str) : result (option Z) :=
  match s with
  | [] => Ok (Some accumulator)
  | c :: t =>
      match to_decimal c with
      | None => Ok None
      | Some digitval =>
          if ((PY_SSIZE_T_MAX - digitval) / 10 <? accumulator)%Z
          then Raise ValueError
          else get_integer (10 * accumulator + digitval)%Z t
      end
  end.

(** The text a field is replaced by.  There are no positional arguments,
    so a numbered field raises [IndexError]; a name that is not a keyword
    raises [KeyError]; the value of a keyword is a string, which [!s] and
    an empty format specification leave as it is.  Attribute and index
    access on the value, the conversions [!r] and [!a] and a non-empty
    format specification are not modelled. *)
Definition field_value (kwargs : list (str * str)) (f : replacement_field)
  : result str :=
  let parts := name_first (fname f) in
  let first := fst parts in
  let rest := snd parts in
  index <- get_integer 0 first ;;
  match index with
  | Some _ => Raise IndexError
  | None =>
      match lookup kwargs first with
      | None => Raise (KeyError first)
      | Some v =>
          if nonempty rest then Raise NotModelled
          else
            v' <- match fconv f with
                  | None => Ok v
                  | Some conv =>
                      if char_eqb conv 115%N then Ok v
                      else if char_eqb conv 114%N || char_eqb conv 97%N
                      then Raise NotModelled
                      else Raise ValueError
                  end ;;
            match fspec f with
            | None => Ok v'
            | Some [] => Ok v'
            | Some (_ :: _) => Raise NotModelled
            end
      end
  end.

Fixpoint format_from (fuel : nat) (kwargs : list (str * str)) (s : str)
  : result str :=
  match fuel with
  | O => Ok []
  | S fuel' =>
      match s with
      | [] => Ok []
      | c :: t =>
          if char_eqb c LBRACE then
            match t with
            | [] => Raise ValueError
            | c' :: t' =>
                if char_eqb c' LBRACE then
                  out <- format_from fuel' kwargs t' ;; Ok (LBRACE :: out)
                else
                  fr <- scan_field false t ;;
                  v <- field_value kwargs (fst fr) ;;
                  out <- format_from fuel' kwargs (snd fr) ;;
                  Ok (v ++ out)
            end
          else if char_eqb c RBRACE then
            match t with
            | [] => Raise ValueError
            | c' :: t' =>
                if char_eqb c' RBRACE then
                  out <- format_from fuel' kwargs t' ;; Ok (RBRACE :: out)
                else Raise ValueError
            end
          else out <- format_from fuel' kwargs t ;; Ok (c :: out)
      end
  end.

Definition py_format (template : str) (kwargs : list (str * str)) : result str :=
  format_from (length template) kwargs template.

(** The first part of a field name is read as a number, or passes the
    largest index. *)
Definition is_index (name : str) : bool :=
  match get_integer 0 name with
  | Ok None => false
  | _ => true
  end.

(** The keyword arguments both programs pass to [custom_template.format]. *)
Definition template_kwargs (producer release_date length title flags tags : str)
  : list (str * str) :=
  [(lit "producer", producer); (lit "release_date", release_date);
   (lit "length", length); (lit "title", title); (lit "flags", flags);
   (lit "tags", tags)].

Definition UNKNOWN_PRODUCER : str := lit "Unknown Producer".

(** The producer: a release producer flagged as developer, else the first
    release producer, else the first developer of the VN. *)
Definition resolve_producer (vn_info : vn) (release_info : option release)
  : str :=
  let producers := match release_info with
                   | Some r => rel_producers r
                   | None => []
                   end in
  match producers with
  | first :: _ =>
      match find prod_developer producers with
      | Some prod => get_or (prod_name prod) UNKNOWN_PRODUCER
      | None => get_or (prod_name first) UNKNOWN_PRODUCER
      end
  | [] =>
      match vn_developers vn_info with
      | d :: _ => get_or (dev_name d) UNKNOWN_PRODUCER
      | [] => UNKNOWN_PRODUCER
      end
  end.

(** The formatted date: the date of the release, else of the VN. *)
Definition resolve_date (vn_info : vn) (release_info : option release) : str :=
  let release_date_str :=
    match release_info with
    | Some r => get_or (rel_released r) []
    | None => []
    end in
  let release_date_str :=
    if nonempty release_date_str then release_date_str
    else get_or (vn_released vn_info) [] in
  if nonempty release_date_str then format_release_date release_date_str
  else lit "Unknown".

Definition length_token (vn_info : vn) : str :=
  match vn_length vn_info with
  | Some length_val => lit "[L" ++ str_of_int length_val ++ lit "]"
  | None => []
  end.

(** The name built when no custom template is used. *)
Definition default_name (producer formatted_date length_str title flags tags : str)
  : str :=
  let folder_name :=
    lit "[" ++ producer ++ lit "][" ++ formatted_date ++ lit "]"
    ++ length_str ++ lit " " ++ title in
  let folder_name :=
    if nonempty flags then folder_name ++ lit " {" ++ flags ++ lit "}"
    else folder_name in
  if nonempty tags then folder_name ++ lit " (" ++ tags ++ lit ")"
  else folder_name.

Definition suggest_new_folder_name_CLI (vn_info : vn)
  (release_info : option release) (optional_flags optional_tags : option str)
  (custom_template : option str) : result str :=
  let producer := resolve_producer vn_info release_info in
  let formatted_date := resolve_date vn_info release_info in
  let length_str := length_token vn_info in
  let title := get_or (vn_title vn_info) (lit "Unknown Title") in
  let flags := strip (get_or optional_flags []) in
  let tags := get_or optional_tags [] in
  if nonempty (get_or custom_template []) then
    py_format (get_or custom_template [])
      (template_kwargs producer formatted_date length_str title flags tags)
  else Ok (default_name producer formatted_date length_str title flags tags).

(** [re.sub] of the pattern [\(\s*\)] by the empty string: an opening
    parenthesis, any white space, a closing parenthesis. *)
Fixpoint sub_empty_parens_from (fuel : nat) (s : str) : str :=
  match fuel with
  | O => []
  | S fuel' =>
      match s with
      | [] => []
      | c :: t =>
          if char_eqb c LPAREN then
            match lstrip t with
            | c' :: rest =>
                if char_eqb c' RPAREN then sub_empty_parens_from fuel' rest
                else c :: sub_empty_parens_from fuel' t
            | [] => c :: sub_empty_parens_from fuel' t
            end
          else c :: sub_empty_parens_from fuel' t
      end
  end.

Definition sub_empty_parens (s : str) : str :=
  sub_empty_parens_from (length s) s.

Definition hex_digit (n : N) : char :=
  (if n <? 10 then 48 + n else 87 + n)%N.

(** [n] written with [width] lower-case hexadecimal digits. *)
Fixpoint hex_fixed (width : nat) (n : N) : str :=
  match width with
  | O => []
  | S w => hex_fixed w (n / 16) ++ [hex_digit (n mod 16)]
  end.

Definition QUOTE : char := 39%N.
Definition DQUOTE : char := 34%N.
Definition BACKSLASH : char := 92%N.

Section Repr.
Variable U : unicode_db.

Definition repr_char (quote c : char) : str :=
  (if char_eqb c quote || char_eqb c BACKSLASH then [BACKSLASH; c]
   else if c =? 9 then lit "\t"
   else if c =? 10 then lit "\n"
   else if c =? 13 then lit "\r"
   else if (c <? 32) || (c =? 127) then lit "\x" ++ hex_fixed 2 c
   else if c <? 127 then [c]
   else if isprintable U c then [c]
   else if c <=? 255 then lit "\x" ++ hex_fixed 2 c
   else if c <=? 65535 then lit "\u" ++ hex_fixed 4 c
   else lit "\U" ++ hex_fixed 8 c)%N.

(** [repr(s)] of a string, which is also [str(KeyError(s))]. *)
Definition py_repr (s : str) : str :=
  let quote := if has_char QUOTE s && negb (has_char DQUOTE s)
               then DQUOTE else QUOTE in
  [quote] ++ flat_map (repr_char quote) s ++ [quote].

Definition suggest_new_folder_name_GUI (vn_info : vn)
  (release_info : option release) (optional_flags optional_tags : option str)
  (custom_template title_override : option str) : result str :=
  let producer := resolve_producer vn_info release_info in
  let formatted_date := resolve_date vn_info release_info in
  let length_str := length_token vn_info in
  let title_str :=
    if nonempty (get_or title_override []) then get_or title_override []
    else get_or (vn_title vn_info) (lit "Unknown Title") in
  let flags_str := strip (get_or optional_flags []) in
  let tags_str := strip (get_or optional_tags []) in
  if nonempty (get_or custom_template [])
     && nonempty (strip (get_or custom_template []))
  then
    match py_format (get_or custom_template [])
            (template_kwargs producer formatted_date length_str title_str
               flags_str tags_str) with
    | Ok name => Ok (strip (sub_empty_parens name))
    | Raise (KeyError e) =>
        Ok (lit "Error: missing placeholder " ++ py_repr e)
    | Raise e => Raise e
    end
  else
    Ok (default_name producer formatted_date length_str title_str
          flags_str tags_str).
End Repr.

(** [CustomTemplateEditor.getTemplate] on the texts of the checked items. *)
Definition template_part (t : str) : str :=
  if str_eqb t (lit "producer") then lit "[{producer}]"
  else if str_eqb t (lit "release_date") then lit "[{release_date}]"
  else if str_eqb t (lit "length") then lit "{length}"
  else if str_eqb t (lit "title") then lit "{title}"
  else if str_eqb t (lit "flags") then lit "{flags}"
  else if str_eqb t (lit "tags") then lit "({tags})"
  else lit "{" ++ t ++ lit "}".

Fixpoint join (sep : str) (parts : list str) : str :=
  match parts with
  | [] => []
  | [p] => p
  | p :: rest => p ++ sep ++ join sep rest
  end.

Definition getTemplate (checked_items : list str) : str :=
  join (lit " ") (map template_part checked_items).

(* ================================================================= *)
(** ** Release lookup: [search_release] and [search_tag] *)

(** A release of a reply, with whether its ["official"] field is true. *)
Record release_entry := {
  entry : release;
  official : bool
}.

(** The decoded body of a reply: a JSON array, a JSON object (with, for
    each of the three keys the program looks at, the list it holds, [None]
    when the key is missing or does not hold a list), or another JSON
    value. *)
Inductive reply (A : Type) : Type :=
| ReplyList (items : list A)
| ReplyObject (result results named : option (list A))
| ReplyOther.
Arguments ReplyList {A} items.
Arguments ReplyObject {A} result results named.
Arguments ReplyOther {A}.

(** The chain of [isinstance] tests of [search_release] and [search_tag]
    in [main_CLI.py]; [named] stands for the key ["releases"],
    respectively ["tags"]. *)
Definition reply_items {A} (data : reply A) : list A :=
  match data with
  | ReplyList items => items
  | ReplyObject (Some l) _ _ => l
  | ReplyObject None (Some l) _ => l
  | ReplyObject None None (Some l) => l
  | ReplyObject None None None => []
  | ReplyOther => []
  end.

(** The first official release, else the first release. *)
Definition select_release (releases : list release_entry)
  : option release_entry :=
  match releases with
  | [] => None
  | first :: _ =>
      match find official releases with
      | Some release => Some release
      | None => Some first
      end
  end.

(** [search_release] of [main_CLI.py]; [response] is the decoded body,
    [None] when the request fails or the body is not JSON. *)
Definition search_release_CLI (response : option (reply release_entry))
  : option release_entry :=
  match response with
  | None => None
  | Some data => select_release (reply_items data)
  end.

(** [search_tag]. *)
Definition search_tag {A} (response : option (reply A)) : option A :=
  match response with
  | None => None
  | Some data => hd_error (reply_items data)
  end.

(** [vn_id[1:] if str(vn_id).startswith("v") else str(vn_id)]. *)
Definition vn_num (vn_id : str) : str :=
  if starts_with (lit "v") vn_id then skipn 1 vn_id else vn_id.

Section SearchRelease.
(** [_post] for the release query with the filter value [value]: the list
    under ["results"] of the reply, [None] when the request fails or the
    reply has no such list. *)
Variable post : str -> option (list release_entry).

(** The loop [for value in (...)] of [search_release] in [main_GUI.py]:
    the release returned and the filter values that were sent, in order. *)
Fixpoint search_release_loop (values : list str)
  : option release_entry * list str :=
  match values with
  | [] => (None, [])
  | value :: rest =>
      match post value with
      | Some (first :: more) => (select_release (first :: more), [value])
      | _ => let '(found, sent) := search_release_loop rest in
             (found, value :: sent)
      end
  end.

Definition search_release_GUI (vn_id : str)
  : option release_entry * list str :=
  search_release_loop [lit "v" ++ vn_num vn_id; vn_num vn_id].
End SearchRelease.

(* ================================================================= *)
(** ** Steps of [main] and of the window between the functions above *)

(** [vn_id] with the prefix [v], as [main] and [select_candidate] pass it
    to [search_release]. *)
Definition prefixed_id (vn_id : str) : str :=
  if nonempty vn_id && negb (starts_with (lit "v") vn_id)
  then lit "v" ++ vn_id else vn_id.

(** [search_query.split(" ", 1)[0].strip()]: the query that [main] and
    [search_candidates] retry with when the search for a query that
    contains a space returns nothing. *)
Definition shortened_query (search_query : str) : str :=
  strip (before_first SPACE search_query).

(** [optional_flags] as [main] has it after the OST step. *)
Definition flags_after_ost (optional_flags : str) (ost_detected : bool) : str :=
  if ost_detected then add_flag optional_flags OST_GLYPH else optional_flags.

Definition UNDERSCORE : char := 95%N.

(** The digits of an integer literal: decimal digits of any script, with
    single underscores allowed between digits.  Returns the value and the
    number of digits. *)
Fixpoint int_digits (acc : Z) (count : nat) (after_digit : bool) (s : str)
  : option (Z * nat) :=
  match s with
  | [] => if after_digit then Some (acc, count) else None
  | c :: t =>
      if char_eqb c UNDERSCORE then
        if after_digit then int_digits acc count false t else None
      else
        match to_decimal c with
        | Some d => int_digits (10 * acc + d) (S count) true t
        | None => None
        end
  end.

(** [sys.get_int_max_str_digits()], by default. *)
Definition MAX_STR_DIGITS : nat := 4300.

(** [int(s)] for a text without white space at its ends, as [str.strip]
    leaves it: an optional sign and the digits. *)
Definition int_of_trimmed (s : str) : result Z :=
  let '(negative, digits) :=
    match s with
    | c :: t =>
        if char_eqb c HYPHEN then (true, t)
        else if char_eqb c PLUS then (false, t)
        else (false, s)
    | [] => (false, [])
    end in
  match int_digits 0 0 false digits with
  | Some (v, count) =>
      if Nat.ltb MAX_STR_DIGITS count then Raise ValueError
      else Ok (if negative then (- v)%Z else v)
  | None => Raise ValueError
  end.

(** [l[i]] for a Python integer [i]. *)
Definition getitem {A} (l : list A) (i : Z) : result A :=
  let i := if (i <? 0)%Z then (i + Z.of_nat (length l))%Z else i in
  if (i <? 0)%Z then Raise IndexError
  else match nth_error l (Z.to_nat i) with
       | Some x => Ok x
       | None => Raise IndexError
       end.

(** The candidate that [main] takes from the line typed at the prompt
    [Select a candidate by number]: [None] when the folder is skipped. *)
Definition choose_candidate {A} (line : str) (candidates : list A)
  : result (option A) :=
  match int_of_trimmed (strip line) with
  | Raise _ => Ok None
  | Ok selection =>
      if (selection =? 0)%Z || (Z.of_nat (length candidates) <? selection)%Z
      then Ok None
      else x <- getitem candidates (selection - 1) ;; Ok (Some x)
  end.

(* ================================================================= *)
(** ** Helpers of [main_GUI.py] and [detect_language_simple] *)

Local Open Scope Z_scope.

(** A float that may be negative: the signed integer [k] stands for
    [k * 2^-1074].  Rounding to nearest even is symmetric about zero. *)
Definition fround (num den : Z) : Z :=
  if num <? 0 then - rne (- num) den else rne num den.

Definition fsub (a b : Z) : Z := fround (a - b) 1.
Definition fadd_signed (a b : Z) : Z := fround (a + b) 1.
Definition fmul_signed (a b : Z) : Z := fround (a * b) F_UNIT.

(** [a / b] for a positive divisor [b]. *)
Definition fdiv_signed (a b : Z) : Z := fround (a * F_UNIT) b.

(** [int(x)]: truncation towards zero. *)
Definition int_of_float (x : Z) : Z := Z.quot x F_UNIT.

(** Any float that can be passed to a function: a finite one is given by
    its sign and its magnitude (a non-negative number of units of
    [2^-1074]; negative zero is [Finite true 0]). *)
Inductive pyfloat : Type :=
| Finite (negative : bool) (magnitude : Z)
| Infinite (negative : bool)
| NaN.

(** [max(0.0, min(1.0, match_val))], where [min] keeps [1.0] unless the
    second argument is smaller and [max] keeps [0.0] unless the second
    argument is greater; a comparison with NaN is false. *)
Definition clamp_unit (match_val : pyfloat) : Z :=
  match match_val with
  | Finite false k =>
      if k <? F_ONE then (if 0 <? k then k else F_ZERO) else F_ONE
  | Finite true _ => F_ZERO
  | Infinite true => F_ZERO
  | Infinite false => F_ONE
  | NaN => F_ONE
  end.

Local Close Scope Z_scope.

Definition ascii_upper_c (c : char) : char :=
  if (N.leb 97 c && N.leb c 122)%N then (c - 32)%N else c.

(** [format(n, "02X")]: upper-case hexadecimal, zero-padded to two
    characters, the sign included in the width. *)
Definition format_02X (n : Z) : str :=
  let digits :=
    map ascii_upper_c
      (lit (HexadecimalString.NilZero.string_of_uint
              (N.to_hex_uint (Z.to_N (Z.abs n))))) in
  let body := if (n <? 0)%Z then 45%N :: digits else digits in
  repeat c0 (2 - length body) ++ body.

Definition get_confidence_color (match_val : pyfloat) : str :=
  let p := clamp_unit match_val in
  let '(r, g, b) :=
    if (p <=? F_HALF)%Z then
      let t := fdiv_signed p F_HALF in
      (255%Z, int_of_float (fmul_signed t (f64_of_int 165)), 0%Z)
    else
      let t := fdiv_signed (fsub p F_HALF) F_HALF in
      (int_of_float (fmul_signed (f64_of_int 255) (fsub F_ONE t)),
       int_of_float (fadd_signed (f64_of_int 165)
                       (fmul_signed t (f64_of_int (255 - 165)))),
       0%Z) in
  lit "#" ++ format_02X r ++ format_02X g ++ format_02X b.

Section Censor.
Variable U : unicode_db.

(** [normalize_censor_mode]: the text of the combo box, or a key, mapped to
    one of the keys [blur], [box] and [pixelate]. *)
Definition normalize_censor_mode (mode : option str) : str :=
  let m := lower U (strip (get_or mode [])) in
  if existsb (str_eqb m) [lit "blur"] then lit "blur"
  else if existsb (str_eqb m) [lit "cover"; lit "box"; lit "black"]
  then lit "box"
  else if existsb (str_eqb m) [lit "pixelate"; lit "pixel"; lit "mosaic"]
  then lit "pixelate"
  else lit "blur".
End Censor.

(** [detect_language_simple] of [main_CLI.py]: the three ranges are
    Hiragana, Katakana and the CJK unified ideographs. *)
Fixpoint detect_language_simple (text : str) : str :=
  match text with
  | [] => lit "EN"
  | ch :: rest =>
      let code := ch in
      if ((N.leb 12352 code && N.leb code 12447)
          || (N.leb 12448 code && N.leb code 12543)
          || (N.leb 19968 code && N.leb code 40959))%N
      then lit "JP"
      else detect_language_simple rest
  end.

(* ================================================================= *)
(** ** Notions used to state the properties *)

(** A stripped span that the date branch accepts: six digit characters
    whose month part is in 1..12 and whose day part is in 1..31. *)
Definition plausible_date (segment : str) : bool :=
  isdigit segment && Nat.eqb (length segment) 6 &&
  match digits_value 0 (slice 2 4 segment), digits_value 0 (slice 4 6 segment) with
  | Some mm, Some dd => plausible_md mm dd
  | _, _ => false
  end.

(** The stripped bracketed spans of a folder name that are plausible dates,
    in order of appearance. *)
Definition dated_spans (folder_name : str) : list str :=
  filter plausible_date (map strip (findall_span LBRACKET RBRACKET folder_name)).

(** The month and day components of a six-digit span. *)
Definition number_at (i j : nat) (segment : str) : Z :=
  match digits_value 0 (slice i j segment) with
  | Some v => v
  | None => 0%Z
  end.

Definition month_of (segment : str) : Z := number_at 2 4 segment.
Definition day_of (segment : str) : Z := number_at 4 6 segment.

(** A folder name made of ASCII characters only. *)
Definition is_ascii (s : str) : Prop := Forall (fun c => (c < 128)%N) s.

(** The candidates of a reply, in the order the catalog returned them. *)
Definition results_of (response : option (list vn)) : list vn :=
  match response with Some results => results | None => [] end.

(** The scored candidates that have confidence [v]. *)
Definition with_score (v : f64) (l : list (vn * f64)) : list (vn * f64) :=
  filter (fun x => (snd x =? v)%Z) l.

(** [l] starts with [p]. *)
Definition is_prefix {A} (p l : list A) : Prop := exists rest, l = p ++ rest.

(** Descending order of confidence. *)
Definition descending (l : list (vn * f64)) : Prop :=
  StronglySorted (fun x y => (snd y <= snd x)%Z) l.

(** The placeholder names a template may use. *)
Definition known_placeholders : list str :=
  [lit "producer"; lit "release_date"; lit "length"; lit "title"; lit "flags";
   lit "tags"].

(** A replacement-field name that is a plain keyword: not empty, not a
    number, and without braces or the characters that start a conversion,
    a format specification, an attribute or an index. *)
Definition plain_name (tok : str) : bool :=
  nonempty tok && negb (is_index tok)
  && forallb (fun c => negb (char_eqb c LBRACE || char_eqb c RBRACE
                             || is_special c)) tok.

(** The replacement field written [field] between braces, when the text is
    one well-formed field. *)
Definition parsed_field (field : str) : option replacement_field :=
  match scan_field false (field ++ [RBRACE]) with
  | Ok (f, []) => Some f
  | _ => None
  end.

(** The key of a replacement field: the first part of its name, when the
    field is well formed and that part is a keyword name (not empty and
    not read as a number). *)
Definition field_key (field : str) : option str :=
  match parsed_field field with
  | Some f =>
      let tok := fst (name_first (fname f)) in
      if is_index tok then None else Some tok
  | None => None
  end.

(** A producer name that comes back from the bracket parser as it is: it
    has no square bracket and no newline, no white space at either end, at
    least three characters, and is not a run of six or more digits. *)
Definition recoverable_producer (producer : str) : bool :=
  negb (has_char LBRACKET producer) && negb (has_char RBRACKET producer)
  && negb (has_char NEWLINE producer)
  && str_eqb (strip producer) producer
  && Nat.leb 3 (length producer)
  && negb (isdigit producer && Nat.leb 6 (length producer)).

(** A text without an opening square bracket. *)
Definition bracket_free (s : str) : bool := negb (has_char LBRACKET s).

(** The block [m] lies inside the window [alo, ahi) x [blo, bhi). *)
Definition block_in (alo ahi blo bhi : nat) (m : match3) : Prop :=
  alo <= fst (fst m) /\ fst (fst m) + snd m <= ahi
  /\ blo <= snd (fst m) /\ snd (fst m) + snd m <= bhi.

(** The entries of the row that precedes row [i]: each run ends inside
    the window and is no longer than the part of the window before it. *)
Definition row_in (alo blo bhi i : nat) (row : list (nat * nat)) : Prop :=
  forall j k, In (j, k) row -> j < bhi /\ k + alo <= i /\ k + blo <= j + 1.

(** Total width, in [a] and in [b], of the windows still to be searched. *)
Definition width_a (queue : list range4) : nat :=
  fold_right (fun r acc => (snd (fst (fst r)) - fst (fst (fst r))) + acc) 0 queue.

Definition width_b (queue : list range4) : nat :=
  fold_right (fun r acc => (snd r - snd (fst r)) + acc) 0 queue.

Definition window_ok (r : range4) : Prop :=
  fst (fst (fst r)) <= snd (fst (fst r)) /\ snd (fst r) <= snd r.

(** [thinned s s']: [s'] is [s] with some characters other than newline
    left out. *)
Inductive thinned : str -> str -> Prop :=
| thinned_nil : thinned [] []
| thinned_keep c s s' : thinned s s' -> thinned (c :: s) (c :: s')
| thinned_drop c s s' : c <> NEWLINE -> thinned s s' -> thinned (c :: s) s'.

(** Work left in the queue of [get_matching_blocks]: every window costs
    one step, and each position of [a] in it at most two more. *)
Definition work (queue : list range4) : nat :=
  fold_right
    (fun r acc => 2 * (snd (fst (fst r)) - fst (fst (fst r))) + 1 + acc)
    0 queue.

(** A stripped span that the producer branch takes while no producer has
    been found: not a six-digit span, at least three characters, and not a
    longer run of digits. *)
Definition producer_span (segment : str) : bool :=
  negb (isdigit segment && Nat.eqb (length segment) 6)
  && Nat.leb 3 (length segment)
  && negb (isdigit segment && Nat.ltb 6 (length segment)).

(** A stripped span of six digit characters whose month or day part holds
    a digit that [int] does not read (a superscript, a circled digit). *)
Definition undecodable_span (segment : str) : bool :=
  isdigit segment && Nat.eqb (length segment) 6
  && negb (forallb isdecimal_c (slice 2 6 segment)).

(** A number in [0..9999] printed with four digits, and a date written
    [YYYY-MM-DD] with every field padded with zeros. *)
Definition four_digits (n : Z) : str :=
  [Z.to_N (48 + n / 1000); Z.to_N (48 + (n / 100) mod 10);
   Z.to_N (48 + (n / 10) mod 10); Z.to_N (48 + n mod 10)].

Definition iso_date (y m d : Z) : str :=
  four_digits y ++ lit "-" ++ two_digits m ++ lit "-" ++ two_digits d.

(** What the pattern of [%Y-%m-%d] finds after the year: every way to
    match [-%m-%d], with the two groups and the text left. *)
Definition month_day_matches (s : str) : list (str * str * str) :=
  flat_map (fun h1 =>
    flat_map (fun m =>
      flat_map (fun h2 =>
        map (fun d => (fst m, fst d, snd d)) (re_d (snd h2)))
        (m_char HYPHEN (snd m)))
      (re_m (snd h1)))
    (m_char HYPHEN s).

(** The month and day read from the first match when it leaves no text. *)
Definition month_day (s : str) : option (Z * Z) :=
  match hd_error (month_day_matches s) with
  | Some (m, d, []) =>
      match py_int m, py_int d with
      | Ok month, Ok day => Some (month, day)
      | _, _ => None
      end
  | _ => None
  end.

Definition month_day_expected (m d : Z) : option (Z * Z) :=
  if ((1 <=? m) && (m <=? 12) && (1 <=? d) && (d <=? 31))%Z
  then Some (m, d) else None.

Definition opt_pair_eqb (x y : option (Z * Z)) : bool :=
  match x, y with
  | Some (a, b), Some (c, d) => ((a =? c) && (b =? d))%Z
  | None, None => true
  | _, _ => false
  end.

(** The run length that the row [j2len] of the previous position gives to
    a match at [j], and the update of the best match there. *)
Definition run_at (j2len : list (nat * nat)) (j : nat) : nat :=
  (match j with O => 0 | S j' => j2len_get j2len j' end) + 1.

Definition better (i : nat) (j2len : list (nat * nat)) (best : match3) (j : nat)
  : match3 :=
  if Nat.ltb (snd best) (run_at j2len j)
  then (i + 1 - run_at j2len j, j + 1 - run_at j2len j, run_at j2len j)
  else best.

(** Whether [x] has an entry in [b2j]: it occurs in [b] and is not purged
    as popular. *)
Definition listed (b : str) (x : char) : bool :=
  match b2j b x with [] => false | _ :: _ => true end.

(** The number of consecutive listed characters of [s] that end at
    position [i]. *)
Fixpoint listed_run (s : str) (i : nat) : nat :=
  match i with
  | O => if listed s (nth 0 s 0%N) then 1 else 0
  | S i' => if listed s (nth i s 0%N) then listed_run s i' + 1 else 0
  end.

(** The state of [find_longest_match] on two copies of one string after
    the rows before [i]: the best match lies on the diagonal and is at
    least as long as every run of listed characters seen so far. *)
Definition diagonal (s : str) (i : nat) (st : list (nat * nat) * match3) : Prop :=
  fst (fst (snd st)) = snd (fst (snd st))
  /\ (forall i', i' < i -> listed_run s i' <= snd (snd st))
  /\ (forall j k, In (j, k) (fst st) ->
        k <= listed_run s j /\ k <= listed_run s (i - 1))
  /\ (i = 0 -> fst st = [])
  /\ (0 < i -> j2len_get (fst st) (i - 1) = listed_run s (i - 1)).

(** What the template of the editor puts in the place of an item. *)
Definition filled_part (producer release_date length title flags tags t : str)
  : str :=
  if str_eqb t (lit "producer") then lit "[" ++ producer ++ lit "]"
  else if str_eqb t (lit "release_date") then lit "[" ++ release_date ++ lit "]"
  else if str_eqb t (lit "length") then length
  else if str_eqb t (lit "title") then title
  else if str_eqb t (lit "flags") then flags
  else lit "(" ++ tags ++ lit ")".

(** A text that a span can hold: it has neither the closing character nor
    a newline. *)
Definition fits_span (close : char) (s : str) : bool :=
  negb (has_char close s) && negb (has_char NEWLINE s).

(** A text without an opening bracket, parenthesis or brace. *)
Definition opener_free (s : str) : bool :=
  negb (has_char LBRACKET s) && negb (has_char LPAREN s)
  && negb (has_char LBRACE s).

(** The parts of a name built by the default template from which the title
    can be read back: the producer fits in its brackets; the title has no
    opening bracket, parenthesis or brace and no white space at its ends;
    the flags fit in their braces and hold no opening bracket or
    parenthesis; the tags fit in their parentheses and hold no opening
    bracket. *)
Definition title_recoverable (producer title flags tags : str) : bool :=
  fits_span RBRACKET producer
  && opener_free title && str_eqb (strip title) title
  && bracket_free flags && negb (has_char LPAREN flags)
  && fits_span RBRACE flags
  && bracket_free tags && fits_span RPAREN tags.

(** Two upper-case hexadecimal digits. *)
Definition hex_digit_upper (n : Z) : char :=
  Z.to_N (if (n <? 10)%Z then 48 + n else 55 + n).

Definition two_hex (n : Z) : str :=
  [hex_digit_upper (n / 16); hex_digit_upper (n mod 16)].

(** The code points from U+3040 to U+30FF and from U+4E00 to U+9FFF. *)
Definition is_japanese_c (code : char) : bool :=
  ((N.leb 12352 code && N.leb code 12543)
   || (N.leb 19968 code && N.leb code 40959))%N.

(** The parts of a name built from all six items of the editor from which
    the parsers read the name back: the producer is one the bracket parser
    accepts and has no opening parenthesis; the title and the flags have no
    opening bracket, parenthesis or brace; the tags have no opening square
    bracket, no parenthesis and no newline. *)
Definition editor_layout_safe (producer title flags tags : str) : bool :=
  recoverable_producer producer && negb (has_char LPAREN producer)
  && opener_free title && opener_free flags
  && bracket_free tags && negb (has_char LPAREN tags)
  && fits_span RPAREN tags.

(* ================================================================= *)
(** * Properties *)

Example format_release_date_examples :
  map format_release_date
    [lit "2004-01-29"; lit "0200-01-05"; lit "2004-1-5"; lit "2004-01- 5";
     lit "2004-02-30"; lit "2004-02-29"; lit "1900-02-29"; lit "0000-01-01";
     lit "2004-13-01"; lit "2004-1-35"; lit "2004-01"; lit "TBA";
     lit "9999-12-31"; lit "2004-01-29 "]
  = [lit "040129"; lit "000105"; lit "040105"; lit "040105";
     lit "Unknown"; lit "040229"; lit "Unknown"; lit "Unknown";
     lit "Unknown"; lit "Unknown"; lit "Unknown"; lit "Unknown";
     lit "991231"; lit "Unknown"].
Proof. reflexivity. Qed.

(* ----------------------------------------------------------------- *)
(** ** Strings and the bracket scanner *)

Lemma char_eqb_eq (a b : char) : char_eqb a b = true <-> a = b.
Proof. apply N.eqb_eq. Qed.

Lemma char_eqb_refl (a : char) : char_eqb a a = true.
Proof. apply N.eqb_refl. Qed.

Lemma char_eqb_neq (a b : char) : char_eqb a b = false <-> a <> b.
Proof. apply N.eqb_neq. Qed.

Lemma lazy_until_split close s body rest :
  lazy_until close s = Some (body, rest) ->
  s = body ++ close :: rest /\ ~ In close body /\ ~ In NEWLINE body.
Proof.
  revert body rest. induction s as [|c t IH]; intros body rest H; simpl in H.
  - discriminate.
  - destruct (char_eqb c close) eqn:Ec.
    + apply char_eqb_eq in Ec. inversion H; subst. simpl. auto.
    + destruct (char_eqb c NEWLINE) eqn:En; [discriminate|].
      destruct (lazy_until close t) as [[b r]|] eqn:El; [|discriminate].
      inversion H; subst. destruct (IH b rest eq_refl) as (-> & Hc & Hn).
      apply char_eqb_neq in Ec, En.
      repeat split; simpl; intuition congruence.
Qed.

Lemma lazy_until_app close p rest :
  ~ In close p -> ~ In NEWLINE p ->
  lazy_until close (p ++ close :: rest) = Some (p, rest).
Proof.
  induction p as [|c p IH]; intros Hc Hn; simpl.
  - now rewrite char_eqb_refl.
  - simpl in Hc, Hn.
    destruct (char_eqb c close) eqn:Ec; [apply char_eqb_eq in Ec; tauto|].
    destruct (char_eqb c NEWLINE) eqn:En; [apply char_eqb_eq in En; tauto|].
    rewrite IH; tauto.
Qed.

Lemma lazy_until_shorter close s body rest :
  lazy_until close s = Some (body, rest) -> length rest < length s.
Proof.
  intros H. apply lazy_until_split in H as (-> & _).
  rewrite length_app. simpl. lia.
Qed.

(** The scan does not depend on the fuel once there is enough of it. *)
Lemma findall_from_fuel open close fuel1 : forall fuel2 s,
  length s <= fuel1 -> length s <= fuel2 ->
  findall_from fuel1 open close s = findall_from fuel2 open close s.
Proof.
  induction fuel1 as [|f1 IH]; intros fuel2 s H1 H2.
  - destruct s; [|simpl in H1; lia]. now destruct fuel2.
  - destruct s as [|c t]; [now destruct fuel2|].
    destruct fuel2 as [|f2]; [simpl in H2; lia|].
    simpl in *. destruct (char_eqb c open).
    + destruct (lazy_until close t) as [[body rest]|] eqn:El.
      * apply lazy_until_shorter in El. f_equal. apply IH; lia.
      * apply IH; lia.
    + apply IH; lia.
Qed.

Lemma findall_span_nil open close : findall_span open close [] = [].
Proof. reflexivity. Qed.

Lemma findall_span_cons open close c t :
  findall_span open close (c :: t) =
  if char_eqb c open then
    match lazy_until close t with
    | Some (body, rest) => body :: findall_span open close rest
    | None => findall_span open close t
    end
  else findall_span open close t.
Proof.
  unfold findall_span. simpl.
  destruct (char_eqb c open); [|reflexivity].
  destruct (lazy_until close t) as [[body rest]|] eqn:El; [|reflexivity].
  apply lazy_until_shorter in El. f_equal. apply findall_from_fuel; lia.
Qed.

(** A span with no closing character and no newline inside is found as it
    stands, and the scan resumes after it. *)
Lemma findall_span_first open close p rest :
  ~ In close p -> ~ In NEWLINE p ->
  findall_span open close (open :: p ++ close :: rest)
  = p :: findall_span open close rest.
Proof.
  intros Hc Hn. rewrite findall_span_cons, char_eqb_refl.
  now rewrite lazy_until_app.
Qed.

Lemma findall_span_no_open open close s :
  ~ In open s -> findall_span open close s = [].
Proof.
  induction s as [|c t IH]; intros H; [reflexivity|].
  rewrite findall_span_cons. simpl in H.
  destruct (char_eqb c open) eqn:E; [apply char_eqb_eq in E; tauto|].
  apply IH. tauto.
Qed.

(* ----------------------------------------------------------------- *)
(** ** Digits, white space and [int] *)

Lemma isspace_not_digit c : isspace_c c = true -> isdigit_c c = false.
Proof.
  unfold isspace_c. rewrite existsb_exists. intros (x & Hin & Hx).
  apply N.eqb_eq in Hx. subst x.
  simpl in Hin.
  repeat (destruct Hin as [<- | Hin]; [vm_compute; reflexivity|]).
  contradiction.
Qed.

Lemma isdigit_not_space c : isdigit_c c = true -> isspace_c c = false.
Proof.
  intros H. destruct (isspace_c c) eqn:E; [|reflexivity].
  apply isspace_not_digit in E. congruence.
Qed.

Lemma isdecimal_isdigit c : isdecimal_c c = true -> isdigit_c c = true.
Proof. unfold isdigit_c. now intros ->. Qed.

Lemma lstrip_in c s : In c (lstrip s) -> In c s.
Proof.
  induction s as [|x t IH]; simpl; [tauto|].
  destruct (isspace_c x); simpl; tauto.
Qed.

Lemma strip_in c s : In c (strip s) -> In c s.
Proof.
  unfold strip, rstrip. intros H.
  apply in_rev, lstrip_in in H. apply in_rev in H. now apply lstrip_in.
Qed.

Lemma lstrip_id_head c t : isspace_c c = false -> lstrip (c :: t) = c :: t.
Proof. simpl. now intros ->. Qed.

Lemma strip_no_space s :
  (forall c, In c s -> isspace_c c = false) -> strip s = s.
Proof.
  intros H. unfold strip, rstrip.
  assert (L : forall u, (forall c, In c u -> isspace_c c = false) -> lstrip u = u).
  { intros [|c t] Hu; [reflexivity|]. apply lstrip_id_head, Hu. now left. }
  rewrite (L s H), L, rev_involutive; [reflexivity|].
  intros c Hc. apply H. now apply in_rev.
Qed.

Lemma strip_isdigit s : isdigit s = true -> strip s = s.
Proof.
  unfold isdigit. rewrite andb_true_iff, forallb_forall. intros [_ H].
  apply strip_no_space. intros c Hc. now apply isdigit_not_space, H.
Qed.

Lemma py_int_isdigit s :
  isdigit s = true ->
  py_int s = match digits_value 0 s with
             | Some v => Ok v
             | None => Raise ValueError
             end.
Proof.
  intros H. unfold py_int. rewrite (strip_isdigit _ H).
  destruct s; [discriminate|reflexivity].
Qed.

Lemma py_int_raise s e : py_int s = Raise e -> e = ValueError.
Proof.
  unfold py_int. destruct (strip s) as [|c t]; [congruence|].
  destruct (digits_value 0 (c :: t)); congruence.
Qed.

Lemma date_branch_raise st s e : date_branch st s = Raise e -> e = ValueError.
Proof.
  unfold date_branch, bind.
  destruct (py_int (slice 2 4 s)) eqn:E1; [|intros [= <-]; eauto using py_int_raise].
  destruct (py_int (slice 4 6 s)) eqn:E2; [|intros [= <-]; eauto using py_int_raise].
  destruct (plausible_md a a0); discriminate.
Qed.

Lemma length_6 (s : str) :
  length s = 6 -> exists a b c d e f, s = [a; b; c; d; e; f].
Proof.
  destruct s as [|a [|b [|c [|d [|e [|f [|g t]]]]]]]; try discriminate.
  intros _. now exists a, b, c, d, e, f.
Qed.

(** The date branch on a stripped span of six digit characters. *)
Lemma date_branch_spec st s :
  isdigit s = true -> length s = 6 ->
  match date_branch st s with
  | Ok st' => st' = if plausible_date s then (s, snd st) else st
  | Raise _ => plausible_date s = false
  end.
Proof.
  intros Hd Hl. destruct (length_6 _ Hl) as (a & b & c & d & e & f & ->).
  unfold plausible_date, date_branch. rewrite Hd.
  change (slice 2 4 [a; b; c; d; e; f]) with [c; d].
  change (slice 4 6 [a; b; c; d; e; f]) with [e; f].
  change (Nat.eqb (length [a; b; c; d; e; f]) 6) with true.
  unfold isdigit in Hd. cbn [nonempty forallb andb] in Hd.
  repeat (apply andb_true_iff in Hd as [? Hd]).
  assert (Hcd : isdigit [c; d] = true)
    by (unfold isdigit; cbn [nonempty forallb andb]; now rewrite H1, H2).
  assert (Hef : isdigit [e; f] = true)
    by (unfold isdigit; cbn [nonempty forallb andb]; now rewrite H3, H4).
  rewrite (py_int_isdigit _ Hcd), (py_int_isdigit _ Hef).
  destruct (digits_value 0 [c; d]) as [mm|]; cbn [bind andb]; [|reflexivity].
  destruct (digits_value 0 [e; f]) as [dd|]; cbn [bind andb]; [|reflexivity].
  destruct (plausible_md mm dd); reflexivity.
Qed.

(* ----------------------------------------------------------------- *)
(** ** [parse_bracket_info] *)

Lemma producer_branch_fst st s : fst (producer_branch st s) = fst st.
Proof.
  unfold producer_branch.
  destruct (Nat.leb 3 (length s)); [|reflexivity].
  destruct (negb _); [|reflexivity].
  destruct (negb _); reflexivity.
Qed.

(** One iteration replaces the expected date exactly when the stripped span
    is a plausible date. *)
Lemma bracket_step_GUI_date st segment :
  fst (bracket_step_GUI st segment) =
  if plausible_date (strip segment) then strip segment else fst st.
Proof.
  unfold bracket_step_GUI.
  destruct (isdigit (strip segment) && Nat.eqb (length (strip segment)) 6) eqn:E.
  - apply andb_true_iff in E as [Hd Hl]. apply Nat.eqb_eq in Hl.
    pose proof (date_branch_spec st _ Hd Hl) as H.
    destruct (date_branch st (strip segment)).
    + subst a. now destruct (plausible_date (strip segment)).
    + now rewrite H.
  - unfold plausible_date. rewrite E. apply producer_branch_fst.
Qed.

Lemma bracket_step_CLI_GUI st segment :
  bracket_step_CLI st segment = Ok (bracket_step_GUI st segment)
  \/ bracket_step_CLI st segment = Raise ValueError.
Proof.
  unfold bracket_step_CLI, bracket_step_GUI.
  destruct (isdigit (strip segment) && Nat.eqb (length (strip segment)) 6).
  - destruct (date_branch st (strip segment)) eqn:E; [now left|].
    right. f_equal. eapply date_branch_raise, E.
  - now left.
Qed.

Lemma foldM_CLI_GUI segments : forall st,
  foldM bracket_step_CLI segments st = Ok (fold_left bracket_step_GUI segments st)
  \/ foldM bracket_step_CLI segments st = Raise ValueError.
Proof.
  induction segments as [|x xs IH]; intros st; simpl; [now left|].
  destruct (bracket_step_CLI_GUI st x) as [-> | ->]; simpl; [apply IH|now right].
Qed.

Lemma last_cons_default {A} (x : A) l d d' : last (x :: l) d = last (x :: l) d'.
Proof.
  revert x. induction l as [|y l IH]; intros x; [reflexivity|].
  change (last (y :: l) d = last (y :: l) d'). apply IH.
Qed.

Lemma fold_GUI_date segments : forall st,
  fst (fold_left bracket_step_GUI segments st)
  = last (filter plausible_date (map strip segments)) (fst st).
Proof.
  induction segments as [|x xs IH]; intros st; simpl; [reflexivity|].
  rewrite IH, bracket_step_GUI_date.
  destruct (plausible_date (strip x)); [|reflexivity].
  destruct (filter plausible_date (map strip xs)) as [|y l]; [reflexivity|].
  change (last (y :: l) (strip x) = last (y :: l) (fst st)).
  apply last_cons_default.
Qed.

Lemma isdigit_ascii_decimal c :
  (c < 128)%N -> isdigit_c c = true -> isdecimal_c c = true.
Proof.
  intros Hc. unfold isdigit_c. destruct (isdecimal_c c); [reflexivity|].
  cbn [orb]. rewrite existsb_exists. intros ((lo & hi) & Hin & Hr).
  apply andb_true_iff in Hr as [Hlo _]. apply N.leb_le in Hlo.
  simpl in Hin, Hlo.
  repeat (destruct Hin as [[= <- <-] | Hin]; [lia|]).
  contradiction.
Qed.

Lemma digits_value_decimal s : forall acc,
  forallb isdecimal_c s = true -> exists v, digits_value acc s = Some v.
Proof.
  induction s as [|c t IH]; intros acc H; simpl in *; [eauto|].
  apply andb_true_iff in H as [Hc Ht]. unfold isdecimal_c in Hc.
  destruct (to_decimal c); [now apply IH|discriminate].
Qed.

Lemma forallb_isdecimal_isdigit s :
  s <> [] -> forallb isdecimal_c s = true -> isdigit s = true.
Proof.
  intros Hs H. unfold isdigit. apply andb_true_iff.
  split; [now destruct s|].
  rewrite forallb_forall in *. intros x Hx. now apply isdecimal_isdigit, H.
Qed.

(** On six decimal digits the date branch never raises. *)
Lemma date_branch_decimal st s :
  length s = 6 -> forallb isdecimal_c s = true ->
  date_branch st s = Ok (if plausible_date s then (s, snd st) else st).
Proof.
  intros Hl Hd.
  assert (Hdig : isdigit s = true).
  { apply forallb_isdecimal_isdigit; [|assumption]. now destruct s. }
  pose proof (date_branch_spec st _ Hdig Hl) as H.
  destruct (date_branch st s) as [st'|err] eqn:E; [now subst|].
  exfalso. clear H. destruct (length_6 _ Hl) as (a & b & c & d & e & f & ->).
  unfold date_branch in E.
  change (slice 2 4 [a; b; c; d; e; f]) with [c; d] in E.
  change (slice 4 6 [a; b; c; d; e; f]) with [e; f] in E.
  cbn [forallb] in Hd. repeat (apply andb_true_iff in Hd as [? Hd]).
  assert (Hcd : forallb isdecimal_c [c; d] = true)
    by (cbn [forallb]; now rewrite H1, H2).
  assert (Hef : forallb isdecimal_c [e; f] = true)
    by (cbn [forallb]; now rewrite H3, H4).
  rewrite !py_int_isdigit in E
    by (apply forallb_isdecimal_isdigit; [discriminate|assumption]).
  destruct (digits_value_decimal _ 0%Z Hcd) as (mm & Hmm).
  destruct (digits_value_decimal _ 0%Z Hef) as (dd & Hdd).
  rewrite Hmm, Hdd in E. cbn [bind] in E.
  destruct (plausible_md mm dd); discriminate.
Qed.

Lemma findall_from_incl open close fuel : forall s body,
  In body (findall_from fuel open close s) -> incl body s.
Proof.
  induction fuel as [|fuel IH]; intros s body H; simpl in H; [contradiction|].
  destruct s as [|c t]; [contradiction|].
  destruct (char_eqb c open).
  - destruct (lazy_until close t) as [[b rest]|] eqn:El.
    + apply lazy_until_split in El as (-> & _).
      destruct H as [<- | H].
      * intros x Hx. right. apply in_or_app. now left.
      * intros x Hx. right. apply in_or_app. right. right.
        now apply (IH _ _ H).
    + intros x Hx. right. now apply (IH _ _ H).
  - intros x Hx. right. now apply (IH _ _ H).
Qed.

Lemma bracket_step_CLI_ascii st segment :
  is_ascii segment ->
  bracket_step_CLI st segment = Ok (bracket_step_GUI st segment).
Proof.
  intros Ha. unfold bracket_step_CLI, bracket_step_GUI.
  destruct (isdigit (strip segment) && Nat.eqb (length (strip segment)) 6) eqn:E;
    [|reflexivity].
  apply andb_true_iff in E as [Hd Hl]. apply Nat.eqb_eq in Hl.
  rewrite date_branch_decimal; [reflexivity|assumption|].
  unfold isdigit in Hd. apply andb_true_iff in Hd as [_ Hd].
  rewrite forallb_forall in *. intros c Hc.
  apply isdigit_ascii_decimal; [|now apply Hd].
  unfold is_ascii in Ha. rewrite Forall_forall in Ha. now apply Ha, strip_in.
Qed.

Lemma foldM_CLI_ascii segments : forall st,
  Forall is_ascii segments ->
  foldM bracket_step_CLI segments st = Ok (fold_left bracket_step_GUI segments st).
Proof.
  induction segments as [|x xs IH]; intros st H; simpl; [reflexivity|].
  inversion H; subst. rewrite bracket_step_CLI_ascii by assumption. simpl.
  now apply IH.
Qed.

(** On an ASCII folder name the CLI parser returns, with the result of the
    GUI parser. *)
Lemma parse_bracket_info_CLI_ascii folder_name :
  is_ascii folder_name ->
  parse_bracket_info_CLI folder_name = Ok (parse_bracket_info_GUI folder_name).
Proof.
  intros Ha. apply foldM_CLI_ascii. rewrite Forall_forall. intros body Hb.
  unfold is_ascii in *. rewrite Forall_forall in *. intros c Hc.
  apply Ha. eapply findall_from_incl; eassumption.
Qed.

(** The CLI parser can raise: a superscript two is a digit for
    [str.isdigit] but not for [int]. *)
Example parse_bracket_info_CLI_raises :
  parse_bracket_info_CLI (lit "[12" ++ [178%N] ++ lit "456]") = Raise ValueError
  /\ parse_bracket_info_GUI (lit "[12" ++ [178%N] ++ lit "456]") = ([], []).
Proof. split; reflexivity. Qed.

Lemma digits_value_none_iff s : forall acc,
  digits_value acc s = None <-> forallb isdecimal_c s = false.
Proof.
  induction s as [|c t IH]; intros acc; simpl; [easy|].
  unfold isdecimal_c at 1. destruct (to_decimal c); [apply IH|easy].
Qed.

(** On a stripped span of six digit characters the date branch raises
    exactly when one of the last four is not a decimal digit. *)
Lemma date_branch_raises_iff st s :
  isdigit s = true -> length s = 6 ->
  date_branch st s =
  if forallb isdecimal_c (slice 2 6 s)
  then Ok (if plausible_date s then (s, snd st) else st)
  else Raise ValueError.
Proof.
  intros Hd Hl. pose proof (date_branch_spec st s Hd Hl) as Hspec.
  destruct (length_6 _ Hl) as (a & b & c & d & e & f & ->).
  change (slice 2 6 [a; b; c; d; e; f]) with [c; d; e; f].
  unfold date_branch in *.
  change (slice 2 4 [a; b; c; d; e; f]) with [c; d] in *.
  change (slice 4 6 [a; b; c; d; e; f]) with [e; f] in *.
  unfold isdigit in Hd. cbn [nonempty forallb andb] in Hd.
  repeat (apply andb_true_iff in Hd as [? Hd]).
  assert (Hcd : isdigit [c; d] = true)
    by (unfold isdigit; cbn [nonempty forallb andb]; now rewrite H1, H2).
  assert (Hef : isdigit [e; f] = true)
    by (unfold isdigit; cbn [nonempty forallb andb]; now rewrite H3, H4).
  rewrite (py_int_isdigit _ Hcd), (py_int_isdigit _ Hef) in *.
  change (forallb isdecimal_c [c; d; e; f])
    with (forallb isdecimal_c ([c; d] ++ [e; f])).
  rewrite forallb_app.
  destruct (digits_value 0 [c; d]) as [mm|] eqn:E1.
  - assert (F1 : forallb isdecimal_c [c; d] = true).
    { destruct (forallb isdecimal_c [c; d]) eqn:F; [reflexivity|].
      apply digits_value_none_iff with (acc := 0%Z) in F. congruence. }
    rewrite F1. cbn [bind andb] in *.
    destruct (digits_value 0 [e; f]) as [dd|] eqn:E2.
    + assert (F2 : forallb isdecimal_c [e; f] = true).
      { destruct (forallb isdecimal_c [e; f]) eqn:F; [reflexivity|].
        apply digits_value_none_iff with (acc := 0%Z) in F. congruence. }
      rewrite F2. cbn [bind] in *.
      destruct (plausible_md mm dd); cbv beta iota in Hspec; now rewrite <- Hspec.
    + apply digits_value_none_iff in E2. now rewrite E2.
  - apply digits_value_none_iff in E1. now rewrite E1.
Qed.

Lemma bracket_step_CLI_raises_iff st segment :
  bracket_step_CLI st segment =
  if undecodable_span (strip segment) then Raise ValueError
  else Ok (bracket_step_GUI st segment).
Proof.
  unfold bracket_step_CLI, bracket_step_GUI, undecodable_span.
  destruct (isdigit (strip segment) && Nat.eqb (length (strip segment)) 6) eqn:E;
    [|reflexivity].
  apply andb_true_iff in E as [Hd Hl]. apply Nat.eqb_eq in Hl.
  rewrite (date_branch_raises_iff st _ Hd Hl).
  now destruct (forallb isdecimal_c (slice 2 6 (strip segment))).
Qed.

Lemma foldM_CLI_raises_iff segments : forall st,
  foldM bracket_step_CLI segments st =
  if existsb undecodable_span (map strip segments) then Raise ValueError
  else Ok (fold_left bracket_step_GUI segments st).
Proof.
  induction segments as [|x xs IH]; intros st; simpl; [reflexivity|].
  rewrite bracket_step_CLI_raises_iff.
  destruct (undecodable_span (strip x)); [reflexivity|]. simpl. apply IH.
Qed.

(** C1 (as stated) fails: with two valid dates the parser returns the
    second one, not the first. *)
Lemma first_date_is_overwritten :
  dated_spans (lit "[231215][240101]") = [lit "231215"; lit "240101"]
  /\ parse_bracket_info_CLI (lit "[231215][240101]") = Ok (lit "240101", [])
  /\ parse_bracket_info_GUI (lit "[231215][240101]") = (lit "240101", [])
  /\ fst (parse_bracket_info_GUI (lit "[231215][240101]"))
     <> hd [] (dated_spans (lit "[231215][240101]")).
Proof. repeat split; try reflexivity. vm_compute. discriminate. Qed.

(** C1 (amended): for every raw folder name, the expected date returned by
    [parse_bracket_info] of [main_GUI.py] is the LAST bracketed span that is
    a valid 6-digit date (the empty string when there is none): a later
    valid span overwrites an earlier one.  [parse_bracket_info] of
    [main_CLI.py] raises [ValueError] exactly when some bracketed span,
    trimmed, is six digit characters of which one of the last four is a
    digit for [str.isdigit] but not for [int]; for every other folder name
    it returns that same last valid date, with the producer the GUI
    function returns.  No ASCII folder name makes it raise. *)
Theorem parse_bracket_info_last_date (folder_name : str) :
  fst (parse_bracket_info_GUI folder_name) = last (dated_spans folder_name) []
  /\ parse_bracket_info_CLI folder_name
     = (if existsb undecodable_span
             (map strip (findall_span LBRACKET RBRACKET folder_name))
        then Raise ValueError
        else Ok (last (dated_spans folder_name) [],
                 snd (parse_bracket_info_GUI folder_name)))
  /\ (is_ascii folder_name ->
      existsb undecodable_span
        (map strip (findall_span LBRACKET RBRACKET folder_name)) = false).
Proof.
  assert (Hd : fst (parse_bracket_info_GUI folder_name)
               = last (dated_spans folder_name) []).
  { unfold parse_bracket_info_GUI, dated_spans. apply fold_GUI_date. }
  assert (Hc := foldM_CLI_raises_iff
                  (findall_span LBRACKET RBRACKET folder_name) ([], [])).
  fold (parse_bracket_info_CLI folder_name) in Hc.
  fold (parse_bracket_info_GUI folder_name) in Hc.
  split; [exact Hd|]. split.
  - rewrite Hc. destruct (existsb _ _); [reflexivity|].
    rewrite <- Hd. now destruct (parse_bracket_info_GUI folder_name).
  - intros Ha. apply parse_bracket_info_CLI_ascii in Ha.
    rewrite Ha in Hc. destruct (existsb _ _); [discriminate|reflexivity].
Qed.

(** The raising span of the example above comes before a valid date: the
    CLI returns nothing, the GUI skips the span and returns the date. *)
Example parse_bracket_info_CLI_raises_before_date :
  parse_bracket_info_CLI (lit "[12" ++ [178%N] ++ lit "456][231215]")
  = Raise ValueError
  /\ parse_bracket_info_GUI (lit "[12" ++ [178%N] ++ lit "456][231215]")
     = (lit "231215", []).
Proof. split; reflexivity. Qed.

Lemma decimal_not_special c :
  isdecimal_c c = true -> c <> RBRACKET /\ c <> NEWLINE.
Proof. intros H. split; intros ->; vm_compute in H; discriminate. Qed.

Lemma number_at_range_iff s :
  plausible_md (month_of s) (day_of s) = true
  <-> (1 <= month_of s <= 12 /\ 1 <= day_of s <= 31)%Z.
Proof.
  unfold plausible_md. rewrite !andb_true_iff, !Z.leb_le. tauto.
Qed.

Lemma plausible_date_decimal s :
  length s = 6 -> forallb isdecimal_c s = true ->
  plausible_date s = plausible_md (month_of s) (day_of s).
Proof.
  intros Hl Hd. unfold plausible_date, month_of, day_of, number_at.
  rewrite forallb_isdecimal_isdigit by (assumption || now destruct s).
  rewrite Hl. cbn [Nat.eqb andb].
  destruct (length_6 _ Hl) as (a & b & c & d & e & f & ->).
  change (slice 2 4 [a; b; c; d; e; f]) with [c; d].
  change (slice 4 6 [a; b; c; d; e; f]) with [e; f].
  cbn [forallb] in Hd. repeat (apply andb_true_iff in Hd as [? Hd]).
  destruct (digits_value_decimal [c; d] 0%Z) as (mm & ->);
    [cbn [forallb]; now rewrite H1, H2|].
  destruct (digits_value_decimal [e; f] 0%Z) as (dd & ->);
    [cbn [forallb]; now rewrite H3, H4|].
  reflexivity.
Qed.

(** C2 (as stated) fails on its own example: the span 250230 has month 02
    and day 30, both in range, and is accepted. *)
Lemma february_30_is_accepted :
  parse_bracket_info_CLI (lit "[250230]") = Ok (lit "250230", [])
  /\ parse_bracket_info_GUI (lit "[250230]") = (lit "250230", []).
Proof. split; reflexivity. Qed.

(** C2 (amended): a bracketed span of six decimal digits is accepted as the
    expected date if and only if its month component is in 1..12 and its
    day component is in 1..31, whatever the month; so 231215 and also
    250230 are accepted, while 251301 and 250132 are rejected. *)
Theorem date_span_accepted_iff (segment : str) (st : str * str) :
  length segment = 6 -> forallb isdecimal_c segment = true ->
  let in_range :=
    (1 <= month_of segment <= 12 /\ 1 <= day_of segment <= 31)%Z in
  let folder_name := LBRACKET :: segment ++ [RBRACKET] in
  bracket_step_CLI st segment = Ok (bracket_step_GUI st segment)
  /\ (in_range -> bracket_step_GUI st segment = (segment, snd st))
  /\ (~ in_range -> bracket_step_GUI st segment = st)
  /\ (fst (parse_bracket_info_GUI folder_name) = segment <-> in_range)
  /\ parse_bracket_info_CLI folder_name = Ok (parse_bracket_info_GUI folder_name)
  /\ map (fun s => fst (parse_bracket_info_GUI s))
       [lit "[231215]"; lit "[250230]"; lit "[251301]"; lit "[250132]"]
     = [lit "231215"; lit "250230"; []; []].
Proof.
  intros Hl Hd in_range folder_name.
  assert (Hdig : isdigit segment = true).
  { apply forallb_isdecimal_isdigit; [now destruct segment|assumption]. }
  assert (Hstrip : strip segment = segment) by now apply strip_isdigit.
  assert (Hstep : bracket_step_GUI st segment
                  = if plausible_md (month_of segment) (day_of segment)
                    then (segment, snd st) else st).
  { unfold bracket_step_GUI. rewrite Hstrip, Hdig, Hl. cbn [Nat.eqb andb].
    rewrite date_branch_decimal by assumption.
    now rewrite plausible_date_decimal. }
  assert (Hcli : forall st', bracket_step_CLI st' segment
                             = Ok (bracket_step_GUI st' segment)).
  { intros st'. unfold bracket_step_CLI, bracket_step_GUI.
    rewrite Hstrip, Hdig, Hl. cbn [Nat.eqb andb].
    now rewrite date_branch_decimal. }
  assert (Hfind : findall_span LBRACKET RBRACKET folder_name = [segment]).
  { unfold folder_name. rewrite findall_span_first; [reflexivity| |].
    - intros Hin. rewrite forallb_forall in Hd.
      now destruct (decimal_not_special _ (Hd _ Hin)).
    - intros Hin. rewrite forallb_forall in Hd.
      now destruct (decimal_not_special _ (Hd _ Hin)). }
  assert (Hfst : fst (parse_bracket_info_GUI folder_name)
                 = if plausible_md (month_of segment) (day_of segment)
                   then segment else []).
  { unfold parse_bracket_info_GUI. rewrite Hfind. cbn [fold_left].
    now rewrite bracket_step_GUI_date, Hstrip, plausible_date_decimal. }
  split; [apply Hcli|].
  split.
  { intros Hr. rewrite Hstep. apply number_at_range_iff in Hr. now rewrite Hr. }
  split.
  { intros Hr. rewrite Hstep.
    destruct (plausible_md _ _) eqn:E; [|reflexivity].
    now apply number_at_range_iff in E. }
  split.
  { rewrite Hfst. split.
    - intros H. apply number_at_range_iff.
      destruct (plausible_md _ _); [reflexivity|].
      subst segment. discriminate.
    - intros Hr. apply number_at_range_iff in Hr. now rewrite Hr. }
  split; [|reflexivity].
  unfold parse_bracket_info_CLI, parse_bracket_info_GUI. rewrite Hfind.
  cbn [foldM fold_left]. now rewrite Hcli.
Qed.

Lemma date_span_accepted_iff_witness :
  fst (parse_bracket_info_GUI (LBRACKET :: lit "231215" ++ [RBRACKET]))
  = lit "231215"
  <-> (1 <= month_of (lit "231215") <= 12 /\ 1 <= day_of (lit "231215") <= 31)%Z.
Proof.
  exact (proj1 (proj2 (proj2 (proj2
    (date_span_accepted_iff (lit "231215") ([], []) eq_refl eq_refl))))).
Defined.

(* ----------------------------------------------------------------- *)
(** ** Content flags *)

(** Without the glyph the detector does reach the file system, and a
    failing listing is reported and swallowed. *)
Example detect_ost_lists_folder :
  detect_ost ascii_db (fun _ => None) (lit "/vn/x") (lit "Some Title") None
  = (false, [ListDir (lit "/vn/x"); PrintError])
  /\ detect_ost ascii_db (fun _ => Some [lit "Bonus OST.zip"]) (lit "/vn/x")
       (lit "Some Title") None
     = (true, [ListDir (lit "/vn/x")]).
Proof. split; reflexivity. Qed.

(** C10: when the raw folder name contains the glyph U+266B,
    [detect_ost] returns [True] at once: for every folder path, every
    behaviour of the file system (also a listing that fails), every release
    record and every case mapping, the result is [True] and nothing was
    listed or printed. *)
Theorem detect_ost_glyph_first (U : unicode_db)
  (listdir : str -> option (list str)) (folder_path folder_name : str)
  (release_info : option release) :
  contains OST_GLYPH folder_name = true ->
  detect_ost U listdir folder_path folder_name release_info = (true, []).
Proof. intros H. unfold detect_ost. now rewrite H. Qed.

Lemma detect_ost_glyph_first_witness :
  contains OST_GLYPH (lit "Title {" ++ OST_GLYPH ++ lit "}") = true
  /\ detect_ost ascii_db (fun _ => None) (lit "/missing")
       (lit "Title {" ++ OST_GLYPH ++ lit "}") None = (true, []).
Proof.
  split; [reflexivity|].
  apply (detect_ost_glyph_first ascii_db (fun _ => None) (lit "/missing")
           (lit "Title {" ++ OST_GLYPH ++ lit "}") None).
  reflexivity.
Defined.

(* ----------------------------------------------------------------- *)
(** ** Ranking: sort and truncation *)

Lemma insert_desc_sorted {A} (key : A -> f64) x l :
  StronglySorted (fun a b => (key b <= key a)%Z) l ->
  StronglySorted (fun a b => (key b <= key a)%Z) (insert_desc key x l).
Proof.
  induction l as [|y t IH]; intros H; simpl.
  - constructor; constructor.
  - inversion H as [|? ? Ht Hy]; subst.
    destruct (key x <? key y)%Z eqn:E.
    + apply Z.ltb_lt in E. constructor; [now apply IH|].
      assert (Hin : forall z, In z (insert_desc key x t) -> z = x \/ In z t).
      { clear. induction t as [|w t IH]; simpl; intros z Hz.
        - destruct Hz; [now left|contradiction].
        - destruct (key x <? key w)%Z; simpl in Hz.
          + destruct Hz as [->|Hz]; [now right; left|].
            destruct (IH _ Hz); [now left|now right; right].
          + destruct Hz as [->|[->|Hz]]; auto. }
      rewrite Forall_forall in *. intros z Hz.
      destruct (Hin _ Hz) as [->|Hz']; [lia|now apply Hy].
    + apply Z.ltb_ge in E. constructor; [assumption|].
      constructor; [assumption|].
      rewrite Forall_forall in *. intros z Hz. specialize (Hy _ Hz). lia.
Qed.

Lemma sort_desc_sorted {A} (key : A -> f64) l :
  StronglySorted (fun a b => (key b <= key a)%Z) (sort_desc key l).
Proof.
  induction l as [|x t IH]; simpl; [constructor|].
  now apply insert_desc_sorted.
Qed.

Lemma StronglySorted_firstn {A} (R : A -> A -> Prop) n : forall l,
  StronglySorted R l -> StronglySorted R (firstn n l).
Proof.
  induction n as [|n IH]; intros l H; simpl; [constructor|].
  destruct l as [|x t]; [constructor|].
  inversion H as [|? ? Ht Hx]; subst. constructor; [now apply IH|].
  rewrite Forall_forall in *. intros z Hz. apply Hx.
  rewrite <- (firstn_skipn n t). apply in_or_app. now left.
Qed.

(** Stability: the elements with a given key come out in their original
    order. *)
Lemma insert_desc_filter {A} (key : A -> f64) v x l :
  StronglySorted (fun a b => (key b <= key a)%Z) l ->
  filter (fun a => (key a =? v)%Z) (insert_desc key x l)
  = filter (fun a => (key a =? v)%Z) (x :: l).
Proof.
  induction l as [|y t IH]; intros H; [reflexivity|].
  inversion H as [|? ? Ht Hy]; subst. simpl insert_desc.
  destruct (key x <? key y)%Z eqn:E; [|reflexivity].
  apply Z.ltb_lt in E.
  cbn [filter]. rewrite (IH Ht). cbn [filter].
  destruct (key x =? v)%Z eqn:Ex, (key y =? v)%Z eqn:Ey; try reflexivity.
  apply Z.eqb_eq in Ex, Ey. lia.
Qed.

Lemma sort_desc_stable {A} (key : A -> f64) v l :
  filter (fun a => (key a =? v)%Z) (sort_desc key l)
  = filter (fun a => (key a =? v)%Z) l.
Proof.
  induction l as [|x t IH]; [reflexivity|].
  simpl sort_desc. rewrite insert_desc_filter by apply sort_desc_sorted.
  simpl. now rewrite IH.
Qed.

Lemma filter_firstn_prefix {A} (p : A -> bool) n l :
  is_prefix (filter p (firstn n l)) (filter p l).
Proof.
  exists (filter p (skipn n l)).
  now rewrite <- filter_app, firstn_skipn.
Qed.

Lemma ranked_firstn k (l : list (vn * f64)) :
  descending (firstn k (sort_desc snd l))
  /\ forall v, is_prefix (with_score v (firstn k (sort_desc snd l)))
                 (with_score v l).
Proof.
  split.
  - apply StronglySorted_firstn, sort_desc_sorted.
  - intros v. unfold with_score.
    rewrite <- (sort_desc_stable snd v l). apply filter_firstn_prefix.
Qed.

Lemma slice_to_firstn {A} (n : Z) (l : list A) :
  exists k, slice_to n l = firstn k l.
Proof. unfold slice_to. destruct (n <? 0)%Z; eauto. Qed.

(** C4: the list returned by [get_vn_candidates] is in descending order
    of confidence, is no longer than the limit (3 in the CLI, the
    non-negative [candidate_limit] in the GUI), and among candidates of
    equal confidence keeps the order in which the catalog returned them:
    for every score, the returned candidates with that score are an initial
    part of the catalog's candidates with that score. *)
Theorem get_vn_candidates_ranked (U : unicode_db) (response : option (list vn))
  (search_query expected_date expected_producer : str) (candidate_limit : Z) :
  (0 <= candidate_limit)%Z ->
  let cli := get_vn_candidates_CLI U response search_query expected_date
               expected_producer in
  let gui := get_vn_candidates_GUI U response search_query expected_date
               expected_producer candidate_limit in
  let scored_cli :=
    map (fun c => (c, composite_conf_CLI U search_query expected_date
                        expected_producer c)) (results_of response) in
  let scored_gui :=
    map (fun c => (c, match_GUI U search_query expected_date
                        expected_producer c)) (results_of response) in
  descending cli /\ descending gui
  /\ length cli <= 3 /\ (Z.of_nat (length gui) <= candidate_limit)%Z
  /\ (forall v, is_prefix (with_score v cli) (with_score v scored_cli))
  /\ (forall v, is_prefix (with_score v gui) (with_score v scored_gui)).
Proof.
  intros Hlim cli gui scored_cli scored_gui.
  subst cli gui scored_cli scored_gui.
  unfold get_vn_candidates_CLI, get_vn_candidates_GUI, results_of.
  destruct response as [results|].
  - destruct (slice_to_firstn candidate_limit
                (sort_desc snd
                   (map (fun c => (c, match_GUI U search_query expected_date
                                        expected_producer c)) results)))
      as (k & Hk).
    split; [apply ranked_firstn|].
    split; [rewrite Hk; apply ranked_firstn|].
    split; [rewrite length_firstn; lia|].
    split.
    { unfold slice_to. destruct (candidate_limit <? 0)%Z eqn:E;
        [apply Z.ltb_lt in E; lia|].
      rewrite length_firstn. lia. }
    split; intros v; [|rewrite Hk]; apply ranked_firstn.
  - simpl. split; [constructor|]. split; [constructor|].
    split; [lia|]. split; [lia|]. split; intros v; now exists [].
Qed.

Lemma get_vn_candidates_ranked_witness :
  (0 <= 5)%Z
  /\ length (get_vn_candidates_CLI ascii_db
               (Some [Build_vn (Some (lit "a")) [] None [] None;
                      Build_vn (Some (lit "b")) [] None [] None;
                      Build_vn (Some (lit "c")) [] None [] None;
                      Build_vn (Some (lit "d")) [] None [] None])
               (lit "c") [] []) <= 3.
Proof.
  split; [lia|].
  refine (proj1 (proj2 (proj2
    (get_vn_candidates_ranked ascii_db _ (lit "c") [] [] 5 _)))).
  lia.
Defined.

(* ----------------------------------------------------------------- *)
(** ** The date score *)




(* ----------------------------------------------------------------- *)
(** ** [parse_folder_name] *)

Lemma before_first_no_sep sep s : has_char sep (before_first sep s) = false.
Proof.
  induction s as [|c t IH]; [reflexivity|]. simpl.
  destruct (char_eqb c sep) eqn:E; [reflexivity|].
  simpl. unfold char_eqb in *. rewrite N.eqb_sym, E. exact IH.
Qed.

Lemma has_char_false_in c s : has_char c s = false <-> ~ In c s.
Proof.
  unfold has_char. split.
  - intros H Hin. assert (existsb (char_eqb c) s = true); [|congruence].
    apply existsb_exists. exists c. split; [assumption|apply char_eqb_refl].
  - intros H. destruct (existsb (char_eqb c) s) eqn:E; [|reflexivity].
    apply existsb_exists in E as (x & Hx & Ex). apply char_eqb_eq in Ex.
    now subst.
Qed.

(** The title computed by the CLI never contains a plus sign. *)
Lemma parse_folder_name_CLI_no_plus folder_name :
  has_char PLUS (parse_folder_name_CLI folder_name) = false.
Proof.
  unfold parse_folder_name_CLI.
  destruct (has_char PLUS (cleaned_name folder_name)) eqn:E; [|exact E].
  apply has_char_false_in. intros H. apply strip_in in H.
  revert H. apply has_char_false_in, before_first_no_sep.
Qed.

(** The title of the example of the specification, in both front-ends. *)
Example parse_folder_name_example :
  parse_folder_name_CLI (lit "[VNDS][231215] Example Title (18+) {Flag}")
  = lit "Example Title"
  /\ parse_folder_name_GUI (lit "[VNDS][231215] Example Title (18+) {Flag}")
     = lit "Example Title".
Proof. split; reflexivity. Qed.

(** C8: the GUI parser has no rule for the plus sign: where the CLI parser
    keeps only the text before the first plus sign, the GUI parser returns
    the whole cleaned name. *)
Theorem parse_folder_name_GUI_keeps_plus :
  parse_folder_name_GUI (lit "[Key] Clannad + Tomoyo After (JP)")
  = lit "Clannad + Tomoyo After"
  /\ parse_folder_name_CLI (lit "[Key] Clannad + Tomoyo After (JP)")
     = lit "Clannad".
Proof. split; reflexivity. Qed.

(* ----------------------------------------------------------------- *)
(** ** [str.format] and unknown placeholders *)

Lemma str_eqb_eq a : forall b, str_eqb a b = true <-> a = b.
Proof.
  induction a as [|x a IH]; intros [|y b]; simpl; split; try easy.
  - rewrite andb_true_iff, char_eqb_eq, IH. now intros [-> ->].
  - intros [= -> ->]. rewrite char_eqb_refl. now apply IH.
Qed.

Lemma scan_spec_split s : forall depth body rest,
  scan_spec depth s = Ok (body, rest) -> s = body ++ RBRACE :: rest.
Proof.
  induction s as [|c t IH]; intros depth body rest H; [discriminate|].
  cbn [scan_spec] in H. destruct (char_eqb c RBRACE) eqn:E.
  - apply char_eqb_eq in E. subst c. destruct depth as [|depth'].
    + now inversion H; subst.
    + destruct (scan_spec depth' t) as [[b r]|] eqn:Es; [|discriminate].
      inversion H; subst. simpl. f_equal. now apply (IH depth').
  - destruct (scan_spec _ t) as [[b r]|] eqn:Es; [|discriminate].
    inversion H; subst. simpl. f_equal. now apply IH in Es.
Qed.

Lemma scan_spec_app s s' : forall depth body rest,
  scan_spec depth s = Ok (body, rest) ->
  scan_spec depth (s ++ s') = Ok (body, rest ++ s').
Proof.
  induction s as [|c t IH]; intros depth body rest H; [discriminate|].
  cbn [scan_spec app] in *. destruct (char_eqb c RBRACE).
  - destruct depth as [|depth'].
    + now inversion H; subst.
    + destruct (scan_spec depth' t) as [[b r]|] eqn:Es; [|discriminate].
      inversion H; subst. now rewrite (IH _ _ _ Es).
  - destruct (scan_spec _ t) as [[b r]|] eqn:Es; [|discriminate].
    inversion H; subst. now rewrite (IH _ _ _ Es).
Qed.

Lemma scan_conversion_shorter s x rest :
  scan_conversion s = Ok (x, rest) -> length rest < length s.
Proof.
  destruct s as [|conv [|c t]]; try discriminate. cbn [scan_conversion].
  destruct (char_eqb c RBRACE).
  - intros [= <- <-]. simpl. lia.
  - destruct (char_eqb c COLON); [|discriminate].
    destruct (scan_spec 0 t) as [[b r]|] eqn:Es; [|discriminate].
    intros [= <- <-]. apply scan_spec_split in Es.
    apply (f_equal (@length _)) in Es. rewrite length_app in Es.
    simpl in *. lia.
Qed.

Lemma scan_conversion_app s s' x rest :
  scan_conversion s = Ok (x, rest) ->
  scan_conversion (s ++ s') = Ok (x, rest ++ s').
Proof.
  destruct s as [|conv [|c t]]; try discriminate.
  cbn [scan_conversion app]. destruct (char_eqb c RBRACE).
  - now intros [= <- <-].
  - destruct (char_eqb c COLON); [|discriminate].
    destruct (scan_spec 0 t) as [[b r]|] eqn:Es; [|discriminate].
    intros [= <- <-]. now rewrite (scan_spec_app _ _ _ _ _ Es).
Qed.

Lemma scan_field_shorter s : forall in_index f rest,
  scan_field in_index s = Ok (f, rest) -> length rest < length s.
Proof.
  induction s as [|c t IH]; intros in_index f rest H; [discriminate|].
  cbn [scan_field] in H. destruct in_index.
  { destruct (scan_field _ t) as [[f' r]|] eqn:Es; [|discriminate].
    inversion H; subst. apply IH in Es. simpl. lia. }
  destruct (char_eqb c LBRACE); [discriminate|].
  destruct (char_eqb c RBRACE).
  { inversion H; subst. simpl. lia. }
  destruct (char_eqb c COLON).
  { destruct (scan_spec 0 t) as [[b r]|] eqn:Es; [|discriminate].
    inversion H; subst. apply scan_spec_split in Es.
    apply (f_equal (@length _)) in Es. rewrite length_app in Es.
    simpl in *. lia. }
  destruct (char_eqb c BANG).
  { destruct (scan_conversion t) as [[x r]|] eqn:Es; [|discriminate].
    inversion H; subst. apply scan_conversion_shorter in Es. simpl. lia. }
  destruct (scan_field _ t) as [[f' r]|] eqn:Es; [|discriminate].
  inversion H; subst. apply IH in Es. simpl. lia.
Qed.

Lemma scan_field_app s s' : forall in_index f rest,
  scan_field in_index s = Ok (f, rest) ->
  scan_field in_index (s ++ s') = Ok (f, rest ++ s').
Proof.
  induction s as [|c t IH]; intros in_index f rest H; [discriminate|].
  cbn [scan_field app] in *. destruct in_index.
  { destruct (scan_field _ t) as [[f' r]|] eqn:Es; [|discriminate].
    inversion H; subst. now rewrite (IH _ _ _ Es). }
  destruct (char_eqb c LBRACE); [discriminate|].
  destruct (char_eqb c RBRACE); [now inversion H; subst|].
  destruct (char_eqb c COLON).
  { destruct (scan_spec 0 t) as [[b r]|] eqn:Es; [|discriminate].
    inversion H; subst. now rewrite (scan_spec_app _ _ _ _ _ Es). }
  destruct (char_eqb c BANG).
  { destruct (scan_conversion t) as [[x r]|] eqn:Es; [|discriminate].
    inversion H; subst. now rewrite (scan_conversion_app _ _ _ _ Es). }
  destruct (scan_field _ t) as [[f' r]|] eqn:Es; [|discriminate].
  inversion H; subst. now rewrite (IH _ _ _ Es).
Qed.

Lemma is_special_false c :
  is_special c = false ->
  char_eqb c BANG = false /\ char_eqb c COLON = false
  /\ char_eqb c DOT = false /\ char_eqb c LBRACKET = false.
Proof.
  unfold is_special. cbn [existsb]. rewrite !orb_false_iff. tauto.
Qed.

(** A field that is a plain name. *)
Lemma scan_field_plain tok post :
  forallb (fun c => negb (char_eqb c LBRACE || char_eqb c RBRACE
                          || is_special c)) tok = true ->
  scan_field false (tok ++ RBRACE :: post)
  = Ok (Build_replacement_field tok None None, post).
Proof.
  induction tok as [|c t IH]; intros H.
  - cbn [app scan_field]. now rewrite char_eqb_refl.
  - cbn [forallb] in H. apply andb_true_iff in H as [Hc Ht].
    apply negb_true_iff in Hc.
    apply orb_false_iff in Hc as [Hc Hs].
    apply orb_false_iff in Hc as [Hl Hr].
    destruct (is_special_false _ Hs) as (Hb & Hco & _ & Hk).
    cbn [app scan_field]. rewrite Hl, Hr, Hco, Hb, Hk, (IH Ht).
    reflexivity.
Qed.

Lemma name_first_plain tok :
  forallb (fun c => negb (char_eqb c LBRACE || char_eqb c RBRACE
                          || is_special c)) tok = true ->
  name_first tok = (tok, []).
Proof.
  induction tok as [|c t IH]; intros H; [reflexivity|].
  cbn [forallb] in H. apply andb_true_iff in H as [Hc Ht].
  apply negb_true_iff in Hc. apply orb_false_iff in Hc as [_ Hs].
  destruct (is_special_false _ Hs) as (_ & _ & Hd & Hk).
  cbn [name_first]. rewrite Hd, Hk, (IH Ht). reflexivity.
Qed.

Lemma format_from_fuel kwargs fuel1 : forall fuel2 s,
  length s <= fuel1 -> length s <= fuel2 ->
  format_from fuel1 kwargs s = format_from fuel2 kwargs s.
Proof.
  induction fuel1 as [|f1 IH]; intros fuel2 s H1 H2.
  - destruct s; [|simpl in H1; lia]. now destruct fuel2.
  - destruct s as [|c t]; [now destruct fuel2|].
    destruct fuel2 as [|f2]; [simpl in H2; lia|].
    simpl in H1, H2. cbn [format_from].
    destruct (char_eqb c LBRACE).
    + destruct t as [|c' t']; [reflexivity|].
      destruct (char_eqb c' LBRACE).
      * simpl in H1, H2. rewrite (IH f2 t') by lia. reflexivity.
      * destruct (scan_field false (c' :: t')) as [[f r]|] eqn:Es;
          [|reflexivity].
        apply scan_field_shorter in Es.
        cbn [bind fst snd]. destruct (field_value kwargs f); [|reflexivity].
        cbn [bind]. rewrite (IH f2 r) by lia. reflexivity.
    + destruct (char_eqb c RBRACE).
      * destruct t as [|c' t']; [reflexivity|].
        destruct (char_eqb c' RBRACE); [|reflexivity].
        simpl in H1, H2. rewrite (IH f2 t') by lia. reflexivity.
      * rewrite (IH f2 t) by lia. reflexivity.
Qed.

(** The equation of the formatter, free of fuel. *)
Lemma py_format_cons c t kwargs :
  py_format (c :: t) kwargs =
  if char_eqb c LBRACE then
    match t with
    | [] => Raise ValueError
    | c' :: t' =>
        if char_eqb c' LBRACE then
          out <- py_format t' kwargs ;; Ok (LBRACE :: out)
        else
          fr <- scan_field false t ;;
          v <- field_value kwargs (fst fr) ;;
          out <- py_format (snd fr) kwargs ;;
          Ok (v ++ out)
    end
  else if char_eqb c RBRACE then
    match t with
    | [] => Raise ValueError
    | c' :: t' =>
        if char_eqb c' RBRACE then
          out <- py_format t' kwargs ;; Ok (RBRACE :: out)
        else Raise ValueError
    end
  else out <- py_format t kwargs ;; Ok (c :: out).
Proof.
  unfold py_format. cbn [length format_from].
  destruct (char_eqb c LBRACE).
  - destruct t as [|c' t']; [reflexivity|].
    destruct (char_eqb c' LBRACE).
    + rewrite (format_from_fuel kwargs (length (c' :: t')) (length t') t')
        by (simpl; lia). reflexivity.
    + destruct (scan_field false (c' :: t')) as [[f r]|] eqn:Es;
        [|reflexivity].
      apply scan_field_shorter in Es.
      cbn [bind fst snd]. destruct (field_value kwargs f); [|reflexivity].
      cbn [bind].
      rewrite (format_from_fuel kwargs (length (c' :: t')) (length r) r) by lia.
      reflexivity.
  - destruct (char_eqb c RBRACE); [|reflexivity].
    destruct t as [|c' t']; [reflexivity|].
    destruct (char_eqb c' RBRACE); [|reflexivity].
    rewrite (format_from_fuel kwargs (length (c' :: t')) (length t') t')
      by (simpl; lia). reflexivity.
Qed.

(** Formatting is sequential: once a prefix has been formatted, the rest of
    the template is formatted on its own. *)
Lemma py_format_app kwargs n : forall pre o s,
  length pre <= n ->
  py_format pre kwargs = Ok o ->
  py_format (pre ++ s) kwargs = (out <- py_format s kwargs ;; Ok (o ++ out)).
Proof.
  induction n as [|n IH]; intros pre o s Hn H.
  - destruct pre; [|simpl in Hn; lia]. inversion H; subst.
    simpl. now destruct (py_format s kwargs).
  - destruct pre as [|c t].
    { inversion H; subst. simpl. now destruct (py_format s kwargs). }
    simpl in Hn. rewrite py_format_cons in H.
    cbn [app]. rewrite py_format_cons.
    destruct (char_eqb c LBRACE).
    + destruct t as [|c' t']; [discriminate|].
      cbn [app].
      destruct (char_eqb c' LBRACE).
      * destruct (py_format t' kwargs) as [o'|] eqn:E; [|discriminate].
        inversion H; subst. simpl in Hn.
        rewrite (IH t' o' s) by (lia || assumption).
        now destruct (py_format s kwargs).
      * change (c' :: (t' ++ s)) with ((c' :: t') ++ s).
        destruct (scan_field false (c' :: t')) as [[f r]|] eqn:Es;
          [|discriminate].
        rewrite (scan_field_app _ s _ _ _ Es). cbn [bind fst snd] in *.
        destruct (field_value kwargs f) as [v|]; [|discriminate].
        cbn [bind] in *.
        destruct (py_format r kwargs) as [o'|] eqn:E; [|discriminate].
        inversion H; subst.
        apply scan_field_shorter in Es.
        assert (length r <= n) by (simpl in Es, Hn; lia).
        rewrite (IH r o' s) by assumption.
        destruct (py_format s kwargs); [|reflexivity].
        cbn [bind]. now rewrite app_assoc.
    + destruct (char_eqb c RBRACE).
      * destruct t as [|c' t']; [discriminate|].
        cbn [app].
        destruct (char_eqb c' RBRACE); [|discriminate].
        destruct (py_format t' kwargs) as [o'|] eqn:E; [|discriminate].
        inversion H; subst. simpl in Hn.
        rewrite (IH t' o' s) by (lia || assumption).
        now destruct (py_format s kwargs).
      * destruct (py_format t kwargs) as [o'|] eqn:E; [|discriminate].
        inversion H; subst.
        rewrite (IH t o' s) by (lia || assumption).
        now destruct (py_format s kwargs).
Qed.

(** Whether a field is replaced depends on the keys of the arguments, not
    on their values. *)
Lemma field_value_keys kw1 kw2 f v :
  (forall k, lookup kw1 k = None <-> lookup kw2 k = None) ->
  field_value kw1 f = Ok v -> exists v', field_value kw2 f = Ok v'.
Proof.
  intros Hk. unfold field_value. cbv zeta.
  destruct (get_integer 0 (fst (name_first (fname f)))) as [[i|]|];
    cbn [bind]; try discriminate.
  destruct (lookup kw1 _) as [v1|] eqn:E1; [|discriminate].
  destruct (lookup kw2 _) as [v2|] eqn:E2; [|apply Hk in E2; congruence].
  destruct (nonempty _); [discriminate|].
  destruct (fconv f) as [conv|].
  - destruct (char_eqb conv 115%N); cbn [bind].
    + destruct (fspec f) as [[|x sp]|]; try discriminate; eauto.
    + destruct (_ || _); discriminate.
  - cbn [bind]. destruct (fspec f) as [[|x sp]|]; try discriminate; eauto.
Qed.

(** Whether formatting succeeds depends on the keys of the arguments, not
    on their values. *)
Lemma format_from_keys kw1 kw2 fuel :
  (forall k, lookup kw1 k = None <-> lookup kw2 k = None) ->
  forall s o, format_from fuel kw1 s = Ok o ->
  exists o', format_from fuel kw2 s = Ok o'.
Proof.
  intros Hk. induction fuel as [|fuel IH]; intros s o H; [simpl; eauto|].
  destruct s as [|c t]; [simpl; eauto|]. cbn [format_from] in *.
  destruct (char_eqb c LBRACE).
  - destruct t as [|c' t']; [discriminate|].
    destruct (char_eqb c' LBRACE).
    + destruct (format_from fuel kw1 t') as [o1|] eqn:E; [|discriminate].
      destruct (IH _ _ E) as (o2 & ->). simpl. eauto.
    + destruct (scan_field false (c' :: t')) as [[f r]|]; [|discriminate].
      cbn [bind fst snd] in *.
      destruct (field_value kw1 f) as [v|] eqn:Ev; [|discriminate].
      destruct (field_value_keys kw1 kw2 f v Hk Ev) as (v' & ->).
      cbn [bind] in *.
      destruct (format_from fuel kw1 r) as [o1|] eqn:E; [|discriminate].
      destruct (IH _ _ E) as (o2 & ->). simpl. eauto.
  - destruct (char_eqb c RBRACE).
    + destruct t as [|c' t']; [discriminate|].
      destruct (char_eqb c' RBRACE); [|discriminate].
      destruct (format_from fuel kw1 t') as [o1|] eqn:E; [|discriminate].
      destruct (IH _ _ E) as (o2 & ->). simpl. eauto.
    + destruct (format_from fuel kw1 t) as [o1|] eqn:E; [|discriminate].
      destruct (IH _ _ E) as (o2 & ->). simpl. eauto.
Qed.

Lemma lookup_template_kwargs k p d l t f g p' d' l' t' f' g' :
  lookup (template_kwargs p d l t f g) k = None
  <-> lookup (template_kwargs p' d' l' t' f' g') k = None.
Proof.
  unfold template_kwargs. cbn [lookup].
  repeat match goal with |- context [str_eqb ?a k] =>
    destruct (str_eqb a k); [easy|] end.
  tauto.
Qed.

Lemma lookup_unknown k p d l t f g :
  ~ In k known_placeholders -> lookup (template_kwargs p d l t f g) k = None.
Proof.
  intros H. unfold template_kwargs. cbn [lookup].
  repeat match goal with |- context [str_eqb ?a k] =>
    destruct (str_eqb a k) eqn:E;
    [apply str_eqb_eq in E; subst k; exfalso; apply H; simpl; tauto
    |clear E] end.
  reflexivity.
Qed.

(** A template whose first unformattable field is an unknown plain name
    raises [KeyError] with that name. *)
Lemma py_format_unknown pre tok post out0 p d l t f g :
  plain_name tok = true ->
  ~ In tok known_placeholders ->
  py_format pre (template_kwargs [] [] [] [] [] []) = Ok out0 ->
  py_format (pre ++ LBRACE :: tok ++ RBRACE :: post) (template_kwargs p d l t f g)
  = Raise (KeyError tok).
Proof.
  intros Hp Hk Hpre.
  destruct (format_from_keys (template_kwargs [] [] [] [] [] [])
              (template_kwargs p d l t f g) (length pre)
              (fun k => lookup_template_kwargs k _ _ _ _ _ _ _ _ _ _ _ _)
              pre out0 Hpre) as (o' & Ho').
  rewrite (py_format_app _ (length pre) pre o' _ (le_n _) Ho').
  unfold plain_name in Hp.
  apply andb_true_iff in Hp as [Hp Hchars].
  apply andb_true_iff in Hp as [Hne Hidx]. apply negb_true_iff in Hidx.
  rewrite py_format_cons, char_eqb_refl.
  destruct tok as [|c tok']; [discriminate|].
  cbn [app].
  assert (Hc : char_eqb c LBRACE = false).
  { cbn [forallb] in Hchars. apply andb_true_iff in Hchars as [Hc _].
    apply negb_true_iff in Hc. apply orb_false_iff in Hc as [Hc _].
    now apply orb_false_iff in Hc as [Hc _]. }
  rewrite Hc.
  change (c :: (tok' ++ RBRACE :: post)) with ((c :: tok') ++ RBRACE :: post).
  rewrite (scan_field_plain _ _ Hchars). cbn [bind fst snd].
  unfold field_value. cbv zeta. cbn [fname].
  rewrite (name_first_plain _ Hchars). cbn [fst snd].
  unfold is_index in Hidx.
  destruct (get_integer 0 (c :: tok')) as [[i|]|]; try discriminate.
  cbn [bind]. now rewrite (lookup_unknown _ _ _ _ _ _ _ Hk).
Qed.

Lemma plain_name_key tok : plain_name tok = true -> field_key tok = Some tok.
Proof.
  unfold plain_name. rewrite !andb_true_iff, negb_true_iff.
  intros [[_ Hi] Hc]. unfold field_key, parsed_field.
  rewrite (scan_field_plain _ _ Hc). cbn [fname].
  rewrite (name_first_plain _ Hc). cbn [fst]. now rewrite Hi.
Qed.














Lemma lstrip_keeps c s : In c s -> isspace_c c = false -> In c (lstrip s).
Proof.
  intros Hin Hc. induction s as [|x t IH]; [contradiction|]. simpl.
  destruct (isspace_c x) eqn:E; [|assumption].
  destruct Hin as [->|Hin]; [congruence|now apply IH].
Qed.

Lemma strip_keeps c s : In c s -> isspace_c c = false -> In c (strip s).
Proof.
  intros Hin Hc. unfold strip, rstrip.
  apply in_rev. rewrite rev_involutive.
  apply lstrip_keeps; [|assumption]. apply -> in_rev.
  now apply lstrip_keeps.
Qed.



(** What the formatter does on fields that are more than a name, on
    numbered fields and on stray braces; the conversion [!r] of a known
    field is outside the model. *)
Example py_format_examples :
  map (fun template =>
         py_format (lit template)
           (template_kwargs (lit "P") (lit "D") (lit "L") (lit "T") (lit "F")
              (lit "G")))
    ["{bogus!r}"; "{bogus.name}"; "{bogus[0]}"; "{bogus:>10}"; "{bogus!rx}";
     "{}"; "{0}"; "{9223372036854775807}"; "{9223372036854775808}";
     "{12ab}"; "{title!s}"; "{title:}"; "{title!x}"; "{title!r}";
     "{title} }"; "{title"; "{{title}}"; "{ti{tle}"]%string
  = [Raise (KeyError (lit "bogus")); Raise (KeyError (lit "bogus"));
     Raise (KeyError (lit "bogus")); Raise (KeyError (lit "bogus"));
     Raise ValueError;
     Raise IndexError; Raise IndexError; Raise IndexError; Raise ValueError;
     Raise (KeyError (lit "12ab")); Ok (lit "T"); Ok (lit "T");
     Raise ValueError; Raise NotModelled;
     Raise ValueError; Raise ValueError; Ok (lit "{title}");
     Raise ValueError].
Proof. vm_compute. reflexivity. Qed.



(* ----------------------------------------------------------------- *)
(** ** Formatted dates *)

Lemma to_decimal_ascii k :
  (0 <= k <= 9)%Z -> to_decimal (Z.to_N (48 + k)) = Some k.
Proof.
  intros H.
  assert (C : (k = 0 \/ k = 1 \/ k = 2 \/ k = 3 \/ k = 4 \/ k = 5 \/ k = 6
               \/ k = 7 \/ k = 8 \/ k = 9)%Z) by lia.
  repeat (destruct C as [-> | C]; [reflexivity|]). now subst.
Qed.

Lemma two_digits_value n :
  (0 <= n <= 99)%Z -> digits_value 0 (two_digits n) = Some n.
Proof.
  intros H. unfold two_digits. cbn [digits_value].
  rewrite !to_decimal_ascii.
  - f_equal. pose proof (Z.div_mod n 10). lia.
  - pose proof (Z.mod_pos_bound n 10). lia.
  - split; [apply Z.div_pos; lia|].
    apply Z.lt_succ_r, Z.div_lt_upper_bound; lia.
Qed.

Lemma two_digits_decimal n :
  (0 <= n <= 99)%Z -> forallb isdecimal_c (two_digits n) = true.
Proof.
  intros H. unfold two_digits, isdecimal_c. cbn [forallb].
  rewrite !to_decimal_ascii; [reflexivity| |].
  - pose proof (Z.mod_pos_bound n 10). lia.
  - split; [apply Z.div_pos; lia|].
    apply Z.lt_succ_r, Z.div_lt_upper_bound; lia.
Qed.

Lemma days_in_month_le y m : (days_in_month y m <= 31)%Z.
Proof.
  unfold days_in_month.
  destruct (m =? 2)%Z; [destruct (is_leap y); lia|].
  destruct (_ || _); lia.
Qed.

Lemma strptime_range s y m d :
  strptime_Ymd s = Some (y, m, d) ->
  (1 <= y /\ 1 <= m <= 12 /\ 1 <= d <= 31)%Z.
Proof.
  unfold strptime_Ymd.
  destruct (match_Ymd s) as [[[[Y mt] dt] rest]|]; [|discriminate].
  destruct rest; [|discriminate].
  destruct (py_int Y) as [year|]; [|discriminate].
  destruct (py_int mt) as [month|]; [|discriminate].
  destruct (py_int dt) as [day|]; [|discriminate].
  destruct (_ && _) eqn:E; [|discriminate].
  intros [= <- <- <-].
  rewrite !andb_true_iff, !Z.leb_le in E.
  pose proof (days_in_month_le year month). lia.
Qed.

(** What [strftime] prints for a valid date is a plausible six-digit
    date. *)
Lemma strftime_plausible y m d :
  (1 <= y)%Z -> (1 <= m <= 12)%Z -> (1 <= d <= 31)%Z ->
  length (strftime_ymd (y, m, d)) = 6
  /\ forallb isdecimal_c (strftime_ymd (y, m, d)) = true
  /\ plausible_date (strftime_ymd (y, m, d)) = true.
Proof.
  intros Hy Hm Hd.
  assert (Hyy : (0 <= y mod 100 <= 99)%Z)
    by (pose proof (Z.mod_pos_bound y 100); lia).
  assert (Hl : length (strftime_ymd (y, m, d)) = 6) by reflexivity.
  assert (Hdec : forallb isdecimal_c (strftime_ymd (y, m, d)) = true).
  { unfold strftime_ymd. rewrite !forallb_app, !two_digits_decimal by lia.
    reflexivity. }
  split; [exact Hl|]. split; [exact Hdec|].
  rewrite plausible_date_decimal by assumption.
  unfold month_of, day_of, number_at.
  change (slice 2 4 (strftime_ymd (y, m, d))) with (two_digits m).
  change (slice 4 6 (strftime_ymd (y, m, d))) with (two_digits d).
  rewrite !two_digits_value by lia.
  unfold plausible_md. rewrite !andb_true_iff, !Z.leb_le. lia.
Qed.

Lemma resolve_date_cases vn_info release_info :
  resolve_date vn_info release_info = lit "Unknown"
  \/ exists y m d, (1 <= y /\ 1 <= m <= 12 /\ 1 <= d <= 31)%Z
       /\ resolve_date vn_info release_info = strftime_ymd (y, m, d).
Proof.
  unfold resolve_date. destruct (nonempty _); [|now left].
  unfold format_release_date.
  match goal with |- context [strptime_Ymd ?s] =>
    destruct (strptime_Ymd s) as [[[y m] d]|] eqn:E end; [|now left].
  right. exists y, m, d. split; [now apply strptime_range in E|reflexivity].
Qed.

(* ----------------------------------------------------------------- *)
(** ** Round trip through the default template *)

Lemma uint_chars d :
  Forall (fun c => (48 <= c <= 57)%N)
    (lit (DecimalString.NilEmpty.string_of_uint d)).
Proof.
  induction d; simpl; try constructor; try assumption;
    cbv; split; discriminate.
Qed.

(** [str(n)] consists of digits, after a minus sign when [n] is negative. *)
Lemma str_of_int_chars n :
  Forall (fun c => c = 45%N \/ (48 <= c <= 57)%N) (str_of_int n).
Proof.
  unfold str_of_int, DecimalString.NilZero.string_of_int.
  assert (U : forall d, Forall (fun c => c = 45%N \/ (48 <= c <= 57)%N)
                (lit (DecimalString.NilZero.string_of_uint d))).
  { intros d. unfold DecimalString.NilZero.string_of_uint.
    destruct d; try (eapply Forall_impl; [|apply uint_chars]; intros; now right).
    constructor; [right; cbv; split; discriminate|constructor]. }
  destruct (Z.to_int n) as [d|d]; [apply U|].
  change (lit (String.String "-" (DecimalString.NilZero.string_of_uint d)))
    with (45%N :: lit (DecimalString.NilZero.string_of_uint d)).
  constructor; [now left|apply U].
Qed.

Lemma length_segment_facts n :
  let seg := 76%N :: str_of_int n in
  ~ In RBRACKET seg /\ ~ In NEWLINE seg /\ isdigit (strip seg) = false.
Proof.
  intros seg. pose proof (str_of_int_chars n) as H.
  rewrite Forall_forall in H.
  assert (Hc : forall c, In c seg -> c = 76%N \/ c = 45%N \/ (48 <= c <= 57)%N).
  { intros c [<-|Hc]; [now left|right; now apply H]. }
  split; [intros Hin; apply Hc in Hin; unfold RBRACKET in Hin; lia|].
  split; [intros Hin; apply Hc in Hin; unfold NEWLINE in Hin; lia|].
  rewrite strip_no_space; [reflexivity|].
  intros c Hin. apply Hc in Hin.
  destruct (isspace_c c) eqn:E; [|reflexivity].
  unfold isspace_c in E. apply existsb_exists in E as (x & Hx & Ex).
  apply N.eqb_eq in Ex. subst x. simpl in Hx.
  repeat (destruct Hx as [<- | Hx]; [lia|]). contradiction.
Qed.

Lemma step_producer st producer :
  recoverable_producer producer = true ->
  nonempty (snd st) = false ->
  bracket_step_GUI st producer = (fst st, producer)
  /\ bracket_step_CLI st producer = Ok (fst st, producer).
Proof.
  unfold recoverable_producer. rewrite !andb_true_iff.
  intros (((((_ & _) & _) & Hs) & Hl) & Hd) Hp.
  apply str_eqb_eq in Hs. apply negb_true_iff in Hd.
  assert (Hc : isdigit producer && Nat.eqb (length producer) 6 = false).
  { destruct (isdigit producer); [|reflexivity]. cbn [andb] in *.
    apply Nat.leb_gt in Hd. apply Nat.eqb_neq. lia. }
  assert (Hc' : isdigit producer && Nat.ltb 6 (length producer) = false).
  { destruct (isdigit producer); [|reflexivity]. cbn [andb] in *.
    apply Nat.leb_gt in Hd. apply Nat.ltb_ge. lia. }
  unfold bracket_step_GUI, bracket_step_CLI, producer_branch.
  now rewrite Hs, Hc, Hl, Hc', Hp.
Qed.

Lemma step_date st d :
  length d = 6 -> forallb isdecimal_c d = true -> plausible_date d = true ->
  bracket_step_GUI st d = (d, snd st)
  /\ bracket_step_CLI st d = Ok (d, snd st).
Proof.
  intros Hl Hd Hp.
  assert (Hdig : isdigit d = true).
  { apply forallb_isdecimal_isdigit; [now destruct d|assumption]. }
  unfold bracket_step_GUI, bracket_step_CLI.
  rewrite (strip_isdigit _ Hdig), Hdig, Hl. cbn [Nat.eqb andb].
  now rewrite date_branch_decimal, Hp.
Qed.

Lemma step_kept st seg :
  isdigit (strip seg) = false -> nonempty (snd st) = true ->
  bracket_step_GUI st seg = st /\ bracket_step_CLI st seg = Ok st.
Proof.
  intros Hd Hp. unfold bracket_step_GUI, bracket_step_CLI, producer_branch.
  rewrite Hd, Hp. cbn [andb negb].
  now destruct (Nat.leb 3 (length (strip seg))).
Qed.

(** The bracketed spans of a name built by the default template: the
    producer, the date and, when there is one, the length token. *)
Lemma default_name_spans producer d n_opt title flags tags :
  ~ In RBRACKET producer -> ~ In NEWLINE producer ->
  ~ In RBRACKET d -> ~ In NEWLINE d ->
  bracket_free title = true -> bracket_free flags = true ->
  bracket_free tags = true ->
  let length_str := match n_opt with
                    | Some n => lit "[L" ++ str_of_int n ++ lit "]"
                    | None => []
                    end in
  findall_span LBRACKET RBRACKET
    (default_name producer d length_str title flags tags)
  = producer :: d :: match n_opt with
                     | Some n => [76%N :: str_of_int n]
                     | None => []
                     end.
Proof.
  intros Hp1 Hp2 Hd1 Hd2 Ht Hf Hg length_str.
  unfold bracket_free in *. apply negb_true_iff, has_char_false_in in Ht, Hf, Hg.
  set (tail := lit " " ++ title
               ++ (if nonempty flags then lit " {" ++ flags ++ lit "}" else [])
               ++ (if nonempty tags then lit " (" ++ tags ++ lit ")" else [])).
  assert (Hname : default_name producer d length_str title flags tags
                  = LBRACKET :: producer ++ RBRACKET
                    :: LBRACKET :: d ++ RBRACKET :: length_str ++ tail).
  { unfold default_name, tail.
    destruct (nonempty flags), (nonempty tags);
      cbn [lit map String.list_ascii_of_string app];
      repeat rewrite <- ?app_assoc, <- ?app_comm_cons; cbn [app];
      rewrite ?app_nil_r; reflexivity. }
  assert (Htail : ~ In LBRACKET tail).
  { unfold tail. rewrite !in_app_iff. intros [H|[H|[H|H]]].
    - simpl in H. destruct H as [H|[]]. discriminate.
    - contradiction.
    - destruct (nonempty flags); [|contradiction].
      rewrite !in_app_iff in H. simpl in H.
      destruct H as [[H|[H|[]]]|[H|[H|[]]]]; try discriminate. contradiction.
    - destruct (nonempty tags); [|contradiction].
      rewrite !in_app_iff in H. simpl in H.
      destruct H as [[H|[H|[]]]|[H|[H|[]]]]; try discriminate. contradiction. }
  rewrite Hname, findall_span_first by assumption.
  rewrite findall_span_first by assumption.
  f_equal. f_equal. unfold length_str. destruct n_opt as [n|].
  - change (lit "[L" ++ str_of_int n ++ lit "]")
      with (LBRACKET :: (76%N :: str_of_int n) ++ [RBRACKET]).
    rewrite <- app_comm_cons, <- app_assoc. cbn [app].
    destruct (length_segment_facts n) as (H1 & H2 & _).
    change (76%N :: str_of_int n ++ RBRACKET :: tail)
      with ((76%N :: str_of_int n) ++ RBRACKET :: tail).
    rewrite findall_span_first by assumption.
    now rewrite findall_span_no_open.
  - cbn [app]. now apply findall_span_no_open.
Qed.

Lemma parse_default_name producer d n_opt title flags tags :
  recoverable_producer producer = true ->
  length d = 6 -> forallb isdecimal_c d = true -> plausible_date d = true ->
  bracket_free title = true -> bracket_free flags = true ->
  bracket_free tags = true ->
  let length_str := match n_opt with
                    | Some n => lit "[L" ++ str_of_int n ++ lit "]"
                    | None => []
                    end in
  let name := default_name producer d length_str title flags tags in
  parse_bracket_info_GUI name = (d, producer)
  /\ parse_bracket_info_CLI name = Ok (d, producer).
Proof.
  intros Hp Hl Hd Hpl Ht Hf Hg length_str name.
  assert (Hp' := Hp). unfold recoverable_producer in Hp'.
  rewrite !andb_true_iff, !negb_true_iff, !has_char_false_in in Hp'.
  destruct Hp' as (((((_ & Hp1) & Hp2) & _) & Hlen) & _).
  assert (Hd1 : ~ In RBRACKET d /\ ~ In NEWLINE d).
  { rewrite forallb_forall in Hd.
    split; intros Hin; now destruct (decimal_not_special _ (Hd _ Hin)). }
  unfold parse_bracket_info_GUI, parse_bracket_info_CLI, name, length_str.
  rewrite default_name_spans by tauto.
  destruct (step_producer ([], []) producer Hp eq_refl) as (G1 & C1).
  destruct (step_date ([], producer) d Hl Hd Hpl) as (G2 & C2).
  assert (Hne : nonempty producer = true).
  { destruct producer; [|reflexivity]. apply Nat.leb_le in Hlen.
    simpl in Hlen. lia. }
  destruct n_opt as [n|]; cbn [fold_left foldM].
  - destruct (length_segment_facts n) as (_ & _ & H3).
    destruct (step_kept (d, producer) (76%N :: str_of_int n) H3 Hne) as (G3 & C3).
    cbn [fst snd] in *. rewrite G1, G2, G3, C1. cbn [bind].
    rewrite C2. cbn [bind]. now rewrite C3.
  - cbn [fst snd] in *. rewrite G1, G2, C1. cbn [bind]. now rewrite C2.
Qed.

Lemma bracket_free_strip s : bracket_free s = true -> bracket_free (strip s) = true.
Proof.
  unfold bracket_free. rewrite !negb_true_iff, !has_char_false_in.
  intros H Hin. now apply H, strip_in.
Qed.

(** The example of the specification. *)
Example suggest_new_folder_name_example :
  suggest_new_folder_name_CLI
    (Build_vn (Some (lit "Fate/Stay")) [] (Some (lit "2004-01-29")) []
       (Some 40%Z))
    (Some (Build_release None None
             [Build_producer (Some (lit "TYPE-MOON")) true]))
    None None None
  = Ok (lit "[TYPE-MOON][040129][L40] Fate/Stay").
Proof. reflexivity. Qed.

(** C7 (as stated) fails: a producer of two letters is not recovered (the
    length token is taken for the producer), and a bracketed date in the
    title replaces the date of the name, although neither the producer nor
    the formatted date contains a square bracket. *)
Lemma round_trip_fails :
  suggest_new_folder_name_CLI
    (Build_vn (Some (lit "Fate/Stay")) [] (Some (lit "2004-01-29"))
       [Build_developer (Some (lit "TM"))] (Some 40%Z))
    None None None None
  = Ok (lit "[TM][040129][L40] Fate/Stay")
  /\ parse_bracket_info_CLI (lit "[TM][040129][L40] Fate/Stay")
     = Ok (lit "040129", lit "L40")
  /\ parse_bracket_info_GUI (lit "[TM][040129][L40] Fate/Stay")
     = (lit "040129", lit "L40")
  /\ suggest_new_folder_name_CLI
       (Build_vn (Some (lit "Fate [050101]")) [] (Some (lit "2004-01-29"))
          [Build_developer (Some (lit "TYPE-MOON"))] None)
       None None None None
     = Ok (lit "[TYPE-MOON][040129] Fate [050101]")
  /\ parse_bracket_info_CLI (lit "[TYPE-MOON][040129] Fate [050101]")
     = Ok (lit "050101", lit "TYPE-MOON").
Proof. repeat split; reflexivity. Qed.

(** C7 (amended): parsing a name produced with the default template
    recovers the formatted date and the producer used in the name,
    provided that the producer is one the bracket parser accepts (no square
    bracket or newline, no white space at its ends, at least three
    characters, not six or more digits), that the date was resolved (it is
    not the text Unknown), and that the title, the flags and the tags
    contain no opening square bracket. *)
Theorem round_trip_default_template (U : unicode_db) (vn_info : vn)
  (release_info : option release)
  (optional_flags optional_tags title_override : option str) :
  recoverable_producer (resolve_producer vn_info release_info) = true ->
  str_eqb (resolve_date vn_info release_info) (lit "Unknown") = false ->
  bracket_free (get_or (vn_title vn_info) []) = true ->
  bracket_free (get_or title_override []) = true ->
  bracket_free (get_or optional_flags []) = true ->
  bracket_free (get_or optional_tags []) = true ->
  (exists name,
     suggest_new_folder_name_CLI vn_info release_info optional_flags
       optional_tags None = Ok name
     /\ parse_bracket_info_CLI name
        = Ok (resolve_date vn_info release_info,
              resolve_producer vn_info release_info))
  /\ (exists name,
        suggest_new_folder_name_GUI U vn_info release_info optional_flags
          optional_tags None title_override = Ok name
        /\ parse_bracket_info_GUI name
           = (resolve_date vn_info release_info,
              resolve_producer vn_info release_info)).
Proof.
  intros Hp Hd Ht Ho Hf Hg.
  destruct (resolve_date_cases vn_info release_info) as [E|(y & m & d & Hr & E)].
  { rewrite E in Hd. discriminate. }
  destruct (strftime_plausible y m d) as (Hl & Hdec & Hpl); try tauto.
  rewrite <- E in Hl, Hdec, Hpl.
  assert (Ht' : bracket_free (get_or (vn_title vn_info) (lit "Unknown Title"))
                = true).
  { destruct (vn_title vn_info); [exact Ht|reflexivity]. }
  split.
  - eexists. split; [reflexivity|].
    apply (parse_default_name _ _ (vn_length vn_info)); try assumption.
    now apply bracket_free_strip.
  - eexists. split; [reflexivity|].
    apply (parse_default_name _ _ (vn_length vn_info)); try assumption.
    + now destruct (nonempty (get_or title_override [])).
    + now apply bracket_free_strip.
    + now apply bracket_free_strip.
Qed.

Lemma round_trip_default_template_witness :
  exists name,
    suggest_new_folder_name_CLI
      (Build_vn (Some (lit "Fate/Stay")) [] (Some (lit "2004-01-29")) []
         (Some 40%Z))
      (Some (Build_release None None
               [Build_producer (Some (lit "TYPE-MOON")) true]))
      (Some (lit "18+")) (Some (lit "Romance")) None = Ok name
    /\ parse_bracket_info_CLI name = Ok (lit "040129", lit "TYPE-MOON").
Proof.
  exact (proj1 (round_trip_default_template ascii_db
    (Build_vn (Some (lit "Fate/Stay")) [] (Some (lit "2004-01-29")) []
       (Some 40%Z))
    (Some (Build_release None None
             [Build_producer (Some (lit "TYPE-MOON")) true]))
    (Some (lit "18+")) (Some (lit "Romance")) None
    eq_refl eq_refl eq_refl eq_refl eq_refl eq_refl)).
Defined.

Local Open Scope Z_scope.

(* ----------------------------------------------------------------- *)
(** ** Rounding to binary64 *)

Lemma div_le_cross n1 d1 n2 d2 :
  0 < d1 -> 0 < d2 -> n1 * d2 <= n2 * d1 -> n1 / d1 <= n2 / d2.
Proof.
  intros H1 H2 H. apply Z.div_le_lower_bound; [assumption|].
  pose proof (Z.mul_div_le n1 d1 H1).
  assert (d1 * (d2 * (n1 / d1)) <= d1 * n2) by nia.
  apply Z.mul_le_mono_pos_l in H3; assumption.
Qed.

Lemma rne_unfold num den :
  rne num den =
  let u := 2 ^ ulp_exp (num / den) in
  let m := num / (den * u) in
  let r := num - m * (den * u) in
  (match 2 * r ?= den * u with
   | Lt => m
   | Gt => m + 1
   | Eq => if Z.even m then m else m + 1
   end) * u.
Proof. reflexivity. Qed.

Lemma ulp_exp_nonneg q : 0 <= ulp_exp q.
Proof. unfold ulp_exp. lia. Qed.

Lemma ulp_pos q : 0 < 2 ^ ulp_exp q.
Proof. apply Z.pow_pos_nonneg; [lia|apply ulp_exp_nonneg]. Qed.

Lemma ulp_exp_mono q1 q2 : q1 <= q2 -> ulp_exp q1 <= ulp_exp q2.
Proof.
  intros H. unfold ulp_exp. pose proof (Z.log2_le_mono q1 q2 H). lia.
Qed.

(** The quotient has at most 53 significant bits above the spacing. *)
Lemma quotient_lt q : 0 <= q -> q < 2 ^ (53 + ulp_exp q).
Proof.
  intros Hq. destruct (Z.eq_dec q 0) as [->|Hn].
  - apply Z.pow_pos_nonneg; [lia|]. pose proof (ulp_exp_nonneg 0). lia.
  - assert (0 < q) by lia.
    pose proof (Z.log2_spec q H) as [_ Hlt].
    eapply Z.lt_le_trans; [exact Hlt|].
    apply Z.pow_le_mono_r; [lia|]. unfold ulp_exp. lia.
Qed.

Lemma quotient_ge q : 1 <= ulp_exp q -> 2 ^ (52 + ulp_exp q) <= q.
Proof.
  intros H. unfold ulp_exp in *.
  assert (Hl : 53 <= Z.log2 q) by lia.
  assert (0 < q).
  { destruct (Z.lt_trichotomy q 0) as [Hn|[->|Hp]]; [|simpl in Hl; lia|exact Hp].
    rewrite Z.log2_nonpos in Hl; lia. }
  pose proof (Z.log2_spec q H0) as [Hle _].
  replace (52 + Z.max 0 (Z.log2 q - 52)) with (Z.log2 q) by lia. exact Hle.
Qed.

(** The integer significand before rounding. *)
Lemma significand_bounds num den :
  0 <= num -> 0 < den ->
  let u := 2 ^ ulp_exp (num / den) in
  let m := num / (den * u) in
  0 <= m < 2 ^ 53
  /\ m * (den * u) <= num < (m + 1) * (den * u)
  /\ (1 <= ulp_exp (num / den) -> 2 ^ 52 <= m).
Proof.
  intros Hn Hd u m.
  assert (Hu : 0 < u) by apply ulp_pos.
  assert (Hdu : 0 < den * u) by nia.
  assert (Hq : 0 <= num / den) by (apply Z.div_pos; lia).
  assert (Hm : m = num / den / u).
  { unfold m. now rewrite Z.div_div by lia. }
  split; [|split].
  - split; [apply Z.div_pos; lia|].
    rewrite Hm. apply Z.div_lt_upper_bound; [assumption|].
    unfold u. rewrite <- Z.pow_add_r by (pose proof (ulp_exp_nonneg (num / den)); lia).
    rewrite Z.add_comm. now apply quotient_lt.
  - pose proof (Z.mul_div_le num (den * u) Hdu).
    pose proof (Z.mul_succ_div_gt num (den * u) Hdu).
    clear Hm. subst m. clearbody u. lia.
  - intros He. rewrite Hm. apply Z.div_le_lower_bound; [assumption|].
    unfold u. rewrite <- Z.pow_add_r by lia.
    rewrite Z.add_comm. now apply quotient_ge.
Qed.

Lemma rne_between num den :
  0 <= num -> 0 < den ->
  let u := 2 ^ ulp_exp (num / den) in
  let m := num / (den * u) in
  m * u <= rne num den <= (m + 1) * u.
Proof.
  intros Hn Hd u m. rewrite rne_unfold. cbv zeta. fold u. fold m.
  assert (Hu : 0 < u) by apply ulp_pos.
  clearbody m u.
  destruct (_ ?= _); [destruct (Z.even m)| |]; nia.
Qed.

Lemma rne_nonneg num den : 0 <= num -> 0 < den -> 0 <= rne num den.
Proof.
  intros Hn Hd. pose proof (rne_between num den Hn Hd) as H.
  pose proof (significand_bounds num den Hn Hd) as (Hm & _).
  pose proof (ulp_pos (num / den)). cbv zeta in *. nia.
Qed.

(** A number with at most 53 significant bits is its own rounding. *)
Lemma rne_exact c j den :
  0 <= c < 2 ^ 53 -> 0 <= j -> 0 < den ->
  rne (c * 2 ^ j * den) den = c * 2 ^ j.
Proof.
  intros Hc Hj Hd. rewrite rne_unfold. cbv zeta.
  rewrite Z.div_mul by lia.
  set (e := ulp_exp (c * 2 ^ j)).
  assert (He : 0 <= e <= j).
  { split; [apply ulp_exp_nonneg|]. unfold e, ulp_exp.
    destruct (Z.eq_dec c 0) as [->|Hn]; [simpl; lia|].
    rewrite Z.log2_mul_pow2 by lia.
    assert (Z.log2 c < 53) by (apply Z.log2_lt_pow2; lia). lia. }
  assert (Hu : 0 < 2 ^ e) by (apply Z.pow_pos_nonneg; lia).
  assert (HC : c * 2 ^ j * den = c * 2 ^ (j - e) * (den * 2 ^ e)).
  { replace j with ((j - e) + e) at 1 by lia.
    rewrite Z.pow_add_r by lia. ring. }
  rewrite HC, Z.div_mul by nia.
  replace (c * 2 ^ (j - e) * (den * 2 ^ e) - c * 2 ^ (j - e) * (den * 2 ^ e))
    with 0 by ring.
  assert (Hlt : (2 * 0 ?= den * 2 ^ e) = Lt) by (apply Z.compare_lt_iff; nia).
  rewrite Hlt. replace j with ((j - e) + e) at 2 by lia.
  rewrite Z.pow_add_r by lia. ring.
Qed.

(** Rounding is monotone. *)
Lemma rne_mono n1 d1 n2 d2 :
  0 <= n1 -> 0 < d1 -> 0 < d2 -> n1 * d2 <= n2 * d1 ->
  rne n1 d1 <= rne n2 d2.
Proof.
  intros Hn1 Hd1 Hd2 Hle.
  assert (Hn2 : 0 <= n2) by nia.
  assert (Hq : n1 / d1 <= n2 / d2) by now apply div_le_cross.
  pose proof (ulp_exp_mono _ _ Hq) as He.
  pose proof (ulp_exp_nonneg (n1 / d1)) as He1.
  pose proof (significand_bounds n1 d1 Hn1 Hd1) as (Hm1 & Hr1 & _).
  pose proof (significand_bounds n2 d2 Hn2 Hd2) as (Hm2 & Hr2 & Hbig).
  pose proof (rne_between n1 d1 Hn1 Hd1) as Hb1.
  pose proof (rne_between n2 d2 Hn2 Hd2) as Hb2.
  cbv zeta in *.
  destruct (Z.eq_dec (ulp_exp (n1 / d1)) (ulp_exp (n2 / d2))) as [Heq|Hne].
  - (* same spacing *)
    rewrite <- Heq in *.
    set (u := 2 ^ ulp_exp (n1 / d1)) in *.
    assert (Hu : 0 < u) by apply ulp_pos.
    set (m1 := n1 / (d1 * u)) in *. set (m2 := n2 / (d2 * u)) in *.
    assert (Hm : m1 <= m2).
    { apply div_le_cross; nia. }
    set (r1 := n1 - m1 * (d1 * u)). set (r2 := n2 - m2 * (d2 * u)).
    destruct (Z.eq_dec m1 m2) as [Em|Nm].
    + assert (Hr : r1 * d2 <= r2 * d1) by (unfold r1, r2; rewrite <- Em; nia).
      assert (Hr1' : 0 <= r1) by (unfold r1; lia).
      rewrite (rne_unfold n1 d1), (rne_unfold n2 d2). cbv zeta.
      rewrite <- Heq. fold u. fold m1 m2. fold r1 r2.
      apply Z.mul_le_mono_nonneg_r; [lia|]. rewrite <- Em.
      destruct (2 * r1 ?= d1 * u) eqn:C1.
      * apply Z.compare_eq_iff in C1.
        assert (A1 : 2 * r1 * d2 = d1 * u * d2) by (rewrite C1; ring).
        destruct (2 * r2 ?= d2 * u) eqn:C2.
        -- lia.
        -- apply Z.compare_lt_iff in C2. exfalso.
           assert (A2 : 2 * r2 * d1 < d2 * u * d1)
             by (apply Z.mul_lt_mono_pos_r; assumption).
           lia.
        -- destruct (Z.even m1); lia.
      * destruct (2 * r2 ?= d2 * u); [destruct (Z.even m1)| |]; lia.
      * apply Z.compare_gt_iff in C1.
        assert (A1 : d1 * u * d2 < 2 * r1 * d2)
          by (apply Z.mul_lt_mono_pos_r; assumption).
        destruct (2 * r2 ?= d2 * u) eqn:C2.
        -- apply Z.compare_eq_iff in C2. exfalso.
           assert (A2 : 2 * r2 * d1 = d2 * u * d1) by (rewrite C2; ring).
           lia.
        -- apply Z.compare_lt_iff in C2. exfalso.
           assert (A2 : 2 * r2 * d1 < d2 * u * d1)
             by (apply Z.mul_lt_mono_pos_r; assumption).
           lia.
        -- lia.
    + clearbody m1 m2 u. nia.
  - (* the spacing grows *)
    assert (Hlt : ulp_exp (n1 / d1) + 1 <= ulp_exp (n2 / d2)) by lia.
    assert (H52 : 2 ^ 52 <= n2 / (d2 * 2 ^ ulp_exp (n2 / d2))) by (apply Hbig; lia).
    assert (Hp : 2 ^ 53 * 2 ^ ulp_exp (n1 / d1)
                 <= 2 ^ 52 * 2 ^ ulp_exp (n2 / d2)).
    { rewrite <- !Z.pow_add_r by lia. apply Z.pow_le_mono_r; lia. }
    pose proof (ulp_pos (n1 / d1)). pose proof (ulp_pos (n2 / d2)).
    nia.
Qed.

(** A rounded number is its own rounding. *)
Lemma rne_idem num den :
  0 <= num -> 0 < den -> rne (rne num den) 1 = rne num den.
Proof.
  intros Hn Hd.
  pose proof (significand_bounds num den Hn Hd) as (Hm & _ & _).
  pose proof (ulp_exp_nonneg (num / den)) as He.
  cbv zeta in Hm.
  assert (E : exists c j, 0 <= c < 2 ^ 53 /\ 0 <= j /\ rne num den = c * 2 ^ j).
  { rewrite rne_unfold. cbv zeta.
    set (u := ulp_exp (num / den)) in *.
    set (m := num / (den * 2 ^ u)) in *.
    assert (C : forall m', m' = m \/ m' = m + 1 ->
                exists c j, 0 <= c < 2 ^ 53 /\ 0 <= j /\ m' * 2 ^ u = c * 2 ^ j).
    { intros m' [->| ->]; [exists m, u; lia|].
      destruct (Z.eq_dec (m + 1) (2 ^ 53)) as [E|N].
      - exists 1, (53 + u). split; [lia|]. split; [lia|].
        rewrite E, Z.pow_add_r by lia. ring.
      - exists (m + 1), u. lia. }
    destruct (_ ?= _); [destruct (Z.even m)| |]; apply C; auto. }
  destruct E as (c & j & Hc & Hj & ->).
  replace (c * 2 ^ j) with (c * 2 ^ j * 1) at 1 by ring.
  now apply rne_exact.
Qed.

Lemma mul_compare_pos k a b : 0 < k -> (k * a ?= k * b) = (a ?= b).
Proof.
  intros Hk. destruct (Z.compare_spec a b) as [E|L|G].
  - subst. apply Z.compare_refl.
  - apply Z.compare_lt_iff. nia.
  - apply Z.compare_gt_iff. nia.
Qed.

(** Numerator and denominator can be scaled together. *)
Lemma rne_scale k num den :
  0 < k -> 0 < den -> rne (k * num) (k * den) = rne num den.
Proof.
  intros Hk Hd. rewrite !rne_unfold. cbv zeta.
  rewrite Z.div_mul_cancel_l by lia.
  set (u := 2 ^ ulp_exp (num / den)).
  assert (Hu : 0 < u) by apply ulp_pos.
  replace (k * den * u) with (k * (den * u)) by ring.
  rewrite Z.div_mul_cancel_l by nia.
  set (m := num / (den * u)).
  replace (2 * (k * num - m * (k * (den * u))))
    with (k * (2 * (num - m * (den * u)))) by ring.
  now rewrite mul_compare_pos by assumption.
Qed.

(** Doubling is exact above the range of fixed spacing. *)
Lemma rne_double num den :
  0 < den -> 2 ^ 52 <= num / den -> rne (2 * num) den = 2 * rne num den.
Proof.
  intros Hd Hq.
  assert (Hq0 : 0 < num / den) by (assert (0 < 2 ^ 52) by reflexivity; lia).
  assert (Hdbl : Z.log2 (2 * num / den) = Z.log2 (num / den) + 1).
  { pose proof (Z.div_mod num den) as E.
    pose proof (Z.mod_pos_bound num den Hd) as B.
    assert (Hc : 2 * num / den = 2 * (num / den)
                 \/ 2 * num / den = 2 * (num / den) + 1).
    { destruct (Z_lt_le_dec (2 * (num mod den)) den).
      - left. symmetry. apply (Z.div_unique _ _ _ (2 * (num mod den))); lia.
      - right. symmetry.
        apply (Z.div_unique _ _ _ (2 * (num mod den) - den)); lia. }
    destruct Hc as [-> | ->].
    - rewrite Z.log2_double by assumption. lia.
    - rewrite Z.log2_succ_double by assumption. lia. }
  assert (H52 : 52 <= Z.log2 (num / den)).
  { apply Z.log2_le_pow2; [assumption|exact Hq]. }
  assert (He : ulp_exp (2 * num / den) = ulp_exp (num / den) + 1).
  { unfold ulp_exp. rewrite Hdbl. lia. }
  rewrite !rne_unfold. cbv zeta. rewrite He.
  pose proof (ulp_exp_nonneg (num / den)) as Hnn.
  rewrite Z.pow_add_r by lia. change (2 ^ 1) with 2.
  set (u := 2 ^ ulp_exp (num / den)).
  assert (Hu : 0 < u) by apply ulp_pos.
  replace (den * (u * 2)) with (2 * (den * u)) by ring.
  rewrite Z.div_mul_cancel_l by nia.
  set (m := num / (den * u)).
  replace (2 * (2 * num - m * (2 * (den * u))))
    with (2 * (2 * (num - m * (den * u)))) by ring.
  rewrite mul_compare_pos by lia.
  destruct (_ ?= _); [destruct (Z.even m)| |]; ring.
Qed.

(** A rounding stays below any bound that is itself a binary64 number. *)
Lemma rne_le_repr num den c j :
  0 <= num -> 0 < den -> 0 <= c < 2 ^ 53 -> 0 <= j ->
  num <= c * 2 ^ j * den -> rne num den <= c * 2 ^ j.
Proof.
  intros Hn Hd Hc Hj H.
  rewrite <- (rne_exact c j 1 Hc Hj) by lia.
  apply rne_mono; lia.
Qed.

Local Close Scope Z_scope.

(* ----------------------------------------------------------------- *)
(** ** Matching blocks *)

Lemma j2len_get_spec row j :
  j2len_get row j = 0 \/ In (j, j2len_get row j) row.
Proof.
  unfold j2len_get.
  destruct (find (fun p => Nat.eqb (fst p) j) row) as [[j' k]|] eqn:E; [|now left].
  right. apply find_some in E as [Hin Hj]. apply Nat.eqb_eq in Hj.
  simpl in *. now subst.
Qed.

Lemma flm_inner_in alo ahi blo bhi i j2len :
  alo <= i -> i < ahi -> row_in alo blo bhi i j2len ->
  forall js newrow best,
    row_in alo blo bhi (S i) newrow -> block_in alo ahi blo bhi best ->
    row_in alo blo bhi (S i) (fst (flm_inner i blo bhi j2len js newrow best))
    /\ block_in alo ahi blo bhi (snd (flm_inner i blo bhi j2len js newrow best)).
Proof.
  intros Hi Hi' Hrow. induction js as [|j js IH]; intros newrow best Hnew Hbest.
  - now split.
  - cbn [flm_inner].
    destruct (Nat.ltb j blo) eqn:E1; [now apply IH|].
    destruct (Nat.leb bhi j) eqn:E2; [now split|].
    apply Nat.ltb_ge in E1. apply Nat.leb_gt in E2.
    set (k := (match j with O => 0 | S j' => j2len_get j2len j' end) + 1).
    assert (Hk : 1 <= k /\ k + alo <= S i /\ k + blo <= j + 1).
    { unfold k. destruct j as [|j']; [lia|].
      destruct (j2len_get_spec j2len j') as [-> | Hin]; [lia|].
      apply Hrow in Hin. lia. }
    apply IH.
    + intros j0 k0 [[= <- <-]|Hin]; [lia|now apply Hnew].
    + destruct (Nat.ltb (snd best) k); [|assumption].
      unfold block_in. cbn [fst snd]. lia.
Qed.

Lemma flm_fold_in a b alo ahi blo bhi n : forall i0 st,
  alo <= i0 -> i0 + n <= ahi ->
  row_in alo blo bhi i0 (fst st) -> block_in alo ahi blo bhi (snd st) ->
  block_in alo ahi blo bhi
    (snd (fold_left (flm_outer a b blo bhi) (seq i0 n) st)).
Proof.
  induction n as [|n IH]; intros i0 st H0 Hn Hrow Hbest; [assumption|].
  cbn [seq fold_left]. apply IH; try lia; unfold flm_outer.
  - apply flm_inner_in with (ahi := ahi); try assumption; try lia.
    intros j k [].
  - apply flm_inner_in; try assumption; try lia. intros j k [].
Qed.

Lemma extend_left_in a b alo ahi blo bhi besti : forall bestj bestsize,
  block_in alo ahi blo bhi (besti, bestj, bestsize) ->
  block_in alo ahi blo bhi (extend_left a b alo blo besti bestj bestsize).
Proof.
  induction besti as [|i' IH]; intros bestj bestsize H; [assumption|].
  cbn [extend_left].
  destruct (_ && _) eqn:E; [|assumption].
  apply andb_true_iff in E as [E _]. apply andb_true_iff in E as [E1 E2].
  apply Nat.ltb_lt in E1, E2. apply IH.
  unfold block_in in *. cbn [fst snd] in *. lia.
Qed.

Lemma extend_right_in a b alo ahi blo bhi besti bestj fuel : forall bestsize,
  block_in alo ahi blo bhi (besti, bestj, bestsize) ->
  block_in alo ahi blo bhi
    (besti, bestj, extend_right fuel a b ahi bhi besti bestj bestsize).
Proof.
  induction fuel as [|fuel IH]; intros bestsize H; [assumption|].
  cbn [extend_right].
  destruct (_ && _) eqn:E; [|assumption].
  apply andb_true_iff in E as [E _]. apply andb_true_iff in E as [E1 E2].
  apply Nat.ltb_lt in E1, E2. apply IH.
  unfold block_in in *. cbn [fst snd] in *. lia.
Qed.

(** The longest match lies inside the window it was searched in. *)
Lemma find_longest_match_in a b alo ahi blo bhi :
  alo <= ahi -> blo <= bhi ->
  block_in alo ahi blo bhi (find_longest_match a b alo ahi blo bhi).
Proof.
  intros Ha Hb. unfold find_longest_match.
  pose proof (flm_fold_in a b alo ahi blo bhi (ahi - alo) alo ([], (alo, blo, 0)))
    as H.
  destruct (fold_left _ _ _) as [row [[bi bj] bs]].
  assert (H1 : block_in alo ahi blo bhi (bi, bj, bs)).
  { apply H; try lia; [intros j k []|]. unfold block_in. cbn [fst snd]. lia. }
  pose proof (extend_left_in a b alo ahi blo bhi bi bj bs H1) as H2.
  destruct (extend_left a b alo blo bi bj bs) as [[bi' bj'] bs'].
  now apply extend_right_in.
Qed.

Lemma total_size_app l1 l2 : total_size (l1 ++ l2) = total_size l1 + total_size l2.
Proof. induction l1 as [|x l IH]; simpl; [reflexivity|]. rewrite IH. lia. Qed.

(** The blocks found never cover more than either sequence. *)
Lemma blocks_loop_size a b fuel : forall queue acc la lb,
  Forall window_ok queue ->
  total_size acc + width_a queue <= la ->
  total_size acc + width_b queue <= lb ->
  total_size (blocks_loop fuel a b queue acc) <= la
  /\ total_size (blocks_loop fuel a b queue acc) <= lb.
Proof.
  induction fuel as [|fuel IH]; intros queue acc la lb Hq Ha Hb; [simpl; lia|].
  destruct queue as [|[[[alo ahi] blo] bhi] queue']; [simpl; lia|].
  cbn [blocks_loop]. inversion Hq as [|? ? Hw Hq']; subst.
  unfold window_ok in Hw. cbn [fst snd] in Hw.
  pose proof (find_longest_match_in a b alo ahi blo bhi (proj1 Hw) (proj2 Hw)) as Hm.
  destruct (find_longest_match a b alo ahi blo bhi) as [[i j] k].
  unfold block_in in Hm. cbn [fst snd] in Hm.
  cbn [width_a width_b fold_right fst snd] in Ha, Hb.
  fold (width_a queue') in Ha. fold (width_b queue') in Hb.
  destruct (Nat.eqb k 0); [apply IH; try assumption; lia|].
  apply IH.
  - destruct (_ && _); destruct (_ && _); repeat constructor;
      try assumption; cbn [fst snd]; lia.
  - rewrite total_size_app. cbn [total_size fold_right snd].
    destruct (_ && _); destruct (_ && _);
      cbn [width_a fold_right fst snd]; fold (width_a queue'); lia.
  - rewrite total_size_app. cbn [total_size fold_right snd].
    destruct (_ && _); destruct (_ && _);
      cbn [width_b fold_right fst snd]; fold (width_b queue'); lia.
Qed.

Lemma matches_le a b : matches a b <= length a /\ matches a b <= length b.
Proof.
  unfold matches, matching_blocks.
  apply (blocks_loop_size a b _ [(0, length a, 0, length b)] []).
  - repeat constructor; cbn [fst snd]; lia.
  - simpl. lia.
  - simpl. lia.
Qed.

(* ----------------------------------------------------------------- *)
(** ** Range of the scores *)

Local Open Scope Z_scope.

(** Side conditions of the rounding lemmas. *)
Ltac bound := first [lia | split; [lia|reflexivity] | nia].

Lemma unit_pos : 0 < 2 ^ 1074.
Proof. reflexivity. Qed.

Lemma rne_le_one num den :
  0 <= num -> 0 < den -> num <= F_ONE * den -> rne num den <= F_ONE.
Proof.
  intros Hn Hd H. unfold F_ONE in *.
  replace (2 ^ 1074) with (1 * 2 ^ 1074) in * by ring.
  apply rne_le_repr; bound.
Qed.

Lemma rne_zero den : 0 < den -> rne 0 den = 0.
Proof.
  intros Hd. replace 0 with (0 * 2 ^ 0 * den) at 1 by ring.
  rewrite rne_exact by bound. ring.
Qed.

Lemma f64_of_int_ge_one n : 1 <= n -> F_ONE <= f64_of_int n.
Proof.
  intros Hn. unfold f64_of_int, F_ONE, F_UNIT.
  pose proof unit_pos as HU.
  replace (2 ^ 1074) with (rne (1 * 2 ^ 1074 * 1) 1) at 1.
  - apply rne_mono; nia.
  - rewrite rne_exact by bound. ring.
Qed.

(** [2.0 * matches / length] is in [0, 1] when the matches are at most half
    the total length. *)
Lemma ratio_formula_range M T :
  0 <= M -> 1 <= T -> 2 * M <= T ->
  0 <= fdiv (fmul F_TWO (f64_of_int M)) (f64_of_int T) <= F_ONE.
Proof.
  intros HM HT H2.
  pose proof unit_pos as HU.
  pose proof (f64_of_int_ge_one T HT) as Hth.
  assert (Hth0 : 0 < f64_of_int T) by (unfold F_ONE in Hth; lia).
  assert (Hx : fmul F_TWO (f64_of_int M) = rne (2 * f64_of_int M) 1).
  { unfold fmul, F_TWO, F_UNIT.
    replace (2 ^ 1075 * f64_of_int M) with (2 ^ 1074 * (2 * f64_of_int M))
      by (change (2 ^ 1075) with (2 ^ 1074 * 2); ring).
    replace (2 ^ 1074) with (2 ^ 1074 * 1) at 2 by ring.
    apply rne_scale; lia. }
  assert (Hle : 0 <= fmul F_TWO (f64_of_int M) <= f64_of_int T).
  { rewrite Hx. destruct (Z.eq_dec M 0) as [->|HM0].
    - unfold f64_of_int at 1. cbn [Z.mul]. rewrite rne_zero by lia.
      cbn [Z.mul]. rewrite rne_zero by lia. lia.
    - pose proof (f64_of_int_ge_one M ltac:(lia)) as Hmh.
      assert (H52 : 2 ^ 52 <= 2 ^ 1074) by (apply Z.pow_le_mono_r; lia).
      unfold F_ONE in Hmh.
      rewrite rne_double by (rewrite ?Z.div_1_r; lia).
      unfold f64_of_int at 1 2. rewrite rne_idem by (unfold F_UNIT; nia).
      split; [apply Z.mul_nonneg_nonneg; [lia|apply rne_nonneg; unfold F_UNIT; nia]|].
      rewrite <- rne_double by (rewrite ?Z.div_1_r; unfold F_UNIT; nia).
      unfold f64_of_int. apply rne_mono; unfold F_UNIT; nia. }
  unfold fdiv. split.
  - apply rne_nonneg; unfold F_UNIT; nia.
  - apply rne_le_one; [unfold F_UNIT; nia|assumption|].
    unfold F_ONE, F_UNIT. nia.
Qed.

Lemma ratio_range a b : 0 <= ratio a b <= F_ONE.
Proof.
  unfold ratio.
  destruct (Nat.eqb (length a + length b) 0) eqn:E.
  - unfold F_ONE. pose proof unit_pos. lia.
  - apply Nat.eqb_neq in E. destruct (matches_le a b).
    apply ratio_formula_range; lia.
Qed.

Lemma half_range : 0 <= F_HALF <= F_ONE.
Proof. unfold F_HALF, F_ONE. split; [apply Z.pow_nonneg|apply Z.pow_le_mono_r]; lia. Qed.

(** The floating-point mean of three numbers of [0, 1] is in [0, 1]. *)
Lemma mean3_range t d p :
  0 <= t <= F_ONE -> 0 <= d <= F_ONE -> 0 <= p <= F_ONE ->
  0 <= fdiv (fadd (fadd t d) p) F_THREE <= F_ONE.
Proof.
  intros Ht Hd Hp. pose proof unit_pos as HU.
  unfold F_ONE in *.
  assert (H1 : 0 <= fadd t d <= 1 * 2 ^ 1075).
  { unfold fadd. split; [apply rne_nonneg; lia|].
    apply rne_le_repr; try (change (2 ^ 1075) with (2 ^ 1074 * 2)); bound. }
  assert (H2 : 0 <= fadd (fadd t d) p <= 3 * 2 ^ 1074).
  { unfold fadd at 1. split; [apply rne_nonneg; lia|].
    change (2 ^ 1075) with (2 ^ 1074 * 2) in H1.
    apply rne_le_repr; bound. }
  unfold fdiv, F_THREE, F_UNIT. split.
  - apply rne_nonneg; nia.
  - replace (2 ^ 1074) with (1 * 2 ^ 1074) at 3 by ring.
    apply rne_le_repr; bound.
Qed.

Lemma fmax_range x y :
  0 <= x <= F_ONE -> 0 <= y <= F_ONE -> 0 <= fmax x y <= F_ONE.
Proof. intros Hx Hy. unfold fmax. now destruct (x <? y). Qed.

Lemma title_sim_GUI_range U q cand : 0 <= title_sim_GUI U q cand <= F_ONE.
Proof.
  unfold title_sim_GUI. apply fmax_range; [apply ratio_range|].
  assert (G : forall l acc, 0 <= acc <= F_ONE ->
            0 <= fold_left (fun sim_jp t =>
                              fmax sim_jp (ratio (lower U q) (lower U (get_or t []))))
                   l acc <= F_ONE).
  { induction l as [|x l IH]; intros acc Hacc; [assumption|].
    cbn [fold_left]. apply IH, fmax_range; [assumption|apply ratio_range]. }
  apply G. unfold F_ZERO, F_ONE. pose proof unit_pos. lia.
Qed.

Local Close Scope Z_scope.

(* ----------------------------------------------------------------- *)
(** ** One half twice against one *)

Local Open Scope Z_scope.

(** The rounding error is at most half the spacing. *)
Lemma rne_half_ulp num den :
  0 <= num -> 0 < den ->
  let u := 2 ^ ulp_exp (num / den) in
  exists m', rne num den = m' * u
    /\ 2 * Z.abs (rne num den * den - num) <= den * u.
Proof.
  intros Hn Hd u. rewrite rne_unfold. cbv zeta. fold u.
  assert (Hu : 0 < u) by apply ulp_pos.
  assert (HD : 0 < den * u) by nia.
  set (D := den * u) in *.
  pose proof (Z.div_mod num D ltac:(lia)) as E.
  pose proof (Z.mod_pos_bound num D HD) as B.
  set (m := num / D) in *.
  assert (Hr : num - m * D = num mod D) by lia.
  rewrite Hr. set (r := num mod D) in *.
  destruct (Z.compare_spec (2 * r) D) as [He|Hl|Hg].
  - destruct (Z.even m); eexists; (split; [reflexivity|]);
      unfold D in *; nia.
  - eexists. split; [reflexivity|]. unfold D in *. nia.
  - eexists. split; [reflexivity|]. unfold D in *. nia.
Qed.

(** A rounding stays above any bound that is itself a binary64 number. *)
Lemma rne_ge_repr num den c j :
  0 < den -> 0 <= c < 2 ^ 53 -> 0 <= j ->
  c * 2 ^ j * den <= num -> c * 2 ^ j <= rne num den.
Proof.
  intros Hd Hc Hj H.
  rewrite <- (rne_exact c j 1 Hc Hj) by lia.
  assert (0 <= 2 ^ j) by (apply Z.pow_nonneg; lia).
  apply rne_mono; nia.
Qed.

Lemma ulp_exp_third x :
  2 ^ 1074 <= x <= 2 ^ 1075 ->
  2 ^ ulp_exp (x / 3) = 2 ^ 1020 \/ 2 ^ ulp_exp (x / 3) = 2 ^ 1021.
Proof.
  intros Hx. unfold ulp_exp.
  assert (Hq : 2 ^ 1072 <= x / 3 < 2 ^ 1074).
  { split.
    - apply Z.div_le_lower_bound; [lia|].
      change (2 ^ 1074) with (4 * 2 ^ 1072) in Hx. lia.
    - apply Z.div_lt_upper_bound; [lia|].
      change (2 ^ 1075) with (2 * 2 ^ 1074) in Hx. lia. }
  assert (Hl : 1072 <= Z.log2 (x / 3) < 1074).
  { split.
    - apply Z.log2_le_pow2; lia.
    - apply Z.log2_lt_pow2; lia. }
  assert (C : Z.log2 (x / 3) = 1072 \/ Z.log2 (x / 3) = 1073) by lia.
  destruct C as [-> | ->]; [left|right]; reflexivity.
Qed.


Lemma grid_gap g k c : 0 < g -> 6 * (k * g) <= c * g -> 6 * k <= c.
Proof.
  intros Hg H. apply (Z.mul_le_mono_pos_r _ _ g Hg).
  now rewrite <- Z.mul_assoc.
Qed.

(** Dividing two neighbours of the grid of spacing [2^-52] by three gives
    results at most [2^-53] apart. *)
Lemma third_of_neighbours n :
  2 ^ 52 <= n < 2 ^ 53 ->
  rne ((n + 1) * 2 ^ 1022) 3 - rne (n * 2 ^ 1022) 3 <= 2 ^ 1021.
Proof.
  intros Hn.
  assert (H1 : 2 ^ 1074 <= n * 2 ^ 1022 <= 2 ^ 1075).
  { change (2 ^ 1074) with (2 ^ 52 * 2 ^ 1022).
    change (2 ^ 1075) with (2 ^ 53 * 2 ^ 1022).
    assert (0 < 2 ^ 1022) by reflexivity.
    split; apply Z.mul_le_mono_nonneg_r; lia. }
  assert (H2 : 2 ^ 1074 <= (n + 1) * 2 ^ 1022 <= 2 ^ 1075).
  { change (2 ^ 1074) with (2 ^ 52 * 2 ^ 1022).
    change (2 ^ 1075) with (2 ^ 53 * 2 ^ 1022).
    assert (0 < 2 ^ 1022) by reflexivity.
    split; apply Z.mul_le_mono_nonneg_r; lia. }
  destruct (rne_half_ulp (n * 2 ^ 1022) 3 ltac:(lia) ltac:(lia))
    as (kl & El & Bl).
  destruct (rne_half_ulp ((n + 1) * 2 ^ 1022) 3 ltac:(lia) ltac:(lia))
    as (kh & Eh & Bh).
  cbv zeta in *.
  pose proof (ulp_exp_third _ H1) as Ul.
  pose proof (ulp_exp_third _ H2) as Uh.
  clear H1 H2.
  set (lo := rne (n * 2 ^ 1022) 3) in *.
  set (hi := rne ((n + 1) * 2 ^ 1022) 3) in *.
  set (ul := 2 ^ ulp_exp (n * 2 ^ 1022 / 3)) in *.
  set (uh := 2 ^ ulp_exp ((n + 1) * 2 ^ 1022 / 3)) in *.
  clearbody lo hi ul uh.
  assert (Hg : 0 < 2 ^ 1020) by reflexivity.
  replace ((n + 1) * 2 ^ 1022) with (4 * (n * 2 ^ 1020) + 4 * 2 ^ 1020) in Bh
    by (change (2 ^ 1022) with (4 * 2 ^ 1020); ring).
  replace (n * 2 ^ 1022) with (4 * (n * 2 ^ 1020)) in Bl
    by (change (2 ^ 1022) with (4 * 2 ^ 1020); ring).
  change (2 ^ 1021) with (2 * 2 ^ 1020) in *.
  set (g := 2 ^ 1020) in *. clearbody g.
  set (N := n * g) in *. clearbody N. clear Hn.
  assert (S : 6 * (hi - lo) <= 8 * g + 3 * (ul + uh)) by lia.
  destruct Ul as [-> | ->], Uh as [-> | ->].
  - assert (E : hi - lo = (kh - kl) * g) by (rewrite El, Eh; ring).
    rewrite E in *.
    assert (K : 6 * (kh - kl) <= 14) by (apply (grid_gap g); lia).
    assert (kh - kl <= 2) by lia. nia.
  - assert (E : hi - lo = (2 * kh - kl) * g) by (rewrite El, Eh; ring).
    rewrite E in *.
    assert (K : 6 * (2 * kh - kl) <= 17) by (apply (grid_gap g); lia).
    assert (2 * kh - kl <= 2) by lia. nia.
  - assert (E : hi - lo = (kh - 2 * kl) * g) by (rewrite El, Eh; ring).
    rewrite E in *.
    assert (K : 6 * (kh - 2 * kl) <= 17) by (apply (grid_gap g); lia).
    assert (kh - 2 * kl <= 2) by lia. nia.
  - assert (E : hi - lo = (2 * (kh - kl)) * g) by (rewrite El, Eh; ring).
    rewrite E in *.
    assert (K : 6 * (2 * (kh - kl)) <= 20) by (apply (grid_gap g); lia).
    assert (2 * (kh - kl) <= 2) by lia. nia.
Qed.

(** Between two neighbours of the grid of spacing [2^-52], rounding stays
    between them. *)
Lemma rne_grid_bounds x n :
  0 <= n -> n + 1 <= 2 ^ 53 ->
  n * 2 ^ 1022 <= x <= (n + 1) * 2 ^ 1022 ->
  n * 2 ^ 1022 <= rne x 1 <= (n + 1) * 2 ^ 1022.
Proof.
  intros Hn Hn1 Hx.
  assert (Hg : 0 < 2 ^ 1022) by reflexivity.
  assert (H0 : 0 <= n * 2 ^ 1022) by (apply Z.mul_nonneg_nonneg; lia).
  split.
  - apply rne_ge_repr; lia.
  - destruct (Z.eq_dec (n + 1) (2 ^ 53)) as [E|E].
    + rewrite E in *. change (2 ^ 53 * 2 ^ 1022) with (1 * 2 ^ 1075) in *.
      apply rne_le_repr; lia.
    + apply rne_le_repr; lia.
Qed.

Lemma fdiv_three x : fdiv x F_THREE = rne x 3.
Proof.
  unfold fdiv, F_THREE, F_UNIT.
  replace (x * 2 ^ 1074) with (2 ^ 1074 * x) by ring.
  replace (3 * 2 ^ 1074) with (2 ^ 1074 * 3) by ring.
  apply rne_scale; [reflexivity|lia].
Qed.

(** Adding one half twice and adding one differ, after the division by
    three, by at most [2^-53]. *)
Lemma two_halves_close t :
  0 <= t <= F_ONE ->
  Z.abs (fdiv (fadd (fadd t F_HALF) F_HALF) F_THREE
         - fdiv (fadd t F_ONE) F_THREE) <= 2 ^ 1021.
Proof.
  intros Ht. unfold F_ONE in Ht.
  destruct (Z.eq_dec t (2 ^ 1074)) as [->|Hne].
  { vm_compute. discriminate. }
  rewrite !fdiv_three. unfold fadd, F_HALF, F_ONE.
  set (n := (t + 2 ^ 1074) / 2 ^ 1022).
  assert (Hg : 0 < 2 ^ 1022) by reflexivity.
  assert (Hn : n * 2 ^ 1022 <= t + 2 ^ 1074 < (n + 1) * 2 ^ 1022).
  { unfold n. split.
    - rewrite Z.mul_comm. apply Z.mul_div_le; lia.
    - rewrite Z.mul_comm. apply Z.mul_succ_div_gt; lia. }
  assert (Hr : 2 ^ 52 <= n < 2 ^ 53).
  { unfold n. split.
    - apply Z.div_le_lower_bound; [lia|].
      change (2 ^ 1022 * 2 ^ 52) with (2 ^ 1074). lia.
    - apply Z.div_lt_upper_bound; [lia|].
      change (2 ^ 1022 * 2 ^ 53) with (2 ^ 1075).
      change (2 ^ 1075) with (2 * 2 ^ 1074). lia. }
  clearbody n.
  assert (E73 : 2 ^ 1073 = 2 ^ 51 * 2 ^ 1022) by reflexivity.
  assert (E74 : 2 ^ 1074 = 2 ^ 52 * 2 ^ 1022) by reflexivity.
  assert (P51 : 2 ^ 51 = 2251799813685248) by reflexivity.
  assert (P52 : 2 ^ 52 = 4503599627370496) by reflexivity.
  assert (P53 : 2 ^ 53 = 9007199254740992) by reflexivity.
  assert (Hd : n * 2 ^ 1022 <= rne (t + 2 ^ 1074) 1 <= (n + 1) * 2 ^ 1022).
  { apply rne_grid_bounds; lia. }
  assert (Ha : (n - 2 ^ 51) * 2 ^ 1022 <= rne (t + 2 ^ 1073) 1
               <= (n - 2 ^ 51 + 1) * 2 ^ 1022).
  { apply rne_grid_bounds; lia. }
  assert (Hb : n * 2 ^ 1022 <= rne (rne (t + 2 ^ 1073) 1 + 2 ^ 1073) 1
               <= (n + 1) * 2 ^ 1022).
  { apply rne_grid_bounds; lia. }
  set (d := rne (t + 2 ^ 1074) 1) in *.
  set (b := rne (rne (t + 2 ^ 1073) 1 + 2 ^ 1073) 1) in *.
  clearbody d b. clear Ha.
  assert (H0 : 0 <= n * 2 ^ 1022) by (apply Z.mul_nonneg_nonneg; lia).
  assert (L1 : rne (n * 2 ^ 1022) 3 <= rne b 3) by (apply rne_mono; lia).
  assert (L2 : rne (n * 2 ^ 1022) 3 <= rne d 3) by (apply rne_mono; lia).
  assert (L3 : rne b 3 <= rne ((n + 1) * 2 ^ 1022) 3) by (apply rne_mono; lia).
  assert (L4 : rne d 3 <= rne ((n + 1) * 2 ^ 1022) 3) by (apply rne_mono; lia).
  pose proof (third_of_neighbours n Hr) as G.
  lia.
Qed.

Local Close Scope Z_scope.

(* ----------------------------------------------------------------- *)
(** ** The composite confidence *)

(** C3 (as stated) fails in its last equation: with a title score of
    1/6 and no hints, the confidence [(t + 0.5 + 0.5) / 3] computed in
    binary64 is 0.38888888888888884, one unit in the last place below
    [(t + 1.0) / 3] = 0.3888888888888889. *)
Lemma confidence_is_not_title_plus_one :
  title_conf_CLI ascii_db (lit "abcdef")
    (Build_vn (Some (lit "axxxxx")) [] None [] None)
  = fdiv (f64_of_int 1) (f64_of_int 6)
  /\ composite_conf_CLI ascii_db (lit "abcdef") [] []
       (Build_vn (Some (lit "axxxxx")) [] None [] None)
     <> fdiv (fadd (title_conf_CLI ascii_db (lit "abcdef")
                      (Build_vn (Some (lit "axxxxx")) [] None [] None))
                   F_ONE)
             F_THREE
  /\ (fdiv (fadd (title_conf_CLI ascii_db (lit "abcdef")
                    (Build_vn (Some (lit "axxxxx")) [] None [] None))
                 F_ONE)
           F_THREE
      - composite_conf_CLI ascii_db (lit "abcdef") [] []
          (Build_vn (Some (lit "axxxxx")) [] None [] None)
      = 2 ^ 1020)%Z.
Proof.
  split; [vm_compute; reflexivity|].
  split; [apply Z.eqb_neq; vm_compute; reflexivity|vm_compute; reflexivity].
Qed.

(** C3 (amended): in both front-ends each of the three sub-scores is in
    [0, 1]; the confidence is their unweighted mean computed in binary64
    as [((title + date) + producer) / 3], and is itself in [0, 1]; when the
    expected date and the expected producer are both empty it is exactly
    [((title + 0.5) + 0.5) / 3] in that arithmetic, which is within
    [2^-53] of [(title + 1.0) / 3] computed in binary64 but not always
    equal to it. *)
Theorem confidence_spec (U : unicode_db)
  (search_query expected_date expected_producer : str) (candidate : vn) :
  ((0 <= title_conf_CLI U search_query candidate <= F_ONE
    /\ 0 <= date_conf_CLI expected_date candidate <= F_ONE
    /\ 0 <= prod_conf_CLI U expected_producer candidate <= F_ONE)
   /\ composite_conf_CLI U search_query expected_date expected_producer candidate
      = fdiv (fadd (fadd (title_conf_CLI U search_query candidate)
                         (date_conf_CLI expected_date candidate))
                   (prod_conf_CLI U expected_producer candidate))
             F_THREE
   /\ 0 <= composite_conf_CLI U search_query expected_date expected_producer
             candidate <= F_ONE
   /\ composite_conf_CLI U search_query [] [] candidate
      = fdiv (fadd (fadd (title_conf_CLI U search_query candidate) F_HALF)
                   F_HALF)
             F_THREE
   /\ Z.abs (composite_conf_CLI U search_query [] [] candidate
             - fdiv (fadd (title_conf_CLI U search_query candidate) F_ONE)
                    F_THREE) <= 2 ^ 1021)%Z
  /\ ((0 <= title_sim_GUI U search_query candidate <= F_ONE
       /\ 0 <= date_sim_GUI expected_date candidate <= F_ONE
       /\ 0 <= dev_sim_GUI U expected_producer candidate <= F_ONE)
      /\ match_GUI U search_query expected_date expected_producer candidate
         = fdiv (fadd (fadd (title_sim_GUI U search_query candidate)
                            (date_sim_GUI expected_date candidate))
                      (dev_sim_GUI U expected_producer candidate))
                F_THREE
      /\ 0 <= match_GUI U search_query expected_date expected_producer
                candidate <= F_ONE
      /\ match_GUI U search_query [] [] candidate
         = fdiv (fadd (fadd (title_sim_GUI U search_query candidate) F_HALF)
                      F_HALF)
                F_THREE
      /\ Z.abs (match_GUI U search_query [] [] candidate
                - fdiv (fadd (title_sim_GUI U search_query candidate) F_ONE)
                       F_THREE) <= 2 ^ 1021)%Z.
Proof.
  assert (Ht : (0 <= title_conf_CLI U search_query candidate <= F_ONE)%Z)
    by apply ratio_range.
  assert (Hd : (0 <= date_conf_CLI expected_date candidate <= F_ONE)%Z).
  { unfold date_conf_CLI. destruct (_ && _); [apply ratio_range|apply half_range]. }
  assert (Hp : (0 <= prod_conf_CLI U expected_producer candidate <= F_ONE)%Z).
  { unfold prod_conf_CLI. destruct (_ && _); [apply ratio_range|apply half_range]. }
  assert (Ht' : (0 <= title_sim_GUI U search_query candidate <= F_ONE)%Z)
    by apply title_sim_GUI_range.
  assert (Hd' : (0 <= date_sim_GUI expected_date candidate <= F_ONE)%Z).
  { unfold date_sim_GUI. destruct (_ && _); [apply ratio_range|apply half_range]. }
  assert (Hp' : (0 <= dev_sim_GUI U expected_producer candidate <= F_ONE)%Z).
  { unfold dev_sim_GUI. destruct (_ && _); [apply ratio_range|apply half_range]. }
  split.
  - split; [tauto|]. split; [reflexivity|].
    split; [now apply mean3_range|]. split; [reflexivity|].
    change (composite_conf_CLI U search_query [] [] candidate)
      with (fdiv (fadd (fadd (title_conf_CLI U search_query candidate) F_HALF)
                       F_HALF) F_THREE).
    now apply two_halves_close.
  - split; [tauto|]. split; [reflexivity|].
    split; [now apply mean3_range|]. split; [reflexivity|].
    change (match_GUI U search_query [] [] candidate)
      with (fdiv (fadd (fadd (title_sim_GUI U search_query candidate) F_HALF)
                       F_HALF) F_THREE).
    now apply two_halves_close.
Qed.

(** The bound is reached: with three matching characters out of twenty-
    eight the title score is 6/28, and the confidence is [2^-53] above
    [(title + 1.0) / 3]. *)
Example confidence_gap_is_reached :
  title_conf_CLI ascii_db (lit "abcdefghijklmn")
    (Build_vn (Some (lit "abc00000000000")) [] None [] None)
  = fdiv (f64_of_int 6) (f64_of_int 28)
  /\ (composite_conf_CLI ascii_db (lit "abcdefghijklmn") [] []
        (Build_vn (Some (lit "abc00000000000")) [] None [] None)
      - fdiv (fadd (title_conf_CLI ascii_db (lit "abcdefghijklmn")
                      (Build_vn (Some (lit "abc00000000000")) [] None [] None))
                   F_ONE)
             F_THREE
      = 2 ^ 1021)%Z.
Proof. split; vm_compute; reflexivity. Qed.

(** The two values of the counterexample, computed by the machine's
    binary64 arithmetic, are those of the model. *)
Example confidence_on_hardware :
  units_of_float ((2 * 1 / 12 + 0.5 + 0.5) / 3)%float
  = Some (composite_conf_CLI ascii_db (lit "abcdef") [] []
            (Build_vn (Some (lit "axxxxx")) [] None [] None))
  /\ units_of_float ((2 * 1 / 12 + 1) / 3)%float
     = Some (fdiv (fadd (title_conf_CLI ascii_db (lit "abcdef")
                           (Build_vn (Some (lit "axxxxx")) [] None [] None))
                        F_ONE)
                  F_THREE).
Proof. split; vm_compute; reflexivity. Qed.

(* ----------------------------------------------------------------- *)
(** ** Enough fuel *)

Lemma extend_right_fuel a b ahi bhi besti bestj fuel1 : forall fuel2 bestsize,
  ahi <= besti + bestsize + fuel1 -> ahi <= besti + bestsize + fuel2 ->
  extend_right fuel1 a b ahi bhi besti bestj bestsize
  = extend_right fuel2 a b ahi bhi besti bestj bestsize.
Proof.
  induction fuel1 as [|f1 IH]; intros fuel2 bestsize H1 H2.
  - destruct fuel2 as [|f2]; [reflexivity|]. cbn [extend_right].
    assert (E : Nat.ltb (besti + bestsize) ahi = false) by (apply Nat.ltb_ge; lia).
    now rewrite E.
  - destruct fuel2 as [|f2]; cbn [extend_right].
    + assert (E : Nat.ltb (besti + bestsize) ahi = false) by (apply Nat.ltb_ge; lia).
      now rewrite E.
    + destruct (_ && _) eqn:E; [|reflexivity].
      apply IH; lia.
Qed.

(** The work-list loop of [get_matching_blocks] ends within the fuel it is
    given: more fuel does not change the blocks. *)
Lemma blocks_loop_fuel a b fuel1 : forall fuel2 queue acc,
  Forall window_ok queue -> work queue < fuel1 -> work queue < fuel2 ->
  blocks_loop fuel1 a b queue acc = blocks_loop fuel2 a b queue acc.
Proof.
  induction fuel1 as [|f1 IH]; intros fuel2 queue acc Hq H1 H2; [lia|].
  destruct fuel2 as [|f2]; [lia|].
  destruct queue as [|[[[alo ahi] blo] bhi] queue']; [reflexivity|].
  cbn [blocks_loop]. inversion Hq as [|? ? Hw Hq']; subst.
  unfold window_ok in Hw. cbn [fst snd] in Hw.
  pose proof (find_longest_match_in a b alo ahi blo bhi (proj1 Hw) (proj2 Hw)) as Hm.
  destruct (find_longest_match a b alo ahi blo bhi) as [[i j] k].
  unfold block_in in Hm. cbn [fst snd] in Hm.
  cbn [work fold_right fst snd] in H1, H2. fold (work queue') in H1, H2.
  destruct (Nat.eqb k 0) eqn:Ek; [apply IH; try assumption; lia|].
  apply Nat.eqb_neq in Ek.
  apply IH.
  - destruct (_ && _); destruct (_ && _); repeat constructor;
      try assumption; cbn [fst snd]; lia.
  - destruct (_ && _); destruct (_ && _);
      cbn [work fold_right fst snd]; fold (work queue'); lia.
  - destruct (_ && _); destruct (_ && _);
      cbn [work fold_right fst snd]; fold (work queue'); lia.
Qed.

Lemma matching_blocks_fuel a b extra :
  matching_blocks a b
  = blocks_loop (2 * length a + 2 + extra) a b [(0, length a, 0, length b)] [].
Proof.
  unfold matching_blocks. apply blocks_loop_fuel.
  - repeat constructor; cbn [fst snd]; lia.
  - simpl. lia.
  - simpl. lia.
Qed.

Lemma sub_from_fuel open close fuel1 : forall fuel2 s,
  length s <= fuel1 -> length s <= fuel2 ->
  sub_from fuel1 open close s = sub_from fuel2 open close s.
Proof.
  induction fuel1 as [|f1 IH]; intros fuel2 s H1 H2.
  - destruct s; [|simpl in H1; lia]. now destruct fuel2.
  - destruct s as [|c t]; [now destruct fuel2|].
    destruct fuel2 as [|f2]; [simpl in H2; lia|].
    simpl in *. destruct (char_eqb c open).
    + destruct (lazy_until close t) as [[body rest]|] eqn:El.
      * apply lazy_until_shorter in El. apply IH; lia.
      * f_equal. apply IH; lia.
    + f_equal. apply IH; lia.
Qed.

Lemma sub_span_cons open close c t :
  sub_span open close (c :: t) =
  if char_eqb c open then
    match lazy_until close t with
    | Some (_, rest) => sub_span open close rest
    | None => c :: sub_span open close t
    end
  else c :: sub_span open close t.
Proof.
  unfold sub_span. simpl.
  destruct (char_eqb c open); [|reflexivity].
  destruct (lazy_until close t) as [[body rest]|] eqn:El; [|reflexivity].
  apply lazy_until_shorter in El. apply sub_from_fuel; lia.
Qed.

Lemma lstrip_suffix s : exists w, s = w ++ lstrip s.
Proof.
  induction s as [|c t [w IH]]; [now exists []|]. simpl.
  destruct (isspace_c c); [|now exists []].
  exists (c :: w). simpl. now f_equal.
Qed.

Lemma sub_empty_parens_from_fuel fuel1 : forall fuel2 s,
  length s <= fuel1 -> length s <= fuel2 ->
  sub_empty_parens_from fuel1 s = sub_empty_parens_from fuel2 s.
Proof.
  induction fuel1 as [|f1 IH]; intros fuel2 s H1 H2.
  - destruct s; [|simpl in H1; lia]. now destruct fuel2.
  - destruct s as [|c t]; [now destruct fuel2|].
    destruct fuel2 as [|f2]; [simpl in H2; lia|].
    simpl in H1, H2. cbn [sub_empty_parens_from].
    destruct (char_eqb c LPAREN); [|f_equal; apply IH; lia].
    destruct (lstrip_suffix t) as [w Hw].
    destruct (lstrip t) as [|c' rest]; [f_equal; apply IH; lia|].
    destruct (char_eqb c' RPAREN); [|f_equal; apply IH; lia].
    assert (length rest < length t).
    { rewrite Hw, length_app. simpl. lia. }
    apply IH; lia.
Qed.

(* ----------------------------------------------------------------- *)
(** ** What [parse_folder_name] leaves *)

Lemma findall_span_nil_iff open close c t :
  findall_span open close (c :: t) = []
  <-> (char_eqb c open = true -> lazy_until close t = None)
      /\ findall_span open close t = [].
Proof.
  rewrite findall_span_cons. destruct (char_eqb c open).
  - destruct (lazy_until close t) as [[body rest]|].
    + split; [discriminate|]. intros [H _]. now specialize (H eq_refl).
    + tauto.
  - split; [intros H; split; [discriminate|exact H]|tauto].
Qed.

Lemma lazy_until_thinned close s s' :
  thinned s s' -> lazy_until close s = None -> lazy_until close s' = None.
Proof.
  induction 1 as [|c s s' _ IH|c s s' Hc _ IH]; intros H; [reflexivity| |].
  - simpl in *. destruct (char_eqb c close); [discriminate|].
    destruct (char_eqb c NEWLINE); [reflexivity|].
    destruct (lazy_until close s) as [[b r]|]; [discriminate|].
    now rewrite IH.
  - apply IH. simpl in H. destruct (char_eqb c close); [discriminate|].
    destruct (char_eqb c NEWLINE) eqn:E; [apply char_eqb_eq in E; contradiction|].
    now destruct (lazy_until close s) as [[b r]|].
Qed.

Lemma findall_span_thinned open close s s' :
  thinned s s' ->
  findall_span open close s = [] -> findall_span open close s' = [].
Proof.
  induction 1 as [|c s s' Ht IH|c s s' Hc Ht IH]; intros H; [reflexivity| |].
  - apply findall_span_nil_iff in H as [H1 H2]. apply findall_span_nil_iff.
    split; [|now apply IH].
    intros E. eapply lazy_until_thinned; [exact Ht|now apply H1].
  - apply IH. now apply findall_span_nil_iff in H.
Qed.

Lemma thinned_refl s : thinned s s.
Proof. induction s; constructor; assumption. Qed.

Lemma thinned_drop_all p s s' :
  ~ In NEWLINE p -> thinned s s' -> thinned (p ++ s) s'.
Proof.
  induction p as [|c p IH]; intros Hn H; [exact H|]. simpl in *.
  apply thinned_drop; [intuition congruence|]. apply IH; tauto.
Qed.

(** Removing spans leaves out characters other than newline only. *)
Lemma sub_span_thinned open close n : forall s,
  open <> NEWLINE -> close <> NEWLINE -> length s <= n ->
  thinned s (sub_span open close s).
Proof.
  induction n as [|n IH]; intros s Ho Hc Hn.
  - destruct s; [constructor|simpl in Hn; lia].
  - destruct s as [|c t]; [constructor|]. simpl in Hn.
    rewrite sub_span_cons. destruct (char_eqb c open) eqn:E.
    + apply char_eqb_eq in E. subst c.
      destruct (lazy_until close t) as [[body rest]|] eqn:El.
      * apply lazy_until_split in El as (-> & _ & Hb).
        apply thinned_drop; [assumption|].
        apply thinned_drop_all; [assumption|].
        apply thinned_drop; [assumption|].
        apply IH; try assumption. rewrite length_app in Hn. simpl in Hn. lia.
      * apply thinned_keep, IH; try assumption. lia.
    + apply thinned_keep, IH; try assumption. lia.
Qed.

(** After the substitution no span of that kind is left. *)
Lemma findall_sub_span open close n : forall s,
  open <> NEWLINE -> close <> NEWLINE -> length s <= n ->
  findall_span open close (sub_span open close s) = [].
Proof.
  induction n as [|n IH]; intros s Ho Hc Hn.
  - destruct s; [reflexivity|simpl in Hn; lia].
  - destruct s as [|c t]; [reflexivity|]. simpl in Hn.
    rewrite sub_span_cons. destruct (char_eqb c open) eqn:E.
    + destruct (lazy_until close t) as [[body rest]|] eqn:El.
      * apply lazy_until_split in El as (-> & _).
        apply IH; try assumption. rewrite length_app in Hn. simpl in Hn. lia.
      * apply findall_span_nil_iff. split; [|apply IH; try assumption; lia].
        intros _. eapply lazy_until_thinned; [|exact El].
        apply (sub_span_thinned open close n); try assumption. lia.
    + apply findall_span_nil_iff. rewrite E.
      split; [discriminate|apply IH; try assumption; lia].
Qed.

Lemma findall_span_suffix open close x s :
  findall_span open close (x ++ s) = [] -> findall_span open close s = [].
Proof.
  induction x as [|c x IH]; intros H; [exact H|].
  apply IH. simpl in H. now apply findall_span_nil_iff in H.
Qed.

Lemma lazy_until_prefix close t z :
  lazy_until close (t ++ z) = None -> lazy_until close t = None.
Proof.
  induction t as [|c t IH]; intros H; [reflexivity|]. simpl in *.
  destruct (char_eqb c close); [discriminate|].
  destruct (char_eqb c NEWLINE); [reflexivity|].
  destruct (lazy_until close (t ++ z)) as [[b r]|]; [discriminate|].
  now rewrite IH.
Qed.

Lemma findall_span_prefix open close s z :
  findall_span open close (s ++ z) = [] -> findall_span open close s = [].
Proof.
  induction s as [|c s IH]; intros H; [reflexivity|]. simpl in H.
  apply findall_span_nil_iff in H as [H1 H2]. apply findall_span_nil_iff.
  split; [|now apply IH].
  intros E. eapply lazy_until_prefix. now apply H1.
Qed.

Lemma rstrip_prefix s : exists w, s = rstrip s ++ w.
Proof.
  unfold rstrip. destruct (lstrip_suffix (rev s)) as [w Hw].
  exists (rev w). rewrite <- rev_app_distr, <- Hw. now rewrite rev_involutive.
Qed.

Lemma findall_span_strip open close s :
  findall_span open close s = [] -> findall_span open close (strip s) = [].
Proof.
  intros H. unfold strip.
  destruct (lstrip_suffix s) as [w Hw]. rewrite Hw in H.
  apply findall_span_suffix in H.
  destruct (rstrip_prefix (lstrip s)) as [w' Hw']. rewrite Hw' in H.
  now apply findall_span_prefix in H.
Qed.

Lemma before_first_prefix sep s : exists w, s = before_first sep s ++ w.
Proof.
  induction s as [|c t [w IH]]; [now exists []|]. simpl.
  destruct (char_eqb c sep); [now exists (c :: t)|].
  exists w. simpl. now f_equal.
Qed.

Lemma lstrip_head s :
  match lstrip s with [] => True | c :: _ => isspace_c c = false end.
Proof.
  induction s as [|c t IH]; [exact I|]. simpl.
  destruct (isspace_c c) eqn:E; [exact IH|exact E].
Qed.

(** [strip] is idempotent: its result has no white space at either end. *)
Lemma strip_idem s : strip (strip s) = strip s.
Proof.
  assert (L : forall u, match u with [] => True | c :: _ => isspace_c c = false end ->
                        lstrip u = u).
  { intros [|c t] H; [reflexivity|]. simpl. now rewrite H. }
  set (a := lstrip s). set (b := lstrip (rev a)).
  assert (Hs : strip s = rev b) by reflexivity.
  assert (Hb : lstrip b = b) by (apply L, lstrip_head).
  assert (Hrb : lstrip (rev b) = rev b).
  { apply L. destruct (lstrip_suffix (rev a)) as [w Hw]. fold b in Hw.
    assert (Ha : a = rev b ++ rev w).
    { rewrite <- rev_app_distr, <- Hw. now rewrite rev_involutive. }
    pose proof (lstrip_head s) as Hh. fold a in Hh. rewrite Ha in Hh.
    destruct (rev b); [exact I|exact Hh]. }
  rewrite Hs. unfold strip, rstrip. now rewrite Hrb, rev_involutive, Hb.
Qed.

Lemma cleaned_name_clean folder_name :
  strip (cleaned_name folder_name) = cleaned_name folder_name
  /\ findall_span LBRACKET RBRACKET (cleaned_name folder_name) = []
  /\ findall_span LPAREN RPAREN (cleaned_name folder_name) = []
  /\ findall_span LBRACE RBRACE (cleaned_name folder_name) = [].
Proof.
  unfold cleaned_name. split; [apply strip_idem|].
  set (s1 := sub_span LBRACKET RBRACKET folder_name).
  set (s2 := sub_span LPAREN RPAREN s1).
  set (s3 := sub_span LBRACE RBRACE s2).
  assert (T2 : thinned s1 s2)
    by (apply (sub_span_thinned _ _ (length s1)); [discriminate..|lia]).
  assert (T3 : thinned s2 s3)
    by (apply (sub_span_thinned _ _ (length s2)); [discriminate..|lia]).
  split; [|split]; apply findall_span_strip.
  - apply (findall_span_thinned _ _ _ _ T3), (findall_span_thinned _ _ _ _ T2).
    apply (findall_sub_span _ _ (length folder_name)); [discriminate..|lia].
  - apply (findall_span_thinned _ _ _ _ T3).
    apply (findall_sub_span _ _ (length s1)); [discriminate..|lia].
  - apply (findall_sub_span _ _ (length s2)); [discriminate..|lia].
Qed.

(** X3: what both parsers guarantee for every folder name: the title has
    no white space at its ends and no bracketed, parenthesized or braced
    span is left in it; the CLI title moreover is the trimmed text before
    the first plus sign of the cleaned name and contains no plus sign. *)
Lemma parse_folder_name_clean folder_name :
  (strip (parse_folder_name_GUI folder_name) = parse_folder_name_GUI folder_name
   /\ findall_span LBRACKET RBRACKET (parse_folder_name_GUI folder_name) = []
   /\ findall_span LPAREN RPAREN (parse_folder_name_GUI folder_name) = []
   /\ findall_span LBRACE RBRACE (parse_folder_name_GUI folder_name) = [])
  /\ (strip (parse_folder_name_CLI folder_name) = parse_folder_name_CLI folder_name
      /\ findall_span LBRACKET RBRACKET (parse_folder_name_CLI folder_name) = []
      /\ findall_span LPAREN RPAREN (parse_folder_name_CLI folder_name) = []
      /\ findall_span LBRACE RBRACE (parse_folder_name_CLI folder_name) = []
      /\ has_char PLUS (parse_folder_name_CLI folder_name) = false
      /\ parse_folder_name_CLI folder_name
         = strip (before_first PLUS (parse_folder_name_GUI folder_name))).
Proof.
  pose proof (cleaned_name_clean folder_name) as (Hs & H1 & H2 & H3).
  split; [unfold parse_folder_name_GUI; tauto|].
  assert (E : parse_folder_name_CLI folder_name
              = strip (before_first PLUS (cleaned_name folder_name))).
  { unfold parse_folder_name_CLI.
    destruct (has_char PLUS (cleaned_name folder_name)) eqn:Ep; [reflexivity|].
    assert (Hb : forall u, ~ In PLUS u -> before_first PLUS u = u).
    { induction u as [|c u IH]; [reflexivity|]. intros H. cbn [before_first].
      destruct (char_eqb c PLUS) eqn:Ec.
      - apply char_eqb_eq in Ec. subst. exfalso. apply H. now left.
      - f_equal. apply IH. intros Hin. apply H. now right. }
    rewrite Hb by now apply has_char_false_in. now rewrite Hs. }
  destruct (before_first_prefix PLUS (cleaned_name folder_name)) as [w Hw].
  rewrite Hw in H1, H2, H3.
  apply findall_span_prefix in H1, H2, H3.
  split; [rewrite E; apply strip_idem|].
  split; [rewrite E; now apply findall_span_strip|].
  split; [rewrite E; now apply findall_span_strip|].
  split; [rewrite E; now apply findall_span_strip|].
  split; [apply parse_folder_name_CLI_no_plus|exact E].
Qed.

(* ----------------------------------------------------------------- *)
(** ** Further examples *)

(** Each side condition of the round trip is needed: a producer with white
    space at its ends comes back trimmed, a producer of seven digits is
    ignored, an unresolved date is not a date for the parser (and the text
    Unknown is then free to be taken as producer), and a bracketed date in
    the tags replaces the date of the name. *)
Example round_trip_side_conditions :
  parse_bracket_info_GUI (lit "[ Key ][040129] Air") = (lit "040129", lit "Key")
  /\ parse_bracket_info_GUI (lit "[1234567][040129] Air") = (lit "040129", [])
  /\ parse_bracket_info_GUI (lit "[ab][Unknown] Air") = ([], lit "Unknown")
  /\ parse_bracket_info_GUI (lit "[Key][040129] Air ([050101])")
     = (lit "050101", lit "Key").
Proof. repeat split; reflexivity. Qed.

(** The template built by the editor of the GUI from its checked items, and
    what an item outside the six known ones leads to in each front-end. *)
Example unknown_item_in_template :
  getTemplate [lit "producer"; lit "bogus"; lit "title"]
  = lit "[{producer}] {bogus} {title}"
  /\ suggest_new_folder_name_CLI
       (Build_vn (Some (lit "Air")) [] (Some (lit "2000-09-08")) [] None)
       None None None (Some (lit "[{producer}] {bogus} {title}"))
     = Raise (KeyError (lit "bogus"))
  /\ suggest_new_folder_name_GUI ascii_db
       (Build_vn (Some (lit "Air")) [] (Some (lit "2000-09-08")) [] None)
       None None None
       (Some (getTemplate [lit "producer"; lit "release_date"; lit "title";
                           lit "tags"])) None
     = Ok (lit "[Unknown Producer] [000908] Air").
Proof. repeat split; reflexivity. Qed.

(** A negative limit is a Python slice from the end, not a bound. *)
Example negative_limit_is_not_a_bound :
  slice_to (-1) [1; 2; 3] = [1; 2] /\ slice_to 2 [1; 2; 3] = [1; 2].
Proof. split; reflexivity. Qed.

(* ================================================================= *)
(** * Further properties of the two programs *)

(* ----------------------------------------------------------------- *)
(** ** The producer hint and the errors of [parse_bracket_info] *)

Lemma date_branch_snd st s st' : date_branch st s = Ok st' -> snd st' = snd st.
Proof.
  unfold date_branch, bind.
  destruct (py_int (slice 2 4 s)); [|discriminate].
  destruct (py_int (slice 4 6 s)); [|discriminate].
  destruct (plausible_md a a0); now intros [= <-].
Qed.

(** One iteration sets the expected producer only while there is none, and
    then exactly from a span that [producer_span] accepts. *)
Lemma bracket_step_GUI_producer st segment :
  snd (bracket_step_GUI st segment) =
  if nonempty (snd st) then snd st
  else if producer_span (strip segment) then strip segment else [].
Proof.
  unfold bracket_step_GUI, producer_span.
  destruct (isdigit (strip segment) && Nat.eqb (length (strip segment)) 6) eqn:E.
  - cbn [negb andb].
    destruct (date_branch st (strip segment)) eqn:Ed.
    + rewrite (date_branch_snd _ _ _ Ed). now destruct (snd st).
    + now destruct (snd st).
  - cbn [negb andb]. unfold producer_branch.
    destruct (Nat.leb 3 (length (strip segment))); cbn [andb].
    + destruct (negb (isdigit (strip segment) && Nat.ltb 6 (length (strip segment)))).
      * destruct (snd st) eqn:Es; cbn [nonempty negb]; [reflexivity|now rewrite Es].
      * now destruct (snd st).
    + now destruct (snd st).
Qed.

Lemma producer_span_nonempty s : producer_span s = true -> nonempty s = true.
Proof.
  unfold producer_span. rewrite !andb_true_iff. intros [[_ H] _].
  apply Nat.leb_le in H. destruct s; [simpl in H; lia|reflexivity].
Qed.

Lemma fold_GUI_producer segments : forall st,
  snd (fold_left bracket_step_GUI segments st)
  = if nonempty (snd st) then snd st
    else hd [] (filter producer_span (map strip segments)).
Proof.
  induction segments as [|x xs IH]; intros st; simpl.
  - now destruct (snd st).
  - rewrite IH, bracket_step_GUI_producer.
    destruct (nonempty (snd st)) eqn:E; [now rewrite E|].
    destruct (producer_span (strip x)) eqn:Ep.
    + now rewrite (producer_span_nonempty _ Ep).
    + reflexivity.
Qed.

(** X1: the expected producer returned by [parse_bracket_info] is the
    first bracketed span, trimmed, that has at least three characters and
    is neither a six-digit span (whether or not that span is a plausible
    date) nor a longer run of digits; it is the empty string when there is
    no such span.  Unlike the date, a later span never replaces it. *)
Theorem parse_bracket_info_first_producer (folder_name : str) :
  snd (parse_bracket_info_GUI folder_name)
  = hd [] (filter producer_span
             (map strip (findall_span LBRACKET RBRACKET folder_name))).
Proof. unfold parse_bracket_info_GUI. now rewrite fold_GUI_producer. Qed.

(** X2: [parse_bracket_info] of [main_CLI.py] raises [ValueError] exactly
    when some bracketed span, trimmed, is six digit characters of which
    one of the last four is a digit for [str.isdigit] but not for [int];
    for every other folder name it returns what the function of
    [main_GUI.py], which catches the error, returns. *)
Theorem parse_bracket_info_CLI_raises_iff (folder_name : str) :
  parse_bracket_info_CLI folder_name =
  if existsb undecodable_span
       (map strip (findall_span LBRACKET RBRACKET folder_name))
  then Raise ValueError
  else Ok (parse_bracket_info_GUI folder_name).
Proof. apply foldM_CLI_raises_iff. Qed.

(* ----------------------------------------------------------------- *)
(** ** The shortened query *)

Lemma strip_head s :
  match strip s with [] => True | c :: _ => isspace_c c = false end.
Proof.
  set (a := lstrip s). set (b := lstrip (rev a)).
  assert (Hs : strip s = rev b) by reflexivity.
  destruct (lstrip_suffix (rev a)) as [w Hw]. fold b in Hw.
  assert (Ha : a = rev b ++ rev w).
  { rewrite <- rev_app_distr, <- Hw. now rewrite rev_involutive. }
  pose proof (lstrip_head s) as Hh. fold a in Hh. rewrite Ha in Hh.
  rewrite Hs. destruct (rev b); [exact I|exact Hh].
Qed.

Lemma lstrip_snoc l c :
  isspace_c c = false -> lstrip (l ++ [c]) = lstrip l ++ [c].
Proof.
  intros Hc. induction l as [|x l IH]; simpl; [now rewrite Hc|].
  destruct (isspace_c x); [exact IH|reflexivity].
Qed.

Lemma rstrip_cons c u :
  isspace_c c = false -> rstrip (c :: u) = c :: rstrip u.
Proof.
  intros Hc. unfold rstrip. simpl. rewrite lstrip_snoc by assumption.
  now rewrite rev_app_distr.
Qed.

Lemma before_first_shorter sep s :
  has_char sep s = true -> length (before_first sep s) < length s.
Proof.
  induction s as [|c t IH]; [discriminate|]. unfold has_char in *. simpl.
  destruct (char_eqb c sep) eqn:E; [simpl; lia|].
  unfold char_eqb in *. rewrite N.eqb_sym, E. simpl. intros H. apply IH in H. lia.
Qed.

(** X4: when a trimmed query (the title from [parse_folder_name] in the
    CLI, the trimmed text of the title field in the GUI) contains a space,
    the query retried after an empty search is not empty: it is the part
    of the query before its first space, it contains no space, and it is
    strictly shorter than the query. *)
Theorem shortened_query_nonempty (text : str) :
  let search_query := strip text in
  has_char SPACE search_query = true ->
  nonempty (shortened_query search_query) = true
  /\ has_char SPACE (shortened_query search_query) = false
  /\ is_prefix (shortened_query search_query) search_query
  /\ length (shortened_query search_query) < length search_query.
Proof.
  intros q Hsp. pose proof (strip_head text) as Hh. fold q in Hh.
  pose proof (before_first_shorter _ _ Hsp) as Hlen.
  destruct (before_first_prefix SPACE q) as [w Hw].
  unfold shortened_query.
  destruct q as [|c t]; [discriminate|].
  assert (Hc : char_eqb c SPACE = false).
  { apply char_eqb_neq. intros ->. discriminate. }
  cbn [before_first] in *. rewrite Hc in *.
  unfold strip. cbn [lstrip]. rewrite Hh, rstrip_cons by assumption.
  destruct (rstrip_prefix (before_first SPACE t)) as [w' Hw'].
  split; [reflexivity|]. split; [|split].
  - apply has_char_false_in. intros [E|Hin].
    + apply char_eqb_neq in Hc. congruence.
    + assert (In SPACE (before_first SPACE t))
        by (rewrite Hw'; apply in_or_app; now left).
      revert H. apply has_char_false_in, before_first_no_sep.
  - exists (w' ++ w). simpl in Hw. injection Hw as Hw.
    simpl. f_equal. rewrite app_assoc, <- Hw'. exact Hw.
  - simpl in *. apply (f_equal (@length _)) in Hw'. rewrite length_app in Hw'. lia.
Qed.

Lemma shortened_query_nonempty_witness :
  has_char SPACE (strip (lit " Little Busters EX ")) = true
  /\ nonempty (shortened_query (strip (lit " Little Busters EX "))) = true
  /\ shortened_query (strip (lit " Little Busters EX ")) = lit "Little".
Proof.
  split; [reflexivity|].
  split; [apply (shortened_query_nonempty (lit " Little Busters EX ")); reflexivity
         |reflexivity].
Defined.

(* ----------------------------------------------------------------- *)
(** ** What [format_release_date] returns *)

(** X5: [format_release_date] never fails, and what it returns is either
    the text [Unknown] or six decimal digits that the date test of
    [parse_bracket_info] accepts (month from 01 to 12, day from 01 to
    31). *)
Theorem format_release_date_shape (release_date_str : str) :
  format_release_date release_date_str = lit "Unknown"
  \/ (length (format_release_date release_date_str) = 6
      /\ forallb isdecimal_c (format_release_date release_date_str) = true
      /\ plausible_date (format_release_date release_date_str) = true).
Proof.
  unfold format_release_date.
  destruct (strptime_Ymd release_date_str) as [[[y m] d]|] eqn:E; [|now left].
  right. apply strptime_range in E as (Hy & Hm & Hd).
  now apply strftime_plausible.
Qed.

Lemma map_flat_map {A B C} (f : B -> C) (g : A -> list B) l :
  map f (flat_map g l) = flat_map (fun x => map f (g x)) l.
Proof.
  induction l as [|x l IH]; [reflexivity|]. simpl. now rewrite map_app, IH.
Qed.

Lemma hd_error_map {A B} (f : A -> B) l :
  hd_error (map f l) = option_map f (hd_error l).
Proof. now destruct l. Qed.

Lemma re_Y_digits a b c e rest :
  isdecimal_c a = true -> isdecimal_c b = true -> isdecimal_c c = true ->
  isdecimal_c e = true ->
  re_Y (a :: b :: c :: e :: rest) = [([a; b; c; e], rest)].
Proof.
  intros Ha Hb Hc He. unfold re_Y, m_seq, m_digit, m_class.
  cbn [flat_map map fst snd app]. rewrite Ha. cbn [flat_map map fst snd app].
  rewrite Hb. cbn [flat_map map fst snd app].
  rewrite Hc. cbn [flat_map map fst snd app].
  rewrite He. reflexivity.
Qed.

(** After four digits the year is settled: the pattern has one way to
    match it, and the rest of the match is that of [-%m-%d]. *)
Lemma match_Ymd_year a b c e rest :
  isdecimal_c a = true -> isdecimal_c b = true -> isdecimal_c c = true ->
  isdecimal_c e = true ->
  match_Ymd (a :: b :: c :: e :: rest)
  = option_map (fun x => ([a; b; c; e], fst (fst x), snd (fst x), snd x))
      (hd_error (month_day_matches rest)).
Proof.
  intros Ha Hb Hc He. unfold match_Ymd.
  rewrite re_Y_digits by assumption.
  cbn [flat_map fst snd]. rewrite app_nil_r.
  rewrite <- hd_error_map. f_equal. unfold month_day_matches.
  rewrite map_flat_map. apply flat_map_ext. intros h1.
  rewrite map_flat_map. apply flat_map_ext. intros m.
  rewrite map_flat_map. apply flat_map_ext. intros h2.
  rewrite map_map. reflexivity.
Qed.

Lemma strptime_year a b c e rest :
  isdecimal_c a = true -> isdecimal_c b = true -> isdecimal_c c = true ->
  isdecimal_c e = true ->
  strptime_Ymd (a :: b :: c :: e :: rest)
  = match py_int [a; b; c; e], month_day rest with
    | Ok year, Some (month, day) =>
        if ((1 <=? year) && (1 <=? month) && (month <=? 12)
            && (1 <=? day) && (day <=? days_in_month year month))%Z
        then Some (year, month, day)
        else None
    | _, _ => None
    end.
Proof.
  intros Ha Hb Hc He. unfold strptime_Ymd, month_day.
  rewrite match_Ymd_year by assumption.
  destruct (hd_error (month_day_matches rest)) as [[[m d] r]|];
    cbn [option_map fst snd].
  - destruct r; [|now destruct (py_int [a; b; c; e])].
    destruct (py_int [a; b; c; e]); [|reflexivity].
    destruct (py_int m); [|reflexivity].
    destruct (py_int d); reflexivity.
  - now destruct (py_int [a; b; c; e]).
Qed.

Lemma opt_pair_eqb_eq x y : opt_pair_eqb x y = true -> x = y.
Proof.
  destruct x as [[a b]|], y as [[c d]|]; simpl; try easy.
  rewrite andb_true_iff, !Z.eqb_eq. now intros [-> ->].
Qed.

(** The month and day patterns on every pair of two-digit fields. *)
Lemma month_day_table :
  forallb (fun m =>
    forallb (fun d =>
      opt_pair_eqb
        (month_day (lit "-" ++ two_digits (Z.of_nat m) ++ lit "-"
                    ++ two_digits (Z.of_nat d)))
        (month_day_expected (Z.of_nat m) (Z.of_nat d)))
      (seq 0 100))
    (seq 0 100) = true.
Proof. vm_compute. reflexivity. Qed.

Lemma month_day_padded m d :
  (0 <= m <= 99)%Z -> (0 <= d <= 99)%Z ->
  month_day (lit "-" ++ two_digits m ++ lit "-" ++ two_digits d)
  = month_day_expected m d.
Proof.
  intros Hm Hd. pose proof month_day_table as T.
  rewrite forallb_forall in T.
  specialize (T (Z.to_nat m)). rewrite in_seq in T.
  assert (T' := T ltac:(lia)). clear T.
  rewrite forallb_forall in T'.
  specialize (T' (Z.to_nat d)). rewrite in_seq in T'.
  assert (T := T' ltac:(lia)). clear T'.
  rewrite !Z2Nat.id in T by lia. now apply opt_pair_eqb_eq.
Qed.

Lemma four_digits_decimal y :
  (0 <= y <= 9999)%Z ->
  forallb isdecimal_c (four_digits y) = true
  /\ py_int (four_digits y) = Ok y.
Proof.
  intros Hy.
  assert (H3 : (0 <= y / 1000 <= 9)%Z).
  { split; [apply Z.div_pos; lia|].
    apply Z.lt_succ_r, Z.div_lt_upper_bound; lia. }
  assert (H2 : (0 <= (y / 100) mod 10 <= 9)%Z)
    by (pose proof (Z.mod_pos_bound (y / 100) 10); lia).
  assert (H1 : (0 <= (y / 10) mod 10 <= 9)%Z)
    by (pose proof (Z.mod_pos_bound (y / 10) 10); lia).
  assert (H0 : (0 <= y mod 10 <= 9)%Z)
    by (pose proof (Z.mod_pos_bound y 10); lia).
  assert (Hdec : forallb isdecimal_c (four_digits y) = true).
  { unfold four_digits, isdecimal_c. cbn [forallb].
    now rewrite !to_decimal_ascii by assumption. }
  split; [exact Hdec|].
  rewrite py_int_isdigit
    by (apply forallb_isdecimal_isdigit; [discriminate|exact Hdec]).
  unfold four_digits. cbn [digits_value].
  rewrite !to_decimal_ascii by assumption.
  do 2 f_equal. clear Hdec. Z.div_mod_to_equations. lia.
Qed.

(** X6: on a date written [YYYY-MM-DD] with zero-padded fields,
    [format_release_date] returns the last two digits of the year followed
    by the month and the day when the date exists in the calendar (year at
    least 1, month from 1 to 12, day from 1 to the length of that month,
    leap years included), and the text [Unknown] otherwise; so 2004-02-29
    gives 040229 and 2004-02-30 gives [Unknown]. *)
Theorem format_release_date_iso (y m d : Z) :
  (0 <= y <= 9999)%Z -> (0 <= m <= 99)%Z -> (0 <= d <= 99)%Z ->
  format_release_date (iso_date y m d)
  = if ((1 <=? y) && (1 <=? m) && (m <=? 12)
        && (1 <=? d) && (d <=? days_in_month y m))%Z
    then two_digits (y mod 100) ++ two_digits m ++ two_digits d
    else lit "Unknown".
Proof.
  intros Hy Hm Hd. destruct (four_digits_decimal y Hy) as [Hdec Hint].
  unfold format_release_date, iso_date.
  unfold four_digits in *. cbn [forallb] in Hdec.
  repeat (apply andb_true_iff in Hdec as [? Hdec]).
  cbn [app]. rewrite strptime_year by assumption.
  rewrite Hint, month_day_padded by assumption.
  unfold month_day_expected.
  pose proof (days_in_month_le y m) as Hdim.
  destruct ((1 <=? m) && (m <=? 12) && (1 <=? d) && (d <=? 31))%Z eqn:E.
  - destruct ((1 <=? y) && (1 <=? m) && (m <=? 12) && (1 <=? d)
              && (d <=? days_in_month y m))%Z; reflexivity.
  - destruct ((1 <=? y) && (1 <=? m) && (m <=? 12) && (1 <=? d)
              && (d <=? days_in_month y m))%Z eqn:E'; [|reflexivity].
    exfalso. rewrite !andb_true_iff, !Z.leb_le in E'.
    rewrite !andb_false_iff, !Z.leb_gt in E. lia.
Qed.

Lemma format_release_date_iso_witness :
  (0 <= 2004 <= 9999)%Z /\ (0 <= 2 <= 99)%Z /\ (0 <= 29 <= 99)%Z
  /\ format_release_date (lit "2004-02-29") = lit "040229".
Proof.
  split; [lia|]. split; [lia|]. split; [lia|].
  apply (format_release_date_iso 2004 2 29); lia.
Defined.

(* ----------------------------------------------------------------- *)
(** ** Nothing is lost in the ranking *)

Lemma insert_desc_in {A} (key : A -> Z) x y l :
  In x (insert_desc key y l) <-> x = y \/ In x l.
Proof.
  induction l as [|z l IH]; simpl; [intuition|].
  destruct (key y <? key z)%Z; simpl; [rewrite IH|]; intuition.
Qed.

Lemma insert_desc_length {A} (key : A -> Z) y l :
  length (insert_desc key y l) = S (length l).
Proof.
  induction l as [|z l IH]; simpl; [reflexivity|].
  destruct (key y <? key z)%Z; simpl; [now rewrite IH|reflexivity].
Qed.

Lemma sort_desc_in {A} (key : A -> Z) x l :
  In x (sort_desc key l) <-> In x l.
Proof.
  induction l as [|y l IH]; simpl; [tauto|].
  rewrite insert_desc_in, IH. intuition.
Qed.

Lemma sort_desc_length {A} (key : A -> Z) l :
  length (sort_desc key l) = length l.
Proof.
  induction l as [|y l IH]; simpl; [reflexivity|].
  now rewrite insert_desc_length, IH.
Qed.

Lemma incl_firstn {A} n (l : list A) : incl (firstn n l) l.
Proof.
  intros x Hx. rewrite <- (firstn_skipn n l). apply in_or_app. now left.
Qed.

(** X7: [get_vn_candidates] returns nothing but results of the catalog,
    each with the confidence computed for it, and as many of them as the
    limit allows: 3 or all of them in the CLI, [candidate_limit] (when it
    is not negative) or all of them in the GUI; when the results are no
    more than the limit every one of them is returned.  A failed request
    or a reply without results gives the empty list. *)
Theorem get_vn_candidates_complete (U : unicode_db) (response : option (list vn))
  (search_query expected_date expected_producer : str) (candidate_limit : Z) :
  (0 <= candidate_limit)%Z ->
  let cli := get_vn_candidates_CLI U response search_query expected_date
               expected_producer in
  let gui := get_vn_candidates_GUI U response search_query expected_date
               expected_producer candidate_limit in
  let scored_cli :=
    map (fun c => (c, composite_conf_CLI U search_query expected_date
                        expected_producer c)) (results_of response) in
  let scored_gui :=
    map (fun c => (c, match_GUI U search_query expected_date
                        expected_producer c)) (results_of response) in
  incl cli scored_cli /\ incl gui scored_gui
  /\ length cli = Nat.min 3 (length (results_of response))
  /\ length gui = Nat.min (Z.to_nat candidate_limit)
                    (length (results_of response))
  /\ (length (results_of response) <= 3 -> incl scored_cli cli)
  /\ ((Z.of_nat (length (results_of response)) <= candidate_limit)%Z ->
      incl scored_gui gui).
Proof.
  intros Hlim cli gui scored_cli scored_gui.
  subst cli gui scored_cli scored_gui.
  unfold get_vn_candidates_CLI, get_vn_candidates_GUI, results_of, slice_to.
  assert (E : (candidate_limit <? 0)%Z = false) by (apply Z.ltb_ge; lia).
  rewrite E.
  destruct response as [results|].
  - split; [intros x Hx; apply incl_firstn in Hx; now apply sort_desc_in in Hx|].
    split; [intros x Hx; apply incl_firstn in Hx; now apply sort_desc_in in Hx|].
    split; [now rewrite length_firstn, sort_desc_length, length_map|].
    split; [now rewrite length_firstn, sort_desc_length, length_map|].
    split; intros Hn x Hx.
    + rewrite firstn_all2 by (rewrite sort_desc_length, length_map; lia).
      now apply sort_desc_in.
    + rewrite firstn_all2 by (rewrite sort_desc_length, length_map; lia).
      now apply sort_desc_in.
  - simpl. rewrite Nat.min_0_r. repeat split; try easy.
Qed.

Lemma get_vn_candidates_complete_witness :
  (0 <= 1)%Z
  /\ length (get_vn_candidates_GUI ascii_db
               (Some [Build_vn (Some (lit "a")) [] None [] None;
                      Build_vn (Some (lit "b")) [] None [] None])
               (lit "b") [] [] 1) = 1.
Proof.
  split; [lia|].
  refine (proj1 (proj2 (proj2 (proj2
    (get_vn_candidates_complete ascii_db _ (lit "b") [] [] 1 _))))).
  lia.
Defined.

(* ----------------------------------------------------------------- *)
(** ** The similarity ratio of equal and of unrelated texts *)

Lemma indices_of_range x b : forall j0 j,
  In j (indices_of x b j0) -> j0 <= j < j0 + length b.
Proof.
  induction b as [|y t IH]; intros j0 j H; simpl in *; [contradiction|].
  destruct (char_eqb y x).
  - destruct H as [<-|H]; [lia|]. apply IH in H. lia.
  - apply IH in H. lia.
Qed.

Lemma indices_of_nth x b : forall j0 j,
  In j (indices_of x b j0) -> nth (j - j0) b 0%N = x.
Proof.
  induction b as [|y t IH]; intros j0 j H; simpl in *; [contradiction|].
  destruct (char_eqb y x) eqn:E.
  - destruct H as [<-|H].
    + rewrite Nat.sub_diag. now apply char_eqb_eq.
    + pose proof (indices_of_range _ _ _ _ H).
      apply IH in H. replace (j - j0) with (S (j - S j0)) by lia. exact H.
  - pose proof (indices_of_range _ _ _ _ H).
    apply IH in H. replace (j - j0) with (S (j - S j0)) by lia. exact H.
Qed.

Lemma indices_of_split x b : forall j0 i,
  i < length b -> nth i b 0%N = x ->
  exists js1 js2,
    indices_of x b j0 = js1 ++ (j0 + i) :: js2
    /\ (forall j, In j js1 -> j < j0 + i)
    /\ (forall j, In j js2 -> j0 + i < j).
Proof.
  induction b as [|y t IH]; intros j0 i Hi Hx; [simpl in Hi; lia|].
  destruct i as [|i'].
  - simpl in Hx. subst y. simpl. rewrite char_eqb_refl.
    exists [], (indices_of x t (S j0)). rewrite Nat.add_0_r.
    split; [reflexivity|]. split; [contradiction|].
    intros j Hj. apply indices_of_range in Hj. lia.
  - simpl in Hi, Hx.
    destruct (IH (S j0) i' ltac:(lia) Hx) as (js1 & js2 & E & H1 & H2).
    replace (j0 + S i') with (S j0 + i') by lia.
    simpl. destruct (char_eqb y x).
    + exists (j0 :: js1), js2. rewrite E. split; [reflexivity|].
      split; [|assumption]. intros j [<-|Hj]; [lia|now apply H1].
    + exists js1, js2. auto.
Qed.

Lemma indices_of_none x b j0 : ~ In x b -> indices_of x b j0 = [].
Proof.
  revert j0. induction b as [|y t IH]; intros j0 H; [reflexivity|]. simpl.
  destruct (char_eqb y x) eqn:E.
  - apply char_eqb_eq in E. subst. exfalso. apply H. now left.
  - apply IH. intros Hin. apply H. now right.
Qed.

Lemma flm_inner_all i blo bhi j2len js : forall newj2len best,
  (forall j, In j js -> blo <= j < bhi) ->
  flm_inner i blo bhi j2len js newj2len best
  = (rev (map (fun j => (j, run_at j2len j)) js) ++ newj2len,
     fold_left (better i j2len) js best).
Proof.
  induction js as [|j js IH]; intros newj2len best H; [reflexivity|].
  cbn [flm_inner].
  assert (Hj : blo <= j < bhi) by (apply H; now left).
  assert (E1 : Nat.ltb j blo = false) by (apply Nat.ltb_ge; lia).
  assert (E2 : Nat.leb bhi j = false) by (apply Nat.leb_gt; lia).
  rewrite E1, E2. fold (run_at j2len j).
  rewrite IH by (intros j' Hj'; apply H; now right).
  cbn [map rev fold_left]. rewrite <- app_assoc. reflexivity.
Qed.

Lemma fold_better_keep i j2len js : forall best,
  (forall j, In j js -> run_at j2len j <= snd best) ->
  fold_left (better i j2len) js best = best.
Proof.
  induction js as [|j js IH]; intros best H; [reflexivity|].
  cbn [fold_left]. unfold better at 2.
  assert (E : Nat.ltb (snd best) (run_at j2len j) = false).
  { apply Nat.ltb_ge. apply H. now left. }
  rewrite E. apply IH. intros j' Hj'. apply H. now right.
Qed.

Lemma j2len_get_map f js i :
  In i js -> j2len_get (rev (map (fun j => (j, f j)) js)) i = f i.
Proof.
  intros Hin. unfold j2len_get.
  destruct (find (fun p => Nat.eqb (fst p) i) (rev (map (fun j => (j, f j)) js)))
    as [[j k]|] eqn:E.
  - apply find_some in E as [Hp Hj]. apply Nat.eqb_eq in Hj. simpl in Hj. subst j.
    apply in_rev, in_map_iff in Hp as (j & [= <- <-] & _). reflexivity.
  - exfalso. apply find_none with (x := (i, f i)) in E.
    + simpl in E. now rewrite Nat.eqb_refl in E.
    + apply in_rev. rewrite rev_involutive. apply in_map_iff. now exists i.
Qed.

Lemma listed_run_step s i :
  listed s (nth i s 0%N) = true ->
  listed_run s i = (match i with O => 0 | S i' => listed_run s i' end) + 1.
Proof. intros H. destruct i; simpl in *; now rewrite H. Qed.

Lemma run_at_diagonal s i row j :
  (forall j k, In (j, k) row -> k <= listed_run s j /\ k <= listed_run s (i - 1)) ->
  (i = 0 -> row = []) ->
  listed s (nth i s 0%N) = true -> listed s (nth j s 0%N) = true ->
  run_at row j <= listed_run s j /\ run_at row j <= listed_run s i.
Proof.
  intros Hrow H0 Hi Hj. rewrite (listed_run_step s i Hi), (listed_run_step s j Hj).
  unfold run_at. destruct j as [|j']; [lia|].
  destruct (j2len_get_spec row j') as [E|Hin]; [rewrite E; lia|].
  destruct i as [|i']; [now rewrite H0 in Hin|].
  apply Hrow in Hin. simpl in Hin. rewrite Nat.sub_0_r in Hin. lia.
Qed.

Lemma flm_outer_diagonal s i st :
  i < length s -> diagonal s i st ->
  diagonal s (S i) (flm_outer s s 0 (length s) st i).
Proof.
  intros Hi (Hd & Hmax & Hrow & H0 & Hget). unfold flm_outer.
  set (x := nth i s 0%N).
  destruct (listed s x) eqn:Hl.
  - assert (Eb : b2j s x = indices_of x s 0).
    { unfold listed in Hl. unfold b2j in *.
      destruct (_ && _); [discriminate|reflexivity]. }
    rewrite Eb.
    destruct (indices_of_split x s 0 i Hi eq_refl) as (js1 & js2 & E & H1 & H2).
    simpl in E, H1, H2.
    assert (Hall : forall j, In j (indices_of x s 0) -> 0 <= j < length s).
    { intros j Hj. apply indices_of_range in Hj. lia. }
    assert (Hjs : forall j, In j (indices_of x s 0) -> listed s (nth j s 0%N) = true).
    { intros j Hj. apply indices_of_nth in Hj. rewrite Nat.sub_0_r in Hj.
      now rewrite Hj. }
    rewrite flm_inner_all by exact Hall.
    assert (Hri : run_at (fst st) i = listed_run s i).
    { rewrite (listed_run_step s i Hl). unfold run_at.
      destruct i as [|i']; [reflexivity|].
      specialize (Hget ltac:(lia)). simpl in Hget. rewrite Nat.sub_0_r in Hget.
      now rewrite Hget. }
    assert (Hb : forall j, In j (indices_of x s 0) ->
               run_at (fst st) j <= listed_run s j
               /\ run_at (fst st) j <= listed_run s i).
    { intros j Hj. apply run_at_diagonal; auto. }
    assert (F1 : fold_left (better i (fst st)) js1 (snd st) = snd st).
    { apply fold_better_keep. intros j Hj.
      assert (Hin : In j (indices_of x s 0)) by (rewrite E; apply in_or_app; now left).
      pose proof (Hb j Hin). pose proof (Hmax j (H1 j Hj)). lia. }
    set (best' := better i (fst st) (snd st) i).
    assert (F2 : fst (fst best') = snd (fst best')
                 /\ listed_run s i <= snd best' /\ snd (snd st) <= snd best').
    { unfold best', better. rewrite Hri.
      destruct (Nat.ltb (snd (snd st)) (listed_run s i)) eqn:Elt; cbn [fst snd].
      - apply Nat.ltb_lt in Elt. lia.
      - apply Nat.ltb_ge in Elt. lia. }
    assert (F3 : fold_left (better i (fst st)) (indices_of x s 0) (snd st) = best').
    { rewrite E, fold_left_app. cbn [fold_left]. rewrite F1. fold best'.
      apply fold_better_keep. intros j Hj.
      assert (Hin : In j (indices_of x s 0))
        by (rewrite E; apply in_or_app; right; now right).
      pose proof (Hb j Hin). lia. }
    rewrite F3. unfold diagonal. cbn [fst snd]. rewrite app_nil_r.
    split; [tauto|]. split; [|split; [|split]].
    + intros i' Hi'. destruct (Nat.eq_dec i' i) as [->|Hne]; [tauto|].
      pose proof (Hmax i' ltac:(lia)). lia.
    + intros j k Hin. apply in_rev, in_map_iff in Hin as (j' & [= <- <-] & Hj').
      simpl. rewrite Nat.sub_0_r. now apply Hb.
    + discriminate.
    + intros _. simpl. rewrite Nat.sub_0_r.
      rewrite j2len_get_map; [exact Hri|]. rewrite E. apply in_or_app. right. now left.
  - assert (Eb : b2j s x = []).
    { unfold listed in Hl. now destruct (b2j s x). }
    rewrite Eb. cbn [flm_inner]. unfold diagonal. cbn [fst snd].
    assert (Hz : listed_run s i = 0).
    { destruct i; simpl; fold x; now rewrite Hl. }
    split; [assumption|]. split; [|split; [|split]].
    + intros i' Hi'. destruct (Nat.eq_dec i' i) as [->|Hne]; [lia|].
      apply Hmax. lia.
    + contradiction.
    + reflexivity.
    + intros _. simpl. rewrite Nat.sub_0_r. now rewrite Hz.
Qed.

Lemma flm_fold_diagonal s n : forall i0 st,
  i0 + n <= length s -> diagonal s i0 st ->
  diagonal s (i0 + n) (fold_left (flm_outer s s 0 (length s)) (seq i0 n) st).
Proof.
  induction n as [|n IH]; intros i0 st Hn Hd.
  - now rewrite Nat.add_0_r.
  - cbn [seq fold_left]. replace (i0 + S n) with (S i0 + n) by lia.
    apply IH; [lia|]. apply flm_outer_diagonal; [lia|assumption].
Qed.

Lemma extend_left_same s : forall p k,
  extend_left s s 0 0 p p k = (0, 0, p + k).
Proof.
  induction p as [|p IH]; intros k; [reflexivity|]. cbn [extend_left].
  replace (S p - 1) with p by lia. rewrite char_eqb_refl.
  cbn [Nat.ltb Nat.leb andb]. rewrite IH. f_equal. lia.
Qed.

Lemma extend_right_same s fuel : forall k,
  k <= length s -> length s <= k + fuel ->
  extend_right fuel s s (length s) (length s) 0 0 k = length s.
Proof.
  induction fuel as [|fuel IH]; intros k Hk Hf; [simpl; lia|].
  cbn [extend_right]. cbn [Nat.add]. rewrite char_eqb_refl, andb_true_r, andb_diag.
  destruct (Nat.ltb k (length s)) eqn:E.
  - apply Nat.ltb_lt in E. apply IH; lia.
  - apply Nat.ltb_ge in E. lia.
Qed.

(** On two copies of a string the longest match is the whole string,
    also when [autojunk] has purged popular characters from [b2j]: the
    match found by the table lies on the diagonal and the two extension
    loops, which do not consult [b2j], stretch it to both ends. *)
Lemma find_longest_match_same s :
  find_longest_match s s 0 (length s) 0 (length s) = (0, 0, length s).
Proof.
  unfold find_longest_match.
  pose proof (flm_fold_diagonal s (length s) 0 ([], (0, 0, 0)) (le_n _)) as H.
  pose proof (flm_fold_in s s 0 (length s) 0 (length s) (length s) 0
                ([], (0, 0, 0)) (le_n _) (le_n _)) as Hin.
  rewrite Nat.sub_0_r.
  destruct (fold_left _ _ _) as [row [[p q] k]].
  destruct H as (Hd & _).
  { unfold diagonal. cbn [fst snd]. repeat split; try contradiction; lia. }
  cbn [fst snd] in Hd. subst q.
  assert (Hb : block_in 0 (length s) 0 (length s) (p, p, k)).
  { apply Hin; [intros j k' []|]. unfold block_in. cbn [fst snd]. lia. }
  unfold block_in in Hb. cbn [fst snd] in Hb.
  rewrite extend_left_same. f_equal. apply extend_right_same; lia.
Qed.

Lemma matches_same s : matches s s = length s.
Proof.
  unfold matches, matching_blocks.
  replace (2 * length s + 2) with (S (2 * length s + 1)) by lia.
  cbn [blocks_loop]. rewrite find_longest_match_same.
  destruct (Nat.eqb (length s) 0) eqn:E.
  - apply Nat.eqb_eq in E. rewrite E. reflexivity.
  - assert (El : Nat.ltb (0 + length s) (length s) = false)
      by (apply Nat.ltb_ge; lia).
    rewrite El. cbn [Nat.ltb Nat.leb andb app].
    destruct (2 * length s + 1); simpl; lia.
Qed.

Local Open Scope Z_scope.

Lemma ratio_formula_full n :
  1 <= n ->
  fdiv (fmul F_TWO (f64_of_int n)) (f64_of_int (n + n)) = F_ONE.
Proof.
  intros Hn. pose proof (f64_of_int_ge_one n Hn) as Hx.
  assert (HU : 0 < 2 ^ 1074) by reflexivity.
  assert (H52 : 2 ^ 52 <= 2 ^ 1074) by (apply Z.pow_le_mono_r; lia).
  set (x := f64_of_int n) in *. unfold F_ONE in Hx.
  assert (E1 : f64_of_int (n + n) = 2 * x).
  { unfold x, f64_of_int, F_UNIT.
    replace ((n + n) * 2 ^ 1074) with (2 * (n * 2 ^ 1074)) by ring.
    apply rne_double; [lia|]. rewrite Z.div_1_r. nia. }
  assert (E2 : fmul F_TWO x = 2 * x).
  { unfold fmul, F_TWO, F_UNIT.
    replace (2 ^ 1075 * x) with (2 ^ 1074 * (2 * x))
      by (change (2 ^ 1075) with (2 * 2 ^ 1074); ring).
    replace (2 ^ 1074) with (2 ^ 1074 * 1) at 2 by ring.
    rewrite rne_scale by lia.
    rewrite rne_double by (rewrite ?Z.div_1_r; lia).
    f_equal. unfold x, f64_of_int. apply rne_idem; [|lia].
    unfold F_UNIT. nia. }
  rewrite E1, E2. unfold fdiv, F_UNIT, F_ONE.
  replace (2 * x * 2 ^ 1074) with (1 * 2 ^ 1074 * (2 * x)) by ring.
  rewrite rne_exact; [ring|lia|lia|lia].
Qed.

Local Close Scope Z_scope.

(** A text compared with itself scores exactly [1.0]. *)
Lemma ratio_same s : ratio s s = F_ONE.
Proof.
  unfold ratio. rewrite matches_same.
  destruct (Nat.eqb (length s + length s) 0) eqn:E; [reflexivity|].
  apply Nat.eqb_neq in E. rewrite Nat2Z.inj_add.
  apply ratio_formula_full. lia.
Qed.

Lemma flm_fold_empty a b bhi n : forall i0 st,
  (forall i, i0 <= i < i0 + n -> b2j b (nth i a 0%N) = []) ->
  snd (fold_left (flm_outer a b 0 bhi) (seq i0 n) st) = snd st.
Proof.
  induction n as [|n IH]; intros i0 st H; [reflexivity|].
  cbn [seq fold_left]. rewrite IH by (intros i Hi; apply H; lia).
  unfold flm_outer. rewrite H by lia. reflexivity.
Qed.

Lemma b2j_none b x : ~ In x b -> b2j b x = [].
Proof.
  intros H. unfold b2j. rewrite indices_of_none by assumption.
  now destruct (_ && _).
Qed.

Lemma find_longest_match_disjoint a b :
  (forall c, In c a -> ~ In c b) ->
  find_longest_match a b 0 (length a) 0 (length b) = (0, 0, 0).
Proof.
  intros H. unfold find_longest_match. rewrite Nat.sub_0_r.
  pose proof (flm_fold_empty a b (length b) (length a) 0 ([], (0, 0, 0))) as F.
  destruct (fold_left _ _ _) as [row best]. simpl in F.
  rewrite F.
  2:{ intros i Hi. apply b2j_none, H, nth_In. lia. }
  cbn [extend_left]. f_equal.
  destruct a as [|x a']; [reflexivity|]. cbn [length extend_right].
  destruct b as [|y b']; [reflexivity|].
  cbn [Nat.add nth length].
  assert (E : char_eqb x y = false).
  { apply char_eqb_neq. intros ->. apply (H y); now left. }
  rewrite E. now rewrite !andb_false_r.
Qed.

Lemma matches_disjoint a b :
  (forall c, In c a -> ~ In c b) -> matches a b = 0.
Proof.
  intros H. unfold matches, matching_blocks.
  replace (2 * length a + 2) with (S (2 * length a + 1)) by lia.
  cbn [blocks_loop]. rewrite find_longest_match_disjoint by assumption.
  cbn [Nat.eqb]. now destruct (2 * length a + 1).
Qed.

(** Two texts without a common character, not both empty, score [0.0]. *)
Lemma ratio_disjoint a b :
  (forall c, In c a -> ~ In c b) -> nonempty (a ++ b) = true ->
  ratio a b = F_ZERO.
Proof.
  intros H Hne. unfold ratio. rewrite matches_disjoint by assumption.
  destruct (Nat.eqb (length a + length b) 0) eqn:E.
  - apply Nat.eqb_eq in E. destruct a, b; simpl in *; try discriminate; lia.
  - apply Nat.eqb_neq in E.
    assert (Hpos : (F_ONE <= f64_of_int (Z.of_nat (length a + length b)))%Z)
      by (apply f64_of_int_ge_one; lia).
    assert (HU : (0 < F_ONE)%Z) by reflexivity.
    assert (E0 : f64_of_int (Z.of_nat 0) = 0%Z).
    { unfold f64_of_int. rewrite Z.mul_0_l. now apply rne_zero. }
    assert (E1 : fmul F_TWO 0%Z = 0%Z).
    { unfold fmul. rewrite Z.mul_0_r. now apply rne_zero. }
    rewrite E0, E1. unfold fdiv. rewrite Z.mul_0_l. apply rne_zero. lia.
Qed.

Lemma three_ones : fdiv (fadd (fadd F_ONE F_ONE) F_ONE) F_THREE = F_ONE.
Proof. vm_compute. reflexivity. Qed.

(** X8: in [main_CLI.py] a candidate that agrees with every hint gets the
    confidence exactly [1.0], the greatest possible: its title equals the
    query up to case, its release date formatted as YYMMDD is the expected
    date, and its first developer equals the expected producer up to
    case.  This holds for texts of any length, although [difflib] drops
    the characters that are frequent in a long text from its index. *)
Theorem perfect_match_confidence_CLI (U : unicode_db)
  (search_query expected_date expected_producer : str) (candidate : vn) :
  lower U search_query = lower U (get_or (vn_title candidate) []) ->
  nonempty expected_date = true ->
  candidate_date_CLI candidate = expected_date ->
  nonempty expected_producer = true ->
  nonempty (first_developer candidate) = true ->
  lower U expected_producer = lower U (first_developer candidate) ->
  composite_conf_CLI U search_query expected_date expected_producer candidate
  = F_ONE.
Proof.
  intros Ht Hd Hde Hp Hpd Hpe.
  unfold composite_conf_CLI, title_conf_CLI, date_conf_CLI, prod_conf_CLI.
  rewrite <- Ht, <- Hpe, Hde, Hd, Hp, Hpd. cbn [andb].
  rewrite !ratio_same. apply three_ones.
Qed.

Lemma perfect_match_confidence_CLI_witness :
  candidate_date_CLI
    (Build_vn (Some (lit "Air")) [] (Some (lit "2000-09-08"))
       [Build_developer (Some (lit "Key"))] None) = lit "000908"
  /\ composite_conf_CLI ascii_db (lit "AIR") (lit "000908") (lit "KEY")
       (Build_vn (Some (lit "Air")) [] (Some (lit "2000-09-08"))
          [Build_developer (Some (lit "Key"))] None)
     = F_ONE.
Proof.
  split; [reflexivity|].
  apply perfect_match_confidence_CLI; reflexivity.
Defined.

Lemma fmax_ge_l x y : (x <= fmax x y)%Z.
Proof. unfold fmax. destruct (x <? y)%Z eqn:E; [apply Z.ltb_lt in E|]; lia. Qed.

(** X9: in [main_GUI.py] a candidate that agrees with every hint gets the
    match value exactly [1.0]: its title equals the query up to case, its
    release date as the catalog gives it equals the expected date
    rewritten as 20YY-MM-DD, and its first developer equals the expected
    producer once both are normalized (characters that are not word
    characters removed, then lower-cased), so that punctuation and spaces
    in a producer name do not count. *)
Theorem perfect_match_confidence_GUI (U : unicode_db)
  (search_query expected_date expected_producer : str) (cand : vn) :
  lower U search_query = lower U (get_or (vn_title cand) []) ->
  nonempty expected_date = true ->
  norm_date_GUI expected_date = get_or (vn_released cand) [] ->
  nonempty expected_producer = true ->
  nonempty (first_developer cand) = true ->
  normalize_string U expected_producer
  = normalize_string U (first_developer cand) ->
  match_GUI U search_query expected_date expected_producer cand = F_ONE.
Proof.
  intros Ht Hd Hde Hp Hpd Hpe.
  assert (Htitle : title_sim_GUI U search_query cand = F_ONE).
  { pose proof (title_sim_GUI_range U search_query cand) as [_ Hle].
    assert (Hge : (F_ONE <= title_sim_GUI U search_query cand)%Z).
    { unfold title_sim_GUI. rewrite <- Ht.
      rewrite ratio_same at 1. apply fmax_ge_l. }
    lia. }
  assert (Hrel : nonempty (get_or (vn_released cand) []) = true).
  { rewrite <- Hde. unfold norm_date_GUI.
    destruct (_ && _); [reflexivity|assumption]. }
  unfold match_GUI. rewrite Htitle.
  unfold date_sim_GUI, dev_sim_GUI.
  rewrite Hd, Hrel, Hp, Hpd. cbn [andb].
  rewrite <- Hde, <- Hpe, !ratio_same. apply three_ones.
Qed.

Lemma perfect_match_confidence_GUI_witness :
  normalize_string ascii_db (lit "Type-Moon")
  = normalize_string ascii_db (lit "TYPE MOON")
  /\ match_GUI ascii_db (lit "fate/stay night") (lit "040130") (lit "Type-Moon")
       (Build_vn (Some (lit "Fate/stay night")) [] (Some (lit "2004-01-30"))
          [Build_developer (Some (lit "TYPE MOON"))] None)
     = F_ONE.
Proof.
  split; [reflexivity|].
  apply perfect_match_confidence_GUI; reflexivity.
Defined.

(** X10: in [main_CLI.py] the title score is exactly [0.0] when the
    lower-cased query and the lower-cased title of the candidate have no
    character in common and are not both empty. *)
Theorem unrelated_title_scores_zero (U : unicode_db) (search_query : str)
  (candidate : vn) :
  (forall c, In c (lower U search_query) ->
             ~ In c (lower U (get_or (vn_title candidate) []))) ->
  nonempty (lower U search_query
            ++ lower U (get_or (vn_title candidate) [])) = true ->
  title_conf_CLI U search_query candidate = F_ZERO.
Proof. intros H Hne. now apply ratio_disjoint. Qed.

Lemma unrelated_title_scores_zero_witness :
  nonempty (lower ascii_db (lit "Air") ++ lower ascii_db (lit "Momo")) = true
  /\ title_conf_CLI ascii_db (lit "Air")
       (Build_vn (Some (lit "Momo")) [] None [] None) = F_ZERO.
Proof.
  split; [reflexivity|].
  apply unrelated_title_scores_zero; [|reflexivity].
  intros c Hc Hin. simpl in Hc, Hin.
  repeat (destruct Hc as [Hc|Hc]; [subst c;
    repeat (destruct Hin as [Hin|Hin]; [discriminate Hin|]); exact Hin|]).
  exact Hc.
Defined.

(** A long text of one repeated character has nothing in [b2j] and still
    matches itself in full. *)
Example popular_characters_still_match :
  ratio (repeat 97%N 250) (repeat 97%N 250) = F_ONE
  /\ b2j (repeat 97%N 250) 97%N = [].
Proof. split; vm_compute; reflexivity. Qed.

(* ----------------------------------------------------------------- *)
(** ** Merging the detected flags *)

Lemma starts_with_refl s : starts_with s s = true.
Proof. induction s as [|c s IH]; [reflexivity|]. simpl. now rewrite char_eqb_refl. Qed.

Lemma starts_with_app p s t : starts_with p s = true -> starts_with p (s ++ t) = true.
Proof.
  revert s. induction p as [|c p IH]; intros s H; [reflexivity|].
  destruct s as [|y s]; [discriminate|]. simpl in *.
  apply andb_true_iff in H as [-> H]. now apply IH.
Qed.

Lemma contains_refl s : contains s s = true.
Proof. destruct s; simpl; [reflexivity|]. now rewrite char_eqb_refl, starts_with_refl. Qed.

Lemma contains_app_r needle p hay :
  contains needle hay = true -> contains needle (p ++ hay) = true.
Proof.
  intros H. induction p as [|c p IH]; [exact H|].
  simpl. rewrite IH. apply orb_true_r.
Qed.

Lemma contains_app_l needle hay t :
  contains needle hay = true -> contains needle (hay ++ t) = true.
Proof.
  induction hay as [|c hay IH]; intros H.
  - simpl in H. rewrite orb_false_r in H. destruct needle; [|discriminate].
    now destruct t.
  - simpl in H. apply orb_true_iff in H as [H|H].
    + cbn [app contains]. change (c :: hay ++ t) with ((c :: hay) ++ t).
      now rewrite starts_with_app.
    + cbn [app contains]. rewrite IH by assumption. apply orb_true_r.
Qed.

Lemma contains_nonempty needle hay :
  contains needle hay = true -> nonempty needle = true -> nonempty hay = true.
Proof. destruct hay; [|reflexivity]. destruct needle; [discriminate|]. discriminate. Qed.

Lemma add_flag_contains s f : contains f (add_flag s f) = true.
Proof.
  unfold add_flag. destruct (nonempty s); [|apply contains_refl].
  destruct (contains f s) eqn:E; cbn [negb]; [exact E|].
  rewrite app_assoc. apply contains_app_r, contains_refl.
Qed.

Lemma add_flag_prefix s f : is_prefix s (add_flag s f).
Proof.
  unfold add_flag. destruct (nonempty s) eqn:E.
  - destruct (negb (contains f s)); [now eexists|exists []; now rewrite app_nil_r].
  - destruct s; [now exists f|discriminate].
Qed.

Lemma add_flag_present s f :
  nonempty f = true -> contains f s = true -> add_flag s f = s.
Proof.
  intros Hf Hc. unfold add_flag.
  rewrite (contains_nonempty _ _ Hc Hf), Hc. reflexivity.
Qed.

Lemma add_flag_keeps needle s f :
  contains needle s = true -> contains needle (add_flag s f) = true.
Proof.
  intros H. unfold add_flag. destruct (nonempty s) eqn:E.
  - destruct (negb (contains f s)); [now apply contains_app_l|exact H].
  - destruct s; [|discriminate]. destruct needle; [|discriminate].
    now destruct f.
Qed.

Lemma is_prefix_trans {A} (a b c : list A) :
  is_prefix a b -> is_prefix b c -> is_prefix a c.
Proof. intros [x ->] [y ->]. exists (x ++ y). now rewrite app_assoc. Qed.

Lemma contains_single c s : contains [c] s = has_char c s.
Proof.
  induction s as [|x s IH]; [reflexivity|].
  cbn [contains starts_with has_char existsb]. rewrite IH.
  unfold has_char. now rewrite andb_true_r.
Qed.

Lemma has_char_app c s t : has_char c (s ++ t) = has_char c s || has_char c t.
Proof. unfold has_char. apply existsb_app. Qed.

Lemma has_char_strip c s :
  isspace_c c = false -> has_char c (strip s) = has_char c s.
Proof.
  intros Hc. destruct (has_char c s) eqn:E.
  - unfold has_char in *. apply existsb_exists in E as (x & Hx & Ex).
    apply char_eqb_eq in Ex. subst x.
    apply existsb_exists. exists c. split; [now apply strip_keeps|].
    apply char_eqb_refl.
  - apply has_char_false_in. apply has_char_false_in in E.
    intros H. now apply E, strip_in.
Qed.

(** Adding a one-character flag adds that character and no other, apart
    from the comma and the space of the separator. *)
Lemma add_flag_has_char c s f :
  has_char c (lit ", ") = false ->
  has_char c (add_flag s [f]) = has_char c s || char_eqb c f.
Proof.
  intros Hsep. unfold add_flag. destruct (nonempty s) eqn:E.
  - rewrite contains_single. destruct (has_char f s) eqn:Ef; cbn [negb].
    + destruct (char_eqb c f) eqn:Ec; [|now rewrite orb_false_r].
      apply char_eqb_eq in Ec. subst. now rewrite Ef.
    + rewrite !has_char_app, Hsep. cbn [has_char existsb orb].
      now rewrite orb_false_r.
  - destruct s; [|discriminate]. cbn [has_char existsb orb].
    now rewrite orb_false_r.
Qed.

Lemma default_name_has_flags c producer d l title flags tags :
  has_char c flags = true ->
  has_char c (default_name producer d l title flags tags) = true.
Proof.
  intros H. unfold default_name.
  assert (Hn : nonempty flags = true) by (destruct flags; [discriminate|reflexivity]).
  rewrite Hn.
  destruct (nonempty tags); rewrite !has_char_app, H, ?orb_true_r; reflexivity.
Qed.

(** C6: the fandisc flag chosen is the confirmed marker exactly when
    catalog and physical evidence are both true, the expected marker
    exactly when the catalog evidence is true and the physical evidence
    false, and with no catalog evidence there is no flag, whatever the
    physical evidence.  The marker reaches the name: whatever flags the
    user typed and whether or not an OST was detected, the flags passed to
    [suggest_new_folder_name] contain the confirmed marker exactly when
    the user typed it or both pieces of evidence are true, and the
    expected marker exactly when the user typed it or the catalog evidence
    is true and the physical evidence false; with catalog evidence the
    suggested name contains the chosen marker; without it the flags are
    those of the OST step on the user's flags, so no fandisc marker is
    attached. *)
Theorem fandisc_flag_policy (api_has_fandisc physical_fandisc : bool) :
  (fandisc_flag api_has_fandisc physical_fandisc = STAR_CONFIRMED
   <-> api_has_fandisc = true /\ physical_fandisc = true)
  /\ (fandisc_flag api_has_fandisc physical_fandisc = STAR_EXPECTED
      <-> api_has_fandisc = true /\ physical_fandisc = false)
  /\ fandisc_flag false physical_fandisc = []
  /\ (forall (user_flags : str) (ost_detected : bool),
        let optional_flags :=
          flags_after_ost
            (flags_after_fandisc user_flags api_has_fandisc physical_fandisc)
            ost_detected in
        contains STAR_CONFIRMED optional_flags
        = contains STAR_CONFIRMED user_flags
          || (api_has_fandisc && physical_fandisc)
        /\ contains STAR_EXPECTED optional_flags
           = contains STAR_EXPECTED user_flags
             || (api_has_fandisc && negb physical_fandisc)
        /\ (api_has_fandisc = false ->
            optional_flags = flags_after_ost user_flags ost_detected)
        /\ forall (vn_info : vn) (release_info : option release)
             (optional_tags : option str),
             exists new_name,
               suggest_new_folder_name_CLI vn_info release_info
                 (Some optional_flags) optional_tags None = Ok new_name
               /\ (api_has_fandisc = true ->
                   contains (fandisc_flag api_has_fandisc physical_fandisc)
                     new_name = true))
  /\ (forall user_flags,
        flags_after_fandisc user_flags false physical_fandisc = user_flags)
  /\ flags_after_fandisc [] api_has_fandisc physical_fandisc
     = fandisc_flag api_has_fandisc physical_fandisc.
Proof.
  split; [|split; [|split; [|split; [|split]]]];
    [| | | |reflexivity|now destruct api_has_fandisc, physical_fandisc].
  - destruct api_has_fandisc, physical_fandisc; cbv; split; intros H;
      try discriminate; try tauto; destruct H; discriminate.
  - destruct api_has_fandisc, physical_fandisc; cbv; split; intros H;
      try discriminate; try tauto; destruct H; discriminate.
  - reflexivity.
  - intros user_flags ost_detected optional_flags.
    assert (Hf : forall c, has_char c (lit ", ") = false ->
              char_eqb c 9835%N = false ->
              has_char c optional_flags
              = has_char c user_flags
                || (api_has_fandisc
                    && char_eqb c (if physical_fandisc then 9733%N else 9734%N))).
    { intros c Hsep Hc. unfold optional_flags, flags_after_ost, OST_GLYPH.
      assert (H1 : has_char c (flags_after_fandisc user_flags api_has_fandisc
                                 physical_fandisc)
                   = has_char c user_flags
                     || (api_has_fandisc
                         && char_eqb c (if physical_fandisc then 9733%N
                                        else 9734%N))).
      { unfold flags_after_fandisc, fandisc_flag, STAR_CONFIRMED, STAR_EXPECTED.
        destruct api_has_fandisc; cbn [andb nonempty];
          [|now rewrite orb_false_r].
        destruct physical_fandisc; cbn [nonempty];
          now rewrite add_flag_has_char. }
      destruct ost_detected; [|exact H1].
      rewrite add_flag_has_char by assumption. rewrite H1, Hc.
      now rewrite orb_false_r. }
    split; [|split; [|split]].
    + unfold STAR_CONFIRMED. rewrite !contains_single, Hf by reflexivity.
      now destruct physical_fandisc.
    + unfold STAR_EXPECTED. rewrite !contains_single, Hf by reflexivity.
      now destruct physical_fandisc.
    + intros ->. reflexivity.
    + intros vn_info release_info optional_tags. eexists.
      split; [reflexivity|]. intros ->.
      assert (Hm : exists c, fandisc_flag true physical_fandisc = [c]
                     /\ isspace_c c = false
                     /\ has_char c optional_flags = true).
      { exists (if physical_fandisc then 9733%N else 9734%N).
        split; [now destruct physical_fandisc|].
        split; [now destruct physical_fandisc|].
        rewrite Hf; [|now destruct physical_fandisc
                     |now destruct physical_fandisc].
        cbn [andb]. now rewrite char_eqb_refl, orb_true_r. }
      destruct Hm as (c & -> & Hsp & Hin).
      rewrite contains_single. cbn [get_or nonempty].
      apply default_name_has_flags. now rewrite has_char_strip.
Qed.

(** X11: the flags that [main] passes on after the fandisc and OST steps
    begin with the flags typed by the user, contain the fandisc marker
    chosen from the evidence, and contain the OST glyph when an OST was
    detected (without detection they are the flags of the fandisc step);
    merging again changes nothing, so a marker that is already among the
    flags is never added a second time. *)
Theorem merged_flags (user_flags : str)
  (api_has_fandisc physical_fandisc ost_detected : bool) :
  let marker := fandisc_flag api_has_fandisc physical_fandisc in
  let merge := fun flags =>
    flags_after_ost
      (flags_after_fandisc flags api_has_fandisc physical_fandisc)
      ost_detected in
  is_prefix user_flags (merge user_flags)
  /\ contains marker (merge user_flags) = true
  /\ (if ost_detected then contains OST_GLYPH (merge user_flags) = true
      else merge user_flags
           = flags_after_fandisc user_flags api_has_fandisc physical_fandisc)
  /\ merge (merge user_flags) = merge user_flags.
Proof.
  intros marker merge.
  assert (P1 : forall s, is_prefix s (flags_after_fandisc s api_has_fandisc
                                        physical_fandisc)).
  { intros s. unfold flags_after_fandisc. cbv zeta.
    destruct (nonempty _); [apply add_flag_prefix|exists []; now rewrite app_nil_r]. }
  assert (P2 : forall s, is_prefix s (flags_after_ost s ost_detected)).
  { intros s. unfold flags_after_ost.
    destruct ost_detected; [apply add_flag_prefix|exists []; now rewrite app_nil_r]. }
  assert (C1 : forall s, contains marker
                 (flags_after_fandisc s api_has_fandisc physical_fandisc) = true).
  { intros s. unfold flags_after_fandisc. cbv zeta. fold marker.
    destruct (nonempty marker) eqn:E; [apply add_flag_contains|].
    destruct marker; [now destruct s|discriminate]. }
  assert (C2 : contains marker (merge user_flags) = true).
  { unfold merge, flags_after_ost.
    destruct ost_detected; [apply add_flag_keeps|]; apply C1. }
  assert (C3 : if ost_detected then contains OST_GLYPH (merge user_flags) = true
               else merge user_flags
                    = flags_after_fandisc user_flags api_has_fandisc
                        physical_fandisc).
  { unfold merge, flags_after_ost.
    destruct ost_detected; [apply add_flag_contains|reflexivity]. }
  split; [eapply is_prefix_trans; [apply P1|apply P2]|].
  split; [exact C2|]. split; [exact C3|].
  assert (F : flags_after_fandisc (merge user_flags) api_has_fandisc
                physical_fandisc = merge user_flags).
  { unfold flags_after_fandisc. cbv zeta. fold marker.
    destruct (nonempty marker) eqn:E; [|reflexivity].
    now apply add_flag_present. }
  unfold merge at 1. rewrite F. unfold flags_after_ost.
  destruct ost_detected; [|reflexivity].
  now apply add_flag_present.
Qed.

(** The separator is a comma and a space; a glyph typed by the user is
    kept where it is. *)
Example merged_flags_example :
  flags_after_ost (flags_after_fandisc (lit "18+") true false) true
  = lit "18+, " ++ STAR_EXPECTED ++ lit ", " ++ OST_GLYPH
  /\ flags_after_ost (flags_after_fandisc (OST_GLYPH ++ lit " 18+") true true) true
     = OST_GLYPH ++ lit " 18+, " ++ STAR_CONFIRMED.
Proof. split; reflexivity. Qed.

(* ----------------------------------------------------------------- *)
(** ** The template of the editor *)

Lemma py_format_part p d l t f g x :
  In x known_placeholders ->
  py_format (template_part x) (template_kwargs p d l t f g)
  = Ok (filled_part p d l t f g x).
Proof.
  intros H. unfold known_placeholders in H. cbn [In] in H.
  repeat (destruct H as [<-|H]; [cbv -[app]; rewrite ?app_nil_r; reflexivity|]).
  contradiction.
Qed.

Lemma template_part_brace x : In LBRACE (template_part x).
Proof.
  unfold template_part.
  repeat (destruct (str_eqb x _); [simpl; tauto|]).
  simpl. tauto.
Qed.

(** Formatting the template of the editor fills every part. *)
Lemma py_format_template p d l t f g items :
  Forall (fun x => In x known_placeholders) items ->
  py_format (getTemplate items) (template_kwargs p d l t f g)
  = Ok (join (lit " ") (map (filled_part p d l t f g) items)).
Proof.
  unfold getTemplate.
  induction items as [|x items IH]; intros H; [reflexivity|].
  inversion H as [|? ? Hx Hrest]; subst. specialize (IH Hrest).
  destruct items as [|y items]; [now apply py_format_part|].
  cbn [map join] in *.
  rewrite (py_format_app _ _ _ _ _ (le_n _) (py_format_part p d l t f g x Hx)).
  change (lit " " ++ ?r) with (SPACE :: r).
  rewrite py_format_cons.
  change (char_eqb SPACE LBRACE) with false.
  change (char_eqb SPACE RBRACE) with false.
  cbv beta iota. rewrite IH. reflexivity.
Qed.

Lemma join_cons_in (c : char) sep x rest : In c x -> In c (join sep (x :: rest)).
Proof.
  intros H. destruct rest; simpl; [assumption|]. apply in_or_app. now left.
Qed.

(** X12: with a template built by the editor from items among the six
    known names, in any order and with any of them left out,
    [suggest_new_folder_name] of [main_GUI.py] never reports a missing
    placeholder: it returns the parts of the checked items joined by single
    spaces, with empty parentheses removed and the ends trimmed.  When no
    item is checked the template is empty and the name has the default
    layout. *)
Theorem editor_template_never_fails (U : unicode_db) (vn_info : vn)
  (release_info : option release)
  (optional_flags optional_tags title_override : option str)
  (checked_items : list str) :
  Forall (fun t => In t known_placeholders) checked_items ->
  let producer := resolve_producer vn_info release_info in
  let formatted_date := resolve_date vn_info release_info in
  let length_str := length_token vn_info in
  let title_str :=
    if nonempty (get_or title_override []) then get_or title_override []
    else get_or (vn_title vn_info) (lit "Unknown Title") in
  let flags_str := strip (get_or optional_flags []) in
  let tags_str := strip (get_or optional_tags []) in
  suggest_new_folder_name_GUI U vn_info release_info optional_flags
    optional_tags (Some (getTemplate checked_items)) title_override
  = Ok (match checked_items with
        | [] => default_name producer formatted_date length_str title_str
                  flags_str tags_str
        | _ :: _ =>
            strip (sub_empty_parens
                     (join (lit " ")
                        (map (filled_part producer formatted_date length_str
                                title_str flags_str tags_str)
                             checked_items)))
        end).
Proof.
  intros H producer formatted_date length_str title_str flags_str tags_str.
  unfold suggest_new_folder_name_GUI. cbn [get_or].
  fold producer formatted_date length_str title_str flags_str tags_str.
  destruct checked_items as [|x items]; [reflexivity|].
  assert (Hin : In LBRACE (getTemplate (x :: items))).
  { unfold getTemplate. cbn [map]. apply join_cons_in, template_part_brace. }
  assert (Hne : nonempty (getTemplate (x :: items)) = true).
  { destruct (getTemplate (x :: items)); [contradiction|reflexivity]. }
  assert (Hne' : nonempty (strip (getTemplate (x :: items))) = true).
  { pose proof (strip_keeps _ _ Hin eq_refl) as Hs.
    destruct (strip (getTemplate (x :: items))); [contradiction|reflexivity]. }
  rewrite Hne, Hne'. cbn [andb].
  now rewrite py_format_template.
Qed.

Lemma editor_template_never_fails_witness :
  Forall (fun t => In t known_placeholders)
    [lit "title"; lit "tags"; lit "producer"]
  /\ suggest_new_folder_name_GUI ascii_db
       (Build_vn (Some (lit "Air")) [] (Some (lit "2000-09-08"))
          [Build_developer (Some (lit "Key"))] None)
       None None None
       (Some (getTemplate [lit "title"; lit "tags"; lit "producer"])) None
     = Ok (lit "Air  [Key]").
Proof.
  assert (H : Forall (fun t => In t known_placeholders)
                [lit "title"; lit "tags"; lit "producer"]).
  { repeat constructor; simpl; tauto. }
  split; [exact H|].
  exact (editor_template_never_fails ascii_db
           (Build_vn (Some (lit "Air")) [] (Some (lit "2000-09-08"))
              [Build_developer (Some (lit "Key"))] None)
           None None None None _ H).
Defined.

(* ----------------------------------------------------------------- *)
(** ** Reading the title back from a suggested name *)

Lemma sub_span_first open close p rest :
  ~ In close p -> ~ In NEWLINE p ->
  sub_span open close (open :: p ++ close :: rest) = sub_span open close rest.
Proof.
  intros Hc Hn. rewrite sub_span_cons, char_eqb_refl.
  now rewrite lazy_until_app.
Qed.

Lemma sub_span_keep open close s1 s2 :
  ~ In open s1 ->
  sub_span open close (s1 ++ s2) = s1 ++ sub_span open close s2.
Proof.
  induction s1 as [|c s1 IH]; intros H; [reflexivity|].
  cbn [app]. rewrite sub_span_cons.
  destruct (char_eqb c open) eqn:E.
  - apply char_eqb_eq in E. subst. exfalso. apply H. now left.
  - f_equal. apply IH. intros Hin. apply H. now right.
Qed.

Lemma sub_span_id open close s : ~ In open s -> sub_span open close s = s.
Proof.
  intros H. rewrite <- (app_nil_r s) at 1.
  rewrite sub_span_keep by assumption. now rewrite app_nil_r.
Qed.

Lemma lstrip_spaces ws s : forallb isspace_c ws = true -> lstrip (ws ++ s) = lstrip s.
Proof.
  induction ws as [|c ws IH]; intros H; [reflexivity|]. simpl in *.
  apply andb_true_iff in H as [-> H]. now apply IH.
Qed.

Lemma lstrip_all ws : forallb isspace_c ws = true -> lstrip ws = [].
Proof.
  intros H. rewrite <- (app_nil_r ws). now rewrite lstrip_spaces.
Qed.

Lemma lstrip_all_inv s : lstrip s = [] -> forallb isspace_c s = true.
Proof.
  induction s as [|x s IH]; [reflexivity|]. simpl.
  destruct (isspace_c x); [exact IH|discriminate].
Qed.

Lemma lstrip_app s x : lstrip s <> [] -> lstrip (s ++ x) = lstrip s ++ x.
Proof.
  induction s as [|c s IH]; intros H; [contradiction|]. simpl in *.
  destruct (isspace_c c); [now apply IH|reflexivity].
Qed.

Lemma rstrip_spaces u ws : forallb isspace_c ws = true -> rstrip (u ++ ws) = rstrip u.
Proof.
  intros H. unfold rstrip. rewrite rev_app_distr, lstrip_spaces; [reflexivity|].
  rewrite forallb_forall in *. intros x Hx. apply H. now apply in_rev.
Qed.

Lemma strip_pad ws1 ws2 s :
  forallb isspace_c ws1 = true -> forallb isspace_c ws2 = true ->
  strip (ws1 ++ s ++ ws2) = strip s.
Proof.
  intros H1 H2. unfold strip. rewrite lstrip_spaces by assumption.
  destruct (lstrip s) as [|c t] eqn:E.
  - rewrite lstrip_all; [reflexivity|].
    rewrite forallb_app, H2, (lstrip_all_inv _ E). reflexivity.
  - rewrite lstrip_app by (rewrite E; discriminate).
    rewrite E. now apply rstrip_spaces.
Qed.

(** The three substitutions of [parse_folder_name] on a name built by the
    default template leave the title between white space. *)
Lemma default_name_title producer d n_opt title flags tags :
  ~ In RBRACKET producer -> ~ In NEWLINE producer ->
  ~ In RBRACKET d -> ~ In NEWLINE d ->
  opener_free title = true ->
  bracket_free flags = true -> has_char LPAREN flags = false ->
  fits_span RBRACE flags = true ->
  bracket_free tags = true -> fits_span RPAREN tags = true ->
  let length_str := match n_opt with
                    | Some n => lit "[L" ++ str_of_int n ++ lit "]"
                    | None => []
                    end in
  cleaned_name (default_name producer d length_str title flags tags)
  = strip title.
Proof.
  intros Hp1 Hp2 Hd1 Hd2 Ht Hf1 Hf2 Hf3 Hg1 Hg2 length_str.
  unfold opener_free, bracket_free, fits_span in *.
  rewrite !andb_true_iff, !negb_true_iff in *.
  rewrite !has_char_false_in in *.
  destruct Ht as [[Ht1 Ht2] Ht3]. destruct Hf3 as [Hf3 Hf4].
  destruct Hg2 as [Hg2 Hg3].
  set (fpart := if nonempty flags then lit " {" ++ flags ++ lit "}" else []).
  set (gpart := if nonempty tags then lit " (" ++ tags ++ lit ")" else []).
  set (tail := lit " " ++ title ++ fpart ++ gpart).
  assert (Hname : default_name producer d length_str title flags tags
                  = LBRACKET :: producer ++ RBRACKET
                    :: LBRACKET :: d ++ RBRACKET :: length_str ++ tail).
  { unfold default_name, tail, fpart, gpart.
    destruct (nonempty flags), (nonempty tags);
      cbn [lit map String.list_ascii_of_string app];
      repeat rewrite <- ?app_assoc, <- ?app_comm_cons; cbn [app];
      rewrite ?app_nil_r; reflexivity. }
  assert (Hfp : forall c, c <> SPACE -> c <> LBRACE -> c <> RBRACE ->
                  In c fpart -> In c flags).
  { intros c H1 H2 H3 Hin. unfold fpart in Hin.
    destruct (nonempty flags); [|contradiction].
    rewrite !in_app_iff in Hin. simpl in Hin.
    unfold SPACE, LBRACE, RBRACE in *. intuition congruence. }
  assert (Hgp : forall c, c <> SPACE -> c <> LPAREN -> c <> RPAREN ->
                  In c gpart -> In c tags).
  { intros c H1 H2 H3 Hin. unfold gpart in Hin.
    destruct (nonempty tags); [|contradiction].
    rewrite !in_app_iff in Hin. simpl in Hin.
    unfold SPACE, LPAREN, RPAREN in *. intuition congruence. }
  assert (Htail : ~ In LBRACKET tail).
  { unfold tail. rewrite !in_app_iff. intros [H|[H|[H|H]]].
    - simpl in H. destruct H as [H|[]]. discriminate.
    - contradiction.
    - apply Hfp in H; [contradiction|discriminate..].
    - apply Hgp in H; [contradiction|discriminate..]. }
  assert (S1 : sub_span LBRACKET RBRACKET
                 (default_name producer d length_str title flags tags) = tail).
  { rewrite Hname, sub_span_first by assumption.
    rewrite sub_span_first by assumption.
    unfold length_str. destruct n_opt as [n|].
    - change (lit "[L" ++ str_of_int n ++ lit "]")
        with (LBRACKET :: (76%N :: str_of_int n) ++ [RBRACKET]).
      rewrite <- app_comm_cons, <- app_assoc. cbn [app].
      destruct (length_segment_facts n) as (H1 & H2 & _).
      change (76%N :: str_of_int n ++ RBRACKET :: tail)
        with ((76%N :: str_of_int n) ++ RBRACKET :: tail).
      rewrite sub_span_first by assumption. now apply sub_span_id.
    - cbn [app]. now apply sub_span_id. }
  set (gsp := if nonempty tags then lit " " else []).
  assert (S2 : sub_span LPAREN RPAREN tail = lit " " ++ title ++ fpart ++ gsp).
  { unfold tail. rewrite !app_assoc. rewrite sub_span_keep.
    - f_equal. unfold gpart, gsp. destruct (nonempty tags); [|reflexivity].
      change (lit " (" ++ tags ++ lit ")")
        with (SPACE :: LPAREN :: tags ++ RPAREN :: []).
      rewrite sub_span_cons. change (char_eqb SPACE LPAREN) with false.
      cbv iota. now rewrite sub_span_first.
    - rewrite !in_app_iff. intros [[H|H]|H].
      + simpl in H. destruct H as [H|[]]. discriminate.
      + contradiction.
      + unfold fpart in H. destruct (nonempty flags); [|contradiction].
        rewrite !in_app_iff in H. simpl in H.
        destruct H as [[H|[H|[]]]|[H|[H|[]]]]; try discriminate. contradiction. }
  set (fsp := if nonempty flags then lit " " else []).
  assert (S3 : sub_span LBRACE RBRACE (lit " " ++ title ++ fpart ++ gsp)
               = lit " " ++ title ++ fsp ++ gsp).
  { rewrite (app_assoc (lit " ")). rewrite sub_span_keep.
    - rewrite <- app_assoc. do 2 f_equal. unfold fpart, fsp.
      destruct (nonempty flags).
      + change ((lit " {" ++ flags ++ lit "}") ++ gsp)
          with (SPACE :: LBRACE :: (flags ++ lit "}") ++ gsp).
        rewrite <- app_assoc. cbn [lit map String.list_ascii_of_string app].
        rewrite sub_span_cons. change (char_eqb SPACE LBRACE) with false.
        cbv iota. change (N_of_ascii "}") with RBRACE.
        rewrite sub_span_first by assumption. f_equal.
        apply sub_span_id. unfold gsp. destruct (nonempty tags); simpl; [|tauto].
        intros [H|[]]. discriminate.
      + cbn [app]. apply sub_span_id. unfold gsp.
        destruct (nonempty tags); simpl; [|tauto]. intros [H|[]]. discriminate.
    - rewrite in_app_iff. intros [H|H]; [|contradiction].
      simpl in H. destruct H as [H|[]]. discriminate. }
  unfold cleaned_name. rewrite S1, S2, S3.
  apply strip_pad; [reflexivity|].
  unfold fsp, gsp. destruct (nonempty flags), (nonempty tags); reflexivity.
Qed.

Lemma fits_span_strip close s : fits_span close s = true -> fits_span close (strip s) = true.
Proof.
  unfold fits_span. rewrite !andb_true_iff, !negb_true_iff, !has_char_false_in.
  intros [H1 H2]. split; intros Hin; apply strip_in in Hin; tauto.
Qed.

Lemma resolve_date_fits vn_info release_info :
  ~ In RBRACKET (resolve_date vn_info release_info)
  /\ ~ In NEWLINE (resolve_date vn_info release_info).
Proof.
  destruct (resolve_date_cases vn_info release_info) as [E|(y & m & d & Hr & E)];
    rewrite E.
  - split; simpl; intros H;
      repeat (destruct H as [H|H]; [discriminate H|]); exact H.
  - destruct (strftime_plausible y m d) as (_ & Hdec & _); try tauto.
    rewrite forallb_forall in Hdec.
    split; intros Hin; now destruct (decimal_not_special _ (Hdec _ Hin)).
Qed.

Lemma before_first_id sep s : ~ In sep s -> before_first sep s = s.
Proof.
  induction s as [|c s IH]; intros H; [reflexivity|]. cbn [before_first].
  destruct (char_eqb c sep) eqn:E.
  - apply char_eqb_eq in E. subst. exfalso. apply H. now left.
  - f_equal. apply IH. intros Hin. apply H. now right.
Qed.

(** X13: the title is read back from a name built by the default
    template.  When the producer has no closing square bracket and no
    newline, the title has no opening bracket, parenthesis or brace and no
    white space at its ends, the flags have no opening square bracket or
    parenthesis, no closing brace and no newline, and the tags have no
    opening square bracket, no closing parenthesis and no newline, then
    [parse_folder_name] applied to the name suggested by the CLI returns
    the title in the GUI and the trimmed part of the title before its
    first plus sign in the CLI (the whole title when it has none); the
    name suggested by the GUI without a template and without a title
    override gives the title back as well. *)
Theorem title_round_trip (U : unicode_db) (vn_info : vn)
  (release_info : option release) (optional_flags optional_tags : option str) :
  title_recoverable (resolve_producer vn_info release_info)
    (get_or (vn_title vn_info) (lit "Unknown Title"))
    (strip (get_or optional_flags [])) (get_or optional_tags []) = true ->
  (exists name,
     suggest_new_folder_name_CLI vn_info release_info optional_flags
       optional_tags None = Ok name
     /\ parse_folder_name_GUI name
        = get_or (vn_title vn_info) (lit "Unknown Title")
     /\ parse_folder_name_CLI name
        = strip (before_first PLUS
                   (get_or (vn_title vn_info) (lit "Unknown Title"))))
  /\ (exists name,
        suggest_new_folder_name_GUI U vn_info release_info optional_flags
          optional_tags None None = Ok name
        /\ parse_folder_name_GUI name
           = get_or (vn_title vn_info) (lit "Unknown Title")).
Proof.
  unfold title_recoverable. rewrite !andb_true_iff.
  intros (((((((Hp & Ht) & Hs) & Hf1) & Hf2) & Hf3) & Hg1) & Hg2).
  apply str_eqb_eq in Hs. apply negb_true_iff in Hf2.
  assert (Hp' := Hp). unfold fits_span in Hp'.
  rewrite andb_true_iff, !negb_true_iff, !has_char_false_in in Hp'.
  destruct Hp' as [Hp1 Hp2].
  destruct (resolve_date_fits vn_info release_info) as [Hd1 Hd2].
  set (title := get_or (vn_title vn_info) (lit "Unknown Title")) in *.
  assert (Hc : forall tags, bracket_free tags = true ->
                 fits_span RPAREN tags = true ->
                 cleaned_name
                   (default_name (resolve_producer vn_info release_info)
                      (resolve_date vn_info release_info)
                      (length_token vn_info) title
                      (strip (get_or optional_flags [])) tags) = title).
  { intros tags Hb Hfit. rewrite <- Hs at 2. unfold length_token.
    now apply (default_name_title _ _ (vn_length vn_info)). }
  split.
  - eexists. split; [reflexivity|]. cbn [get_or nonempty].
    unfold parse_folder_name_CLI, parse_folder_name_GUI.
    fold title. rewrite Hc by assumption. split; [reflexivity|].
    destruct (has_char PLUS title) eqn:E; [reflexivity|].
    apply has_char_false_in in E. now rewrite before_first_id, Hs.
  - eexists. split; [reflexivity|]. cbn [get_or nonempty andb].
    unfold parse_folder_name_GUI. fold title.
    apply Hc; [now apply bracket_free_strip|now apply fits_span_strip].
Qed.

Lemma title_round_trip_witness :
  exists name,
    suggest_new_folder_name_CLI
      (Build_vn (Some (lit "Fate/Stay")) [] (Some (lit "2004-01-29")) []
         (Some 40%Z))
      (Some (Build_release None None
               [Build_producer (Some (lit "TYPE-MOON")) true]))
      (Some (lit "18+")) (Some (lit "Romance")) None = Ok name
    /\ parse_folder_name_GUI name = lit "Fate/Stay"
    /\ parse_folder_name_CLI name = lit "Fate/Stay".
Proof.
  exact (proj1 (title_round_trip ascii_db
    (Build_vn (Some (lit "Fate/Stay")) [] (Some (lit "2004-01-29")) []
       (Some 40%Z))
    (Some (Build_release None None
             [Build_producer (Some (lit "TYPE-MOON")) true]))
    (Some (lit "18+")) (Some (lit "Romance")) eq_refl)).
Defined.

(* ----------------------------------------------------------------- *)
(** ** Release lookup *)

Lemma find_official_split l x :
  find official l = Some x ->
  exists before after, l = before ++ x :: after
    /\ forallb (fun y => negb (official y)) before = true
    /\ official x = true.
Proof.
  induction l as [|y l IH]; [discriminate|]. simpl.
  destruct (official y) eqn:Ey.
  - intros [= ->]. now exists [], l.
  - intros H. destruct (IH H) as (b & a & -> & Hb & Hx).
    exists (y :: b), a. simpl. now rewrite Ey.
Qed.

Lemma select_release_spec releases r :
  select_release releases = Some r ->
  exists before after,
    releases = before ++ r :: after
    /\ forallb (fun x => negb (official x)) before = true
    /\ (official r = true
        \/ (before = [] /\ forallb (fun x => negb (official x)) after = true)).
Proof.
  unfold select_release. destruct releases as [|first more]; [discriminate|].
  destruct (find official (first :: more)) as [x|] eqn:E.
  - intros [= <-].
    destruct (find_official_split _ _ E) as (b & a & -> & Hb & Hx).
    exists b, a. auto.
  - intros [= <-]. exists [], more. split; [reflexivity|]. split; [reflexivity|].
    right. split; [reflexivity|].
    apply forallb_forall. intros y Hy.
    apply find_none with (x := y) in E; [now rewrite E|now right].
Qed.

(** X14: [search_release] of [main_CLI.py] returns nothing exactly when
    the request fails or the reply holds no release; otherwise it returns
    a release of the reply, namely the first one marked official when
    there is one, and the first release of the reply when none is marked
    official. *)
Theorem search_release_CLI_first_official
  (response : option (reply release_entry)) :
  match search_release_CLI response with
  | None => response = None
            \/ exists data, response = Some data /\ reply_items data = []
  | Some r =>
      exists data before after,
        response = Some data
        /\ reply_items data = before ++ r :: after
        /\ forallb (fun x => negb (official x)) before = true
        /\ (official r = true
            \/ (before = []
                /\ forallb (fun x => negb (official x)) after = true))
  end.
Proof.
  unfold search_release_CLI. destruct response as [data|]; [|now left].
  destruct (select_release (reply_items data)) as [r|] eqn:E.
  - destruct (select_release_spec _ _ E) as (b & a & H1 & H2 & H3).
    now exists data, b, a.
  - right. exists data. split; [reflexivity|].
    unfold select_release in E. destruct (reply_items data); [reflexivity|].
    now destruct (find official (r :: l)).
Qed.

(** X15: [search_release] of [main_GUI.py] gives the same requests and
    the same answer whether or not the id already carries the prefix [v].
    It first asks for [v] followed by the number; it asks for the bare
    number only when that reply has no results; it answers with the first
    official release (else the first release) of the first reply that has
    results, and with nothing only when both replies have none. *)
Theorem search_release_GUI_lookup (post : str -> option (list release_entry))
  (vn_id : str) :
  let v := lit "v" ++ vn_num vn_id in
  let n := vn_num vn_id in
  search_release_GUI post (prefixed_id vn_id) = search_release_GUI post vn_id
  /\ match search_release_GUI post vn_id with
     | (Some r, sent) =>
         exists value results,
           post value = Some results /\ select_release results = Some r
           /\ ((sent = [v] /\ value = v)
               \/ (sent = [v; n] /\ value = n
                   /\ (post v = None \/ post v = Some [])))
     | (None, sent) =>
         sent = [v; n]
         /\ (post v = None \/ post v = Some [])
         /\ (post n = None \/ post n = Some [])
     end.
Proof.
  intros v n. split.
  - unfold prefixed_id. destruct (nonempty vn_id); [|reflexivity].
    destruct (starts_with (lit "v") vn_id) eqn:E; [reflexivity|].
    cbn [negb andb]. unfold search_release_GUI, vn_num. rewrite E.
    change (starts_with (lit "v") (lit "v" ++ vn_id)) with true.
    reflexivity.
  - unfold search_release_GUI. fold v n. cbn [search_release_loop].
    destruct (post v) as [[|f1 m1]|] eqn:E1.
    + destruct (post n) as [[|f2 m2]|] eqn:E2.
      * auto.
      * destruct (select_release (f2 :: m2)) as [r|] eqn:Es.
        -- exists n, (f2 :: m2). auto 8.
        -- simpl in Es. now destruct (official f2), (find official m2).
      * auto.
    + destruct (select_release (f1 :: m1)) as [r|] eqn:Es.
      * exists v, (f1 :: m1). auto.
      * simpl in Es. now destruct (official f1), (find official m1).
    + destruct (post n) as [[|f2 m2]|] eqn:E2.
      * auto.
      * destruct (select_release (f2 :: m2)) as [r|] eqn:Es.
        -- exists n, (f2 :: m2). auto 8.
        -- simpl in Es. now destruct (official f2), (find official m2).
      * auto.
Qed.

(* ----------------------------------------------------------------- *)
(** ** The colour of a match value *)

(** The colours of 0, 1/4, 1/2, 3/4, 1, 3, -1, -0.0, the infinities, NaN,
    and of the floats nearest to 1/3 and 2/3. *)
Example get_confidence_color_examples :
  map get_confidence_color
    [Finite false 0; Finite false (2 ^ 1072); Finite false F_HALF;
     Finite false (3 * 2 ^ 1072); Finite false F_ONE; Finite false F_THREE;
     Finite true F_ONE; Finite true 0; Infinite false; Infinite true; NaN;
     Finite false (fdiv F_ONE F_THREE); Finite false (fdiv F_TWO F_THREE)]
  = [lit "#FF0000"; lit "#FF5200"; lit "#FFA500"; lit "#7FD200";
     lit "#00FF00"; lit "#00FF00"; lit "#FF0000"; lit "#FF0000";
     lit "#00FF00"; lit "#FF0000"; lit "#00FF00";
     lit "#FF6E00"; lit "#AAC300"].
Proof. vm_compute. reflexivity. Qed.

Lemma format_02X_table :
  forallb (fun n => str_eqb (format_02X (Z.of_nat n)) (two_hex (Z.of_nat n)))
          (seq 0 256) = true.
Proof. vm_compute. reflexivity. Qed.

Lemma format_02X_byte n : (0 <= n <= 255)%Z -> format_02X n = two_hex n.
Proof.
  intros H. pose proof format_02X_table as T. rewrite forallb_forall in T.
  specialize (T (Z.to_nat n)). rewrite in_seq in T.
  specialize (T ltac:(lia)). rewrite Z2Nat.id in T by lia.
  now apply str_eqb_eq.
Qed.

Local Open Scope Z_scope.

Lemma fround_nonneg num den : 0 <= num -> fround num den = rne num den.
Proof.
  intros H. unfold fround. destruct (num <? 0) eqn:E; [|reflexivity].
  apply Z.ltb_lt in E. lia.
Qed.

Lemma clamp_unit_range x : 0 <= clamp_unit x <= F_ONE.
Proof.
  assert (H : 0 < F_ONE) by reflexivity.
  destruct x as [[|] k|[|]|]; cbn [clamp_unit]; unfold F_ZERO; try lia.
  destruct (k <? F_ONE) eqn:E1; [|lia]. apply Z.ltb_lt in E1.
  destruct (0 <? k) eqn:E2; [apply Z.ltb_lt in E2|]; lia.
Qed.

Lemma f64_of_int_small n : 0 <= n < 2 ^ 53 -> f64_of_int n = n * 2 ^ 1074.
Proof.
  intros Hn. unfold f64_of_int, F_UNIT.
  replace (n * 2 ^ 1074) with (n * 2 ^ 1074 * 1) at 1 by ring.
  apply rne_exact; lia.
Qed.

Lemma int_of_float_range x n :
  0 <= x <= n * 2 ^ 1074 -> 0 <= int_of_float x <= n.
Proof.
  intros H. assert (HU : 0 < 2 ^ 1074) by reflexivity.
  unfold int_of_float, F_UNIT. rewrite Z.quot_div_nonneg by lia.
  split; [apply Z.div_pos; lia|].
  apply Z.div_le_upper_bound; lia.
Qed.

Lemma int_of_float_ge x n :
  0 <= n -> n * 2 ^ 1074 <= x -> n <= int_of_float x.
Proof.
  intros Hn H. assert (HU : 0 < 2 ^ 1074) by reflexivity.
  unfold int_of_float, F_UNIT. rewrite Z.quot_div_nonneg by nia.
  apply Z.div_le_lower_bound; lia.
Qed.

(** [rne] of a product with a float in the unit interval. *)
Lemma fmul_unit_range t n :
  0 <= t <= F_ONE -> 0 <= n <= 255 ->
  0 <= fmul_signed t (f64_of_int n) <= n * 2 ^ 1074
  /\ 0 <= fmul_signed (f64_of_int n) t <= n * 2 ^ 1074.
Proof.
  intros Ht Hn. assert (HU : 0 < 2 ^ 1074) by reflexivity.
  assert (H53 : 2 ^ 53 = 9007199254740992) by reflexivity.
  unfold fmul_signed, F_ONE, F_UNIT in *. rewrite f64_of_int_small by lia.
  rewrite !fround_nonneg by nia.
  split; (split; [apply rne_nonneg; nia|apply rne_le_repr; nia || lia]).
Qed.

Lemma fdiv_half_range d :
  0 <= d <= F_HALF -> 0 <= fdiv_signed d F_HALF <= F_ONE.
Proof.
  intros H. assert (HU : 0 < 2 ^ 1074) by reflexivity.
  assert (HH : 0 < 2 ^ 1073) by reflexivity.
  unfold fdiv_signed, F_HALF, F_UNIT, F_ONE in *.
  rewrite fround_nonneg by nia.
  split; [apply rne_nonneg; nia|].
  replace (2 ^ 1074) with (1 * 2 ^ 1074) at 2 by ring.
  apply rne_le_repr; try lia; nia.
Qed.

Lemma fsub_range a b c j :
  0 <= b <= a -> 0 <= c < 2 ^ 53 -> 0 <= j -> a - b <= c * 2 ^ j ->
  0 <= fsub a b <= c * 2 ^ j.
Proof.
  intros H Hc Hj Hle. unfold fsub. rewrite fround_nonneg by lia.
  split; [apply rne_nonneg; lia|]. apply rne_le_repr; lia.
Qed.

Local Close Scope Z_scope.

(** X16: for every float, NaN and the infinities included,
    [get_confidence_color] returns a colour of the form [#RRGGBB]: a hash
    sign and three bytes in two upper-case hexadecimal digits each, with
    blue 00.  When the clamped value is at most one half the red byte is
    FF and green is at most A5 (165); when it is above one half green is
    at least A5.  The colour is [#FF0000] at the clamped value 0,
    [#FFA500] at one half and [#00FF00] at 1. *)
Theorem get_confidence_color_valid (match_val : pyfloat) :
  exists r g : Z,
    (0 <= r <= 255)%Z /\ (0 <= g <= 255)%Z
    /\ (if (clamp_unit match_val <=? F_HALF)%Z
        then r = 255 /\ g <= 165
        else 165 <= g)%Z
    /\ get_confidence_color match_val
       = lit "#" ++ two_hex r ++ two_hex g ++ lit "00"
    /\ (clamp_unit match_val = F_ZERO ->
        get_confidence_color match_val = lit "#FF0000")
    /\ (clamp_unit match_val = F_HALF ->
        get_confidence_color match_val = lit "#FFA500")
    /\ (clamp_unit match_val = F_ONE ->
        get_confidence_color match_val = lit "#00FF00").
Proof.
  assert (Ends : (clamp_unit match_val = F_ZERO ->
                  get_confidence_color match_val = lit "#FF0000")
                 /\ (clamp_unit match_val = F_HALF ->
                     get_confidence_color match_val = lit "#FFA500")
                 /\ (clamp_unit match_val = F_ONE ->
                     get_confidence_color match_val = lit "#00FF00")).
  { unfold get_confidence_color.
    repeat split; intros ->; vm_compute; reflexivity. }
  revert Ends. unfold get_confidence_color. intros Ends.
  pose proof (clamp_unit_range match_val) as Hp.
  set (p := clamp_unit match_val) in *.
  assert (H53 : (2 ^ 53 = 9007199254740992)%Z) by reflexivity.
  assert (HU : (0 < 2 ^ 1074)%Z) by reflexivity.
  assert (H2 : (2 ^ 1074 = 2 * 2 ^ 1073)%Z) by reflexivity.
  destruct (p <=? F_HALF)%Z eqn:E.
  - apply Z.leb_le in E.
    pose proof (fdiv_half_range p ltac:(lia)) as Ht.
    set (t := fdiv_signed p F_HALF) in *.
    destruct (fmul_unit_range t 165 Ht ltac:(lia)) as [Hg _].
    pose proof (int_of_float_range _ _ Hg) as Hgi.
    exists 255%Z, (int_of_float (fmul_signed t (f64_of_int 165))).
    split; [lia|]. split; [lia|].
    split; [cbv iota; lia|]. split; [|exact Ends].
    rewrite !format_02X_byte by lia. reflexivity.
  - apply Z.leb_gt in E.
    assert (EH : F_HALF = (2 ^ 1073)%Z) by reflexivity.
    assert (EO : F_ONE = (2 ^ 1074)%Z) by reflexivity.
    pose proof (fsub_range p F_HALF 1 1073 ltac:(lia) ltac:(lia) ltac:(lia)
                  ltac:(lia)) as Hd.
    set (d := fsub p F_HALF) in *.
    pose proof (fdiv_half_range d ltac:(lia)) as Ht.
    set (t := fdiv_signed d F_HALF) in *.
    pose proof (fsub_range F_ONE t 1 1074 ltac:(lia) ltac:(lia) ltac:(lia)
                  ltac:(lia)) as He.
    set (e := fsub F_ONE t) in *.
    destruct (fmul_unit_range e 255 ltac:(lia) ltac:(lia)) as [_ Hr].
    destruct (fmul_unit_range t 90 ltac:(lia) ltac:(lia)) as [Hm _].
    change (255 - 165)%Z with 90%Z.
    set (m := fmul_signed t (f64_of_int 90)) in *.
    assert (Hg : (165 * 2 ^ 1074 <= fadd_signed (f64_of_int 165) m
                  <= 255 * 2 ^ 1074)%Z).
    { unfold fadd_signed. rewrite f64_of_int_small by lia.
      rewrite fround_nonneg by lia. split.
      - replace (165 * 2 ^ 1074)%Z with (rne (165 * 2 ^ 1074 * 1) 1) at 1
          by (apply rne_exact; lia).
        apply rne_mono; lia.
      - apply rne_le_repr; lia. }
    set (gf := fadd_signed (f64_of_int 165) m) in *.
    pose proof (int_of_float_range _ _ Hr) as Hri.
    pose proof (int_of_float_range gf 255 ltac:(lia)) as Hgi.
    pose proof (int_of_float_ge gf 165 ltac:(lia) (proj1 Hg)) as Hgl.
    exists (int_of_float (fmul_signed (f64_of_int 255) e)), (int_of_float gf).
    split; [exact Hri|]. split; [exact Hgi|].
    split; [cbv iota; exact Hgl|]. split; [|exact Ends].
    rewrite !format_02X_byte by lia. reflexivity.
Qed.

(* ----------------------------------------------------------------- *)
(** ** Choosing a candidate at the prompt *)

(** What [int] reads: a sign, leading zeros, single underscores between
    digits, decimal digits of other scripts. *)
Example int_of_trimmed_examples :
  map int_of_trimmed
    [lit "2"; lit "+2"; lit "-2"; lit "007"; lit "1_000"; lit "-0";
     [1634%N; 1633%N]; lit ""; lit "-"; lit "_1"; lit "1_"; lit "1__0";
     lit "1.0"; lit "0x10"; lit "- 1"; lit "two"]
  = [Ok 2%Z; Ok 2%Z; Ok (-2)%Z; Ok 7%Z; Ok 1000%Z; Ok 0%Z; Ok 21%Z;
     Raise ValueError; Raise ValueError; Raise ValueError; Raise ValueError;
     Raise ValueError; Raise ValueError; Raise ValueError; Raise ValueError;
     Raise ValueError].
Proof. reflexivity. Qed.

(** X17: what [main] does with a number typed at the prompt.  A number
    from 1 to the number of candidates picks that candidate, and 0 or a
    greater number skips the folder; a negative number is not rejected:
    it is a Python index from the end (with three candidates, -1 picks
    the second one), and from minus the number of candidates downwards it
    raises [IndexError], which [main] does not catch. *)
Theorem choose_candidate_cases {A} (line : str) (candidates : list A)
  (selection : Z) :
  int_of_trimmed (strip line) = Ok selection ->
  let n := Z.of_nat (length candidates) in
  ((1 <= selection <= n)%Z ->
   exists x, nth_error candidates (Z.to_nat (selection - 1)) = Some x
             /\ choose_candidate line candidates = Ok (Some x))
  /\ ((selection = 0 \/ n < selection)%Z ->
      choose_candidate line candidates = Ok None)
  /\ ((- n < selection < 0)%Z ->
      exists x, nth_error candidates (Z.to_nat (n + selection - 1)) = Some x
                /\ choose_candidate line candidates = Ok (Some x))
  /\ ((selection <= - n)%Z -> (selection < 0)%Z ->
      choose_candidate line candidates = Raise IndexError).
Proof.
  intros Hsel n. unfold choose_candidate. rewrite Hsel. fold n.
  assert (Hnth : forall i, (0 <= i < n)%Z ->
            exists x, nth_error candidates (Z.to_nat i) = Some x).
  { intros i Hi. destruct (nth_error candidates (Z.to_nat i)) eqn:E; [eauto|].
    apply nth_error_None in E. unfold n in Hi. lia. }
  split; [|split; [|split]].
  - intros H.
    assert (E1 : ((selection =? 0) || (n <? selection))%Z = false).
    { apply orb_false_iff. split; [apply Z.eqb_neq|apply Z.ltb_ge]; lia. }
    rewrite E1. unfold getitem.
    assert (E2 : (selection - 1 <? 0)%Z = false) by (apply Z.ltb_ge; lia).
    rewrite E2, E2.
    destruct (Hnth (selection - 1)%Z ltac:(lia)) as [x Hx].
    exists x. now rewrite Hx.
  - intros H.
    assert (E1 : ((selection =? 0) || (n <? selection))%Z = true).
    { apply orb_true_iff. destruct H; [left; apply Z.eqb_eq|right; apply Z.ltb_lt]; lia. }
    now rewrite E1.
  - intros H.
    assert (E1 : ((selection =? 0) || (n <? selection))%Z = false).
    { apply orb_false_iff. split; [apply Z.eqb_neq|apply Z.ltb_ge]; lia. }
    rewrite E1. unfold getitem. fold n.
    assert (E2 : (selection - 1 <? 0)%Z = true) by (apply Z.ltb_lt; lia).
    assert (E3 : (selection - 1 + n <? 0)%Z = false) by (apply Z.ltb_ge; lia).
    rewrite E2, E3.
    replace (selection - 1 + n)%Z with (n + selection - 1)%Z by lia.
    destruct (Hnth (n + selection - 1)%Z ltac:(lia)) as [x Hx].
    exists x. now rewrite Hx.
  - intros H H0.
    assert (E1 : ((selection =? 0) || (n <? selection))%Z = false).
    { apply orb_false_iff. split; [apply Z.eqb_neq|apply Z.ltb_ge]; lia. }
    rewrite E1. unfold getitem. fold n.
    assert (E2 : (selection - 1 <? 0)%Z = true) by (apply Z.ltb_lt; lia).
    assert (E3 : (selection - 1 + n <? 0)%Z = true) by (apply Z.ltb_lt; lia).
    now rewrite E2, E3.
Qed.

Lemma choose_candidate_cases_witness :
  int_of_trimmed (strip (lit " -1 ")) = Ok (-1)%Z
  /\ choose_candidate (lit " -1 ") [lit "a"; lit "b"; lit "c"]
     = Ok (Some (lit "b"))
  /\ choose_candidate (lit "-3") [lit "a"; lit "b"; lit "c"]
     = Raise IndexError.
Proof.
  split; [reflexivity|]. split.
  - destruct (proj1 (proj2 (proj2
      (choose_candidate_cases (lit " -1 ") [lit "a"; lit "b"; lit "c"] (-1)
         eq_refl))) ltac:(simpl; lia)) as (x & Hx & Hc).
    simpl in Hx. injection Hx as <-. exact Hc.
  - apply (choose_candidate_cases (lit "-3") [lit "a"; lit "b"; lit "c"] (-3)
             eq_refl); simpl; lia.
Defined.

(* ----------------------------------------------------------------- *)
(** ** The censor mode and the language of a text *)

(** X18: [normalize_censor_mode] always returns one of the keys [blur],
    [box] and [pixelate], and returns a key unchanged, so that
    normalizing a mode that was already normalized (as the dialog and
    [apply_censor_to_label] do) changes nothing.  The three keys are
    assumed to be their own lower case. *)
Theorem normalize_censor_mode_idempotent (U : unicode_db) (mode : option str) :
  lower U (lit "blur") = lit "blur" ->
  lower U (lit "box") = lit "box" ->
  lower U (lit "pixelate") = lit "pixelate" ->
  In (normalize_censor_mode U mode) [lit "blur"; lit "box"; lit "pixelate"]
  /\ normalize_censor_mode U (Some (normalize_censor_mode U mode))
     = normalize_censor_mode U mode.
Proof.
  intros H1 H2 H3.
  assert (F1 : normalize_censor_mode U (Some (lit "blur")) = lit "blur").
  { unfold normalize_censor_mode. cbn [get_or].
    change (strip (lit "blur")) with (lit "blur"). now rewrite H1. }
  assert (F2 : normalize_censor_mode U (Some (lit "box")) = lit "box").
  { unfold normalize_censor_mode. cbn [get_or].
    change (strip (lit "box")) with (lit "box"). now rewrite H2. }
  assert (F3 : normalize_censor_mode U (Some (lit "pixelate")) = lit "pixelate").
  { unfold normalize_censor_mode. cbn [get_or].
    change (strip (lit "pixelate")) with (lit "pixelate"). now rewrite H3. }
  unfold normalize_censor_mode at 1 3 4. cbv zeta.
  destruct (existsb _ [lit "blur"]); [simpl; auto|].
  destruct (existsb _ [lit "cover"; lit "box"; lit "black"]); [simpl; auto|].
  destruct (existsb _ [lit "pixelate"; lit "pixel"; lit "mosaic"]); simpl; auto.
Qed.

Lemma normalize_censor_mode_idempotent_witness :
  lower ascii_db (lit "blur") = lit "blur"
  /\ normalize_censor_mode ascii_db
       (Some (normalize_censor_mode ascii_db (Some (lit " Cover "))))
     = normalize_censor_mode ascii_db (Some (lit " Cover "))
  /\ normalize_censor_mode ascii_db (Some (lit " Cover ")) = lit "box".
Proof.
  split; [reflexivity|]. split; [|reflexivity].
  apply (normalize_censor_mode_idempotent ascii_db (Some (lit " Cover ")));
    reflexivity.
Defined.


(** X19: [detect_language_simple] returns [JP] exactly when the text holds
    a code point from U+3040 to U+30FF or from U+4E00 to U+9FFF, and [EN]
    for every other text; it stops at the first such code point, so the
    text after it plays no part. *)
Theorem detect_language_simple_spec (text more : str) :
  detect_language_simple text
  = (if existsb is_japanese_c text then lit "JP" else lit "EN")
  /\ detect_language_simple (text ++ more)
     = (if existsb is_japanese_c text then lit "JP"
        else detect_language_simple more).
Proof.
  assert (E : forall c,
    ((N.leb 12352 c && N.leb c 12447) || (N.leb 12448 c && N.leb c 12543)
     || (N.leb 19968 c && N.leb c 40959))%N = is_japanese_c c).
  { intros c. unfold is_japanese_c.
    destruct (N.leb 19968 c && N.leb c 40959)%N; [now rewrite !orb_true_r|].
    rewrite !orb_false_r.
    destruct (N.leb 12352 c) eqn:E1, (N.leb c 12447) eqn:E2,
             (N.leb 12448 c) eqn:E3, (N.leb c 12543) eqn:E4;
      try reflexivity;
      rewrite ?N.leb_le, ?N.leb_gt in *; lia. }
  induction text as [|c t (IH1 & IH2)]; [split; reflexivity|].
  cbn [detect_language_simple existsb app]. rewrite E.
  destruct (is_japanese_c c); cbn [orb]; [split; reflexivity|].
  split; assumption.
Qed.

(* ----------------------------------------------------------------- *)
(** ** White space around a folder name *)

Lemma lazy_until_none close s : ~ In close s -> lazy_until close s = None.
Proof.
  induction s as [|c t IH]; intros H; [reflexivity|]. simpl.
  destruct (char_eqb c close) eqn:E.
  - apply char_eqb_eq in E. subst. exfalso. apply H. now left.
  - destruct (char_eqb c NEWLINE); [reflexivity|].
    rewrite IH; [reflexivity|]. intros Hin. apply H. now right.
Qed.

Lemma lazy_until_app_tail close ws t :
  ~ In close ws ->
  lazy_until close (t ++ ws)
  = match lazy_until close t with
    | Some (body, rest) => Some (body, rest ++ ws)
    | None => None
    end.
Proof.
  intros H. induction t as [|c t IH]; [now apply lazy_until_none|].
  cbn [app lazy_until]. destruct (char_eqb c close); [reflexivity|].
  destruct (char_eqb c NEWLINE); [reflexivity|].
  rewrite IH. now destruct (lazy_until close t) as [[b r]|].
Qed.

Lemma findall_span_app_ws open close ws n : forall s,
  ~ In open ws -> ~ In close ws -> length s <= n ->
  findall_span open close (s ++ ws) = findall_span open close s.
Proof.
  induction n as [|n IH]; intros s Ho Hc Hn.
  - destruct s; [|simpl in Hn; lia]. now apply findall_span_no_open.
  - destruct s as [|c t]; [now apply findall_span_no_open|].
    simpl in Hn. cbn [app]. rewrite !findall_span_cons.
    destruct (char_eqb c open); [|apply IH; try assumption; lia].
    rewrite lazy_until_app_tail by assumption.
    destruct (lazy_until close t) as [[b r]|] eqn:E.
    + apply lazy_until_shorter in E. f_equal. apply IH; try assumption. lia.
    + apply IH; try assumption. lia.
Qed.

Lemma sub_span_app_ws open close ws n : forall s,
  ~ In open ws -> ~ In close ws -> length s <= n ->
  sub_span open close (s ++ ws) = sub_span open close s ++ ws.
Proof.
  induction n as [|n IH]; intros s Ho Hc Hn.
  - destruct s; [|simpl in Hn; lia]. now apply sub_span_id.
  - destruct s as [|c t]; [now apply sub_span_id|].
    simpl in Hn. cbn [app]. rewrite !sub_span_cons.
    destruct (char_eqb c open);
      [|cbn [app]; f_equal; apply IH; try assumption; lia].
    rewrite lazy_until_app_tail by assumption.
    destruct (lazy_until close t) as [[b r]|] eqn:E.
    + apply lazy_until_shorter in E. apply IH; try assumption. lia.
    + cbn [app]. f_equal. apply IH; try assumption. lia.
Qed.

Lemma findall_span_ws_app open close ws s :
  ~ In open ws ->
  findall_span open close (ws ++ s) = findall_span open close s.
Proof.
  induction ws as [|c ws IH]; intros H; [reflexivity|].
  cbn [app]. rewrite findall_span_cons.
  destruct (char_eqb c open) eqn:E.
  - apply char_eqb_eq in E. subst. exfalso. apply H. now left.
  - apply IH. intros Hin. apply H. now right.
Qed.

Lemma space_not_in c ws :
  isspace_c c = false -> forallb isspace_c ws = true -> ~ In c ws.
Proof.
  intros Hc Hw Hin. rewrite forallb_forall in Hw. apply Hw in Hin. congruence.
Qed.

Lemma lstrip_split s :
  exists w, s = w ++ lstrip s /\ forallb isspace_c w = true.
Proof.
  induction s as [|c t (w & IH & Hw)]; [now exists []|]. simpl.
  destruct (isspace_c c) eqn:E; [|now exists []].
  exists (c :: w). simpl. rewrite E, Hw. split; [now f_equal|reflexivity].
Qed.

Lemma rstrip_split s :
  exists w, s = rstrip s ++ w /\ forallb isspace_c w = true.
Proof.
  unfold rstrip. destruct (lstrip_split (rev s)) as (w & Hw & Hsp).
  exists (rev w). split.
  - rewrite <- rev_app_distr, <- Hw. now rewrite rev_involutive.
  - rewrite forallb_forall in *. intros x Hx. apply Hsp. now apply in_rev.
Qed.

Lemma strip_split s :
  exists w1 w2, s = w1 ++ strip s ++ w2
    /\ forallb isspace_c w1 = true /\ forallb isspace_c w2 = true.
Proof.
  destruct (lstrip_split s) as (w1 & H1 & S1).
  destruct (rstrip_split (lstrip s)) as (w2 & H2 & S2).
  exists w1, w2. unfold strip. rewrite <- H2. auto.
Qed.

Lemma findall_span_padded open close w1 w2 s :
  isspace_c open = false -> isspace_c close = false ->
  forallb isspace_c w1 = true -> forallb isspace_c w2 = true ->
  findall_span open close (w1 ++ s ++ w2) = findall_span open close s.
Proof.
  intros Ho Hc H1 H2.
  rewrite findall_span_ws_app by now apply space_not_in.
  apply (findall_span_app_ws _ _ _ (length s));
    [now apply space_not_in..|lia].
Qed.

Lemma sub_span_padded open close w1 w2 s :
  isspace_c open = false -> isspace_c close = false ->
  forallb isspace_c w1 = true -> forallb isspace_c w2 = true ->
  sub_span open close (w1 ++ s ++ w2) = w1 ++ sub_span open close s ++ w2.
Proof.
  intros Ho Hc H1 H2.
  rewrite sub_span_keep by now apply space_not_in.
  f_equal. apply (sub_span_app_ws _ _ _ (length s));
    [now apply space_not_in..|lia].
Qed.

Lemma cleaned_name_padded w1 w2 s :
  forallb isspace_c w1 = true -> forallb isspace_c w2 = true ->
  cleaned_name (w1 ++ s ++ w2) = cleaned_name s.
Proof.
  intros H1 H2. unfold cleaned_name.
  rewrite !sub_span_padded by (assumption || reflexivity).
  now apply strip_pad.
Qed.

(** X20: white space around a folder name plays no part: with any run of
    white-space characters before and after the name, [parse_bracket_info]
    returns the same date and producer (or raises the same error in the
    CLI) and [parse_folder_name] returns the same title, in both
    programs. *)
Theorem parsers_ignore_outer_white_space (before after folder_name : str) :
  forallb isspace_c before = true -> forallb isspace_c after = true ->
  parse_bracket_info_GUI (before ++ folder_name ++ after)
  = parse_bracket_info_GUI folder_name
  /\ parse_bracket_info_CLI (before ++ folder_name ++ after)
     = parse_bracket_info_CLI folder_name
  /\ parse_folder_name_GUI (before ++ folder_name ++ after)
     = parse_folder_name_GUI folder_name
  /\ parse_folder_name_CLI (before ++ folder_name ++ after)
     = parse_folder_name_CLI folder_name.
Proof.
  intros H1 H2.
  unfold parse_bracket_info_GUI, parse_bracket_info_CLI,
    parse_folder_name_GUI, parse_folder_name_CLI.
  rewrite findall_span_padded by (assumption || reflexivity).
  now rewrite cleaned_name_padded.
Qed.

Lemma parsers_ignore_outer_white_space_witness :
  parse_bracket_info_GUI (lit "  " ++ lit "[Key][000908] Air (kit)" ++ lit " ")
  = parse_bracket_info_GUI (lit "[Key][000908] Air (kit)")
  /\ parse_bracket_info_CLI
       (lit "  " ++ lit "[Key][000908] Air (kit)" ++ lit " ")
     = parse_bracket_info_CLI (lit "[Key][000908] Air (kit)")
  /\ parse_folder_name_GUI
       (lit "  " ++ lit "[Key][000908] Air (kit)" ++ lit " ")
     = parse_folder_name_GUI (lit "[Key][000908] Air (kit)")
  /\ parse_folder_name_CLI
       (lit "  " ++ lit "[Key][000908] Air (kit)" ++ lit " ")
     = parse_folder_name_CLI (lit "[Key][000908] Air (kit)").
Proof.
  exact (parsers_ignore_outer_white_space (lit "  ") (lit " ")
           (lit "[Key][000908] Air (kit)") eq_refl eq_refl).
Defined.

(* ----------------------------------------------------------------- *)
(** ** Names built by the template editor *)


Lemma sub_empty_parens_cons c t :
  sub_empty_parens (c :: t) =
  if char_eqb c LPAREN then
    match lstrip t with
    | c' :: rest =>
        if char_eqb c' RPAREN then sub_empty_parens rest
        else c :: sub_empty_parens t
    | [] => c :: sub_empty_parens t
    end
  else c :: sub_empty_parens t.
Proof.
  unfold sub_empty_parens. cbn [length sub_empty_parens_from].
  destruct (char_eqb c LPAREN); [|reflexivity].
  destruct (lstrip_suffix t) as [w Hw].
  destruct (lstrip t) as [|c' rest] eqn:E; [reflexivity|].
  destruct (char_eqb c' RPAREN); [|reflexivity].
  apply (f_equal (@length char)) in Hw.
  rewrite length_app in Hw. simpl in Hw.
  apply sub_empty_parens_from_fuel; lia.
Qed.

Lemma sub_empty_parens_keep s1 s2 :
  ~ In LPAREN s1 ->
  sub_empty_parens (s1 ++ s2) = s1 ++ sub_empty_parens s2.
Proof.
  induction s1 as [|c s1 IH]; intros H; [reflexivity|].
  cbn [app]. rewrite sub_empty_parens_cons.
  destruct (char_eqb c LPAREN) eqn:E.
  - apply char_eqb_eq in E. subst. exfalso. apply H. now left.
  - f_equal. apply IH. intros Hin. apply H. now right.
Qed.

Lemma sub_empty_parens_tags tags :
  ~ In LPAREN (strip tags) -> ~ In RPAREN (strip tags) ->
  sub_empty_parens (LPAREN :: strip tags ++ [RPAREN])
  = if nonempty (strip tags) then LPAREN :: strip tags ++ [RPAREN] else [].
Proof.
  intros H1 H2. rewrite sub_empty_parens_cons, char_eqb_refl.
  pose proof (strip_head tags) as Hh.
  destruct (strip tags) as [|g G]; [reflexivity|].
  cbn [app lstrip nonempty]. rewrite Hh.
  destruct (char_eqb g RPAREN) eqn:Eg.
  - apply char_eqb_eq in Eg. subst. exfalso. apply H2. now left.
  - f_equal. change (g :: G ++ [RPAREN]) with ((g :: G) ++ [RPAREN]).
    now rewrite sub_empty_parens_keep.
Qed.

Lemma editor_layout_shape P D L T F G :
  join (lit " ") (map (filled_part P D L T F G) known_placeholders)
  = LBRACKET :: P ++ RBRACKET :: SPACE :: LBRACKET :: D ++ RBRACKET
    :: SPACE :: L ++ SPACE :: T ++ SPACE :: F ++ SPACE
    :: LPAREN :: G ++ [RPAREN].
Proof.
  cbv -[app]. repeat rewrite <- ?app_assoc, <- ?app_comm_cons.
  cbn [app]. reflexivity.
Qed.

Lemma length_token_chars n_opt c :
  In c (match n_opt with
        | Some n => lit "[L" ++ str_of_int n ++ lit "]"
        | None => []
        end) ->
  c = LBRACKET \/ c = RBRACKET \/ c = 76%N \/ c = 45%N \/ (48 <= c <= 57)%N.
Proof.
  destruct n_opt as [n|]; [|contradiction].
  pose proof (str_of_int_chars n) as H. rewrite Forall_forall in H.
  rewrite !in_app_iff. simpl.
  intros [[Hc|[Hc|[]]]|[Hc|[Hc|[]]]]; subst; auto 6.
Qed.

Lemma findall_span_skip open close c s :
  c <> open ->
  findall_span open close (c :: s) = findall_span open close s.
Proof.
  intros H. apply (findall_span_ws_app open close [c]).
  intros [E|[]]. now apply H.
Qed.

Lemma sub_span_skip open close c s :
  c <> open -> sub_span open close (c :: s) = c :: sub_span open close s.
Proof.
  intros H. apply (sub_span_keep open close [c]).
  intros [E|[]]. now apply H.
Qed.

(** Case analysis on the membership of a character in a text written
    with [::] and [++]. *)
Ltac in_cases :=
  repeat match goal with
         | H : In _ (_ ++ _) |- _ => apply in_app_or in H
         | H : In _ (_ :: _) |- _ => destruct H as [H|H]
         | H : In _ [] |- _ => contradiction
         | H : _ \/ _ |- _ => destruct H as [H|H]
         | H : @eq char _ _ |- _ => discriminate H
         end.

(** The name built from all six items of the editor in their first order,
    read by the two parsers. *)
Lemma editor_layout_parse P D n_opt T F tags :
  recoverable_producer P = true -> ~ In LPAREN P ->
  length D = 6 -> forallb isdecimal_c D = true -> plausible_date D = true ->
  opener_free T = true -> opener_free F = true ->
  ~ In LBRACKET (strip tags) -> ~ In LPAREN (strip tags) ->
  ~ In RPAREN (strip tags) -> ~ In NEWLINE (strip tags) ->
  let L := match n_opt with
           | Some n => lit "[L" ++ str_of_int n ++ lit "]"
           | None => []
           end in
  let name := strip (sub_empty_parens
                       (join (lit " ")
                          (map (filled_part P D L T F (strip tags))
                               known_placeholders))) in
  parse_bracket_info_GUI name = (D, P)
  /\ parse_bracket_info_CLI name = Ok (D, P)
  /\ parse_folder_name_GUI name = strip (T ++ lit " " ++ F).
Proof.
  intros Hp HpP Hl Hd Hpl Ht Hf Hg1 Hg2 Hg3 Hg4 L name.
  assert (Hp' := Hp). unfold recoverable_producer in Hp'.
  rewrite !andb_true_iff, !negb_true_iff, !has_char_false_in in Hp'.
  destruct Hp' as (((((_ & Hp1) & Hp2) & _) & Hlen) & _).
  assert (HD : forall c, In c D -> isdecimal_c c = true).
  { now apply forallb_forall. }
  assert (Hd1 : ~ In RBRACKET D /\ ~ In NEWLINE D).
  { split; intros Hin; now destruct (decimal_not_special _ (HD _ Hin)). }
  assert (Hd2 : ~ In LPAREN D).
  { intros Hin. apply HD in Hin. vm_compute in Hin. discriminate. }
  unfold opener_free in Ht, Hf.
  rewrite !andb_true_iff, !negb_true_iff, !has_char_false_in in Ht, Hf.
  destruct Ht as ((Ht1 & Ht2) & Ht3). destruct Hf as ((Hf1 & Hf2) & Hf3).
  set (G := strip tags) in *.
  set (Gp := if nonempty G then LPAREN :: G ++ [RPAREN] else []).
  set (tail := SPACE :: T ++ SPACE :: F ++ SPACE :: Gp).
  set (Y := LBRACKET :: P ++ RBRACKET :: SPACE :: LBRACKET :: D ++ RBRACKET
            :: SPACE :: L ++ tail).
  assert (HL := length_token_chars n_opt). fold L in HL.
  assert (Hname : name = strip Y).
  { unfold name. f_equal. rewrite editor_layout_shape.
    set (pre := LBRACKET :: P ++ RBRACKET :: SPACE :: LBRACKET :: D
                ++ RBRACKET :: SPACE :: L ++ SPACE :: T ++ SPACE :: F
                ++ [SPACE]).
    assert (Hpre : ~ In LPAREN pre).
    { unfold pre. intros H. in_cases; try contradiction.
      apply HL in H. unfold LPAREN, LBRACKET, RBRACKET in H. lia. }
    transitivity (sub_empty_parens (pre ++ LPAREN :: G ++ [RPAREN])).
    { f_equal. unfold pre.
      repeat rewrite <- ?app_assoc, <- ?app_comm_cons. reflexivity. }
    rewrite sub_empty_parens_keep by assumption.
    unfold G. rewrite sub_empty_parens_tags by assumption.
    fold G. fold Gp. unfold pre, Y, tail.
    repeat rewrite <- ?app_assoc, <- ?app_comm_cons. reflexivity. }
  assert (HGp : ~ In LBRACKET Gp).
  { unfold Gp. destruct (nonempty G); [|tauto].
    intros H. in_cases. contradiction. }
  assert (Htail : ~ In LBRACKET tail).
  { unfold tail. intros H. in_cases; contradiction. }
  destruct (strip_split Y) as (w1 & w2 & HY & H1 & H2).
  assert (Hspans : findall_span LBRACKET RBRACKET name
                   = P :: D :: match n_opt with
                               | Some n => [76%N :: str_of_int n]
                               | None => []
                               end).
  { rewrite Hname.
    rewrite <- (findall_span_padded LBRACKET RBRACKET w1 w2 (strip Y))
      by (assumption || reflexivity).
    rewrite <- HY. unfold Y.
    rewrite findall_span_first by assumption.
    rewrite findall_span_skip by discriminate.
    rewrite findall_span_first by tauto.
    rewrite findall_span_skip by discriminate.
    f_equal. f_equal. unfold L. destruct n_opt as [n|].
    - change (lit "[L" ++ str_of_int n ++ lit "]")
        with (LBRACKET :: (76%N :: str_of_int n) ++ [RBRACKET]).
      rewrite <- app_comm_cons, <- app_assoc. cbn [app].
      destruct (length_segment_facts n) as (E1 & E2 & _).
      change (76%N :: str_of_int n ++ RBRACKET :: tail)
        with ((76%N :: str_of_int n) ++ RBRACKET :: tail).
      rewrite findall_span_first by assumption.
      now rewrite findall_span_no_open.
    - cbn [app]. now apply findall_span_no_open. }
  assert (Hclean : cleaned_name name = strip (T ++ lit " " ++ F)).
  { rewrite Hname.
    rewrite <- (cleaned_name_padded w1 w2 (strip Y)) by assumption.
    rewrite <- HY. unfold cleaned_name.
    assert (S1 : sub_span LBRACKET RBRACKET Y = SPACE :: SPACE :: tail).
    { unfold Y. rewrite sub_span_first by assumption.
      rewrite sub_span_skip by discriminate. f_equal. rewrite sub_span_first by tauto.
      rewrite sub_span_skip by discriminate. f_equal. unfold L. destruct n_opt as [n|].
      - change (lit "[L" ++ str_of_int n ++ lit "]")
          with (LBRACKET :: (76%N :: str_of_int n) ++ [RBRACKET]).
        rewrite <- app_comm_cons, <- app_assoc. cbn [app].
        destruct (length_segment_facts n) as (E1 & E2 & _).
        change (76%N :: str_of_int n ++ RBRACKET :: tail)
          with ((76%N :: str_of_int n) ++ RBRACKET :: tail).
        rewrite sub_span_first by assumption.
        now apply sub_span_id.
      - cbn [app]. now apply sub_span_id. }
    set (mid := SPACE :: SPACE :: SPACE :: T ++ SPACE :: F ++ [SPACE]).
    assert (Hmid : SPACE :: SPACE :: tail = mid ++ Gp).
    { unfold mid, tail.
      repeat rewrite <- ?app_assoc, <- ?app_comm_cons. reflexivity. }
    assert (Hmid1 : ~ In LPAREN mid /\ ~ In LBRACE mid).
    { unfold mid. split; intros H; in_cases; contradiction. }
    assert (S2 : sub_span LPAREN RPAREN (mid ++ Gp) = mid).
    { rewrite sub_span_keep by tauto.
      rewrite <- (app_nil_r mid) at 2. f_equal.
      unfold Gp. destruct (nonempty G); [|reflexivity].
      change (LPAREN :: G ++ [RPAREN]) with (LPAREN :: G ++ RPAREN :: []).
      now rewrite sub_span_first. }
    rewrite S1, Hmid, S2, sub_span_id by tauto.
    unfold mid.
    change (SPACE :: SPACE :: SPACE :: T ++ SPACE :: F ++ [SPACE])
      with ([SPACE; SPACE; SPACE] ++ T ++ SPACE :: F ++ [SPACE]).
    replace (T ++ SPACE :: F ++ [SPACE])
      with ((T ++ lit " " ++ F) ++ [SPACE])
      by (rewrite <- !app_assoc; reflexivity).
    now apply strip_pad. }
  unfold parse_folder_name_GUI. split; [|split; [|exact Hclean]];
    unfold parse_bracket_info_GUI, parse_bracket_info_CLI; rewrite Hspans;
    destruct (step_producer ([], []) P Hp eq_refl) as (G1 & C1);
    destruct (step_date ([], P) D Hl Hd Hpl) as (G2 & C2);
    assert (Hne : nonempty P = true)
      by (destruct P; [apply Nat.leb_le in Hlen; simpl in Hlen; lia
                      |reflexivity]);
    destruct n_opt as [n|]; cbn [fold_left foldM];
    try (destruct (length_segment_facts n) as (_ & _ & H3);
         destruct (step_kept (D, P) (76%N :: str_of_int n) H3 Hne)
           as (G3 & C3));
    cbn [fst snd] in *.
  - now rewrite G1, G2, G3.
  - now rewrite G1, G2.
  - rewrite C1. cbn [bind]. rewrite C2. cbn [bind]. now rewrite C3.
  - rewrite C1. cbn [bind]. now rewrite C2.
Qed.

(** The name suggested for the template with all six items. *)
Lemma editor_template_layout (U : unicode_db) (vn_info : vn)
  (release_info : option release)
  (optional_flags optional_tags title_override : option str) :
  suggest_new_folder_name_GUI U vn_info release_info optional_flags
    optional_tags (Some (getTemplate known_placeholders)) title_override
  = Ok (strip (sub_empty_parens
                 (join (lit " ")
                    (map (filled_part (resolve_producer vn_info release_info)
                            (resolve_date vn_info release_info)
                            (length_token vn_info)
                            (if nonempty (get_or title_override [])
                             then get_or title_override []
                             else get_or (vn_title vn_info)
                                    (lit "Unknown Title"))
                            (strip (get_or optional_flags []))
                            (strip (get_or optional_tags [])))
                       known_placeholders)))).
Proof.
  unfold suggest_new_folder_name_GUI. cbn [get_or].
  change (nonempty (getTemplate known_placeholders)
          && nonempty (strip (getTemplate known_placeholders))) with true.
  cbv beta iota. rewrite py_format_template; [reflexivity|].
  unfold known_placeholders. repeat constructor; simpl; tauto.
Qed.

(** X21: the names the window builds are read back by its parsers.  With
    all six items of the editor checked in their first order, the
    suggested name has the producer and the date in square brackets and
    the title followed by the flags; when the producer is one the bracket
    parser accepts and has no opening parenthesis, the date was resolved,
    the title and the flags have no opening bracket, parenthesis or brace,
    and the trimmed tags have no opening square bracket, no parenthesis
    and no newline, then [parse_bracket_info] of either program returns
    the date and the producer of the name, and [parse_folder_name] of the
    window returns the title followed by a space and the flags, trimmed:
    the flags, which this layout does not put in braces, come back as
    part of the title. *)
Theorem editor_layout_round_trip (U : unicode_db) (vn_info : vn)
  (release_info : option release)
  (optional_flags optional_tags title_override : option str) :
  let producer := resolve_producer vn_info release_info in
  let formatted_date := resolve_date vn_info release_info in
  let title_str :=
    if nonempty (get_or title_override []) then get_or title_override []
    else get_or (vn_title vn_info) (lit "Unknown Title") in
  let flags_str := strip (get_or optional_flags []) in
  let tags_str := strip (get_or optional_tags []) in
  editor_layout_safe producer title_str flags_str tags_str = true ->
  str_eqb formatted_date (lit "Unknown") = false ->
  exists name,
    suggest_new_folder_name_GUI U vn_info release_info optional_flags
      optional_tags (Some (getTemplate known_placeholders)) title_override
    = Ok name
    /\ parse_bracket_info_GUI name = (formatted_date, producer)
    /\ parse_bracket_info_CLI name = Ok (formatted_date, producer)
    /\ parse_folder_name_GUI name = strip (title_str ++ lit " " ++ flags_str).
Proof.
  intros producer formatted_date title_str flags_str tags_str Hs Hd.
  unfold editor_layout_safe in Hs.
  rewrite !andb_true_iff, !negb_true_iff in Hs.
  destruct Hs as ((((((Hp & Hp') & Ht) & Hf) & Hg1) & Hg2) & Hg3).
  unfold bracket_free in Hg1. unfold fits_span in Hg3.
  apply andb_true_iff in Hg3 as [Hg3 Hg4].
  apply negb_true_iff, has_char_false_in in Hg1, Hg3, Hg4.
  apply has_char_false_in in Hp', Hg2.
  destruct (resolve_date_cases vn_info release_info)
    as [E|(y & m & d & Hr & E)].
  { unfold formatted_date in Hd. rewrite E in Hd. discriminate. }
  destruct (strftime_plausible y m d) as (Hl & Hdec & Hpl); try tauto.
  rewrite <- E in Hl, Hdec, Hpl.
  eexists. split.
  - apply editor_template_layout.
  - apply (editor_layout_parse producer formatted_date (vn_length vn_info)
             title_str flags_str (get_or optional_tags []));
      assumption.
Qed.

(** A name of the window with flags and tags. *)
Example editor_layout_example :
  suggest_new_folder_name_GUI ascii_db
    (Build_vn (Some (lit "Fate/Stay")) [] (Some (lit "2004-01-29")) []
       (Some 40%Z))
    (Some (Build_release None None
             [Build_producer (Some (lit "TYPE-MOON")) true]))
    (Some (lit "18+")) (Some (lit "Romance"))
    (Some (getTemplate known_placeholders)) None
  = Ok (lit "[TYPE-MOON] [040129] [L40] Fate/Stay 18+ (Romance)").
Proof. vm_compute. reflexivity. Qed.

Lemma editor_layout_round_trip_witness :
  exists name,
    suggest_new_folder_name_GUI ascii_db
      (Build_vn (Some (lit "Fate/Stay")) [] (Some (lit "2004-01-29")) []
         (Some 40%Z))
      (Some (Build_release None None
               [Build_producer (Some (lit "TYPE-MOON")) true]))
      (Some (lit "18+")) (Some (lit "Romance"))
      (Some (getTemplate known_placeholders)) None = Ok name
    /\ parse_bracket_info_GUI name = (lit "040129", lit "TYPE-MOON")
    /\ parse_bracket_info_CLI name = Ok (lit "040129", lit "TYPE-MOON")
    /\ parse_folder_name_GUI name = lit "Fate/Stay 18+".
Proof.
  exact (editor_layout_round_trip ascii_db
    (Build_vn (Some (lit "Fate/Stay")) [] (Some (lit "2004-01-29")) []
       (Some 40%Z))
    (Some (Build_release None None
             [Build_producer (Some (lit "TYPE-MOON")) true]))
    (Some (lit "18+")) (Some (lit "Romance")) None eq_refl eq_refl).
Defined.
